(** * EVM bytecode decompiler: opcode scanner, proxy resolution, signature
      classification, parallel calls and heuristic response decoding.

    A shallow embedding of the TypeScript sources
      - [modules/evm-opcodes.ts]      (class [EVM], [detectProxyImplementation])
      - [modules/try-decode-resp.ts]  ([decodeResp])
      - [helpers/contract-utils.ts]   ([isCallableSignature], [extractFunctionName])
      - [helpers/signature-resolver.ts] ([openchain], [fourByte])
      - [helpers/address-validator.ts] ([validateEVMAddress])
      - [helpers/network-checker.ts]  ([checkContractInNetwork])
      - [groupcall/groupcall-viem.ts] ([groupcall], [normalizeRevertReason],
                                       the resolution loop, the classification
                                       and the recording of the call results of
                                       [processUserContract])
    and the properties of these functions.

    Conventions.  A JavaScript string is a [string]: each [ascii] stands for one
    UTF-16 code unit below 256.  A JavaScript number used as an index or a
    length is a [Z].  A [Buffer] is a list of bytes.  A call that may throw
    returns a [Result]. *)

From Stdlib Require Import List String Ascii Bool Arith NArith ZArith Lia.
From Stdlib Require Import DecimalString Permutation.
From Stdlib Require DecimalFacts DecimalPos DecimalN.
Import ListNotations.

Local Open Scope string_scope.
Local Open Scope Z_scope.

(* ===================================================================== *)
(** * JavaScript primitives used by the sources *)
(* ===================================================================== *)

Module JS.

(** What a fallible call produces: a value, or a thrown error. The only
    part of an error the sources look at is [error.details]. *)
Record JsError : Type := mkError { details : option string }.

Inductive Result (A : Type) : Type :=
| Ok (a : A)
| Throw (e : JsError).
Arguments Ok {A} a.
Arguments Throw {A} e.

(** [try { body } catch { handler }] *)
Definition try_catch {A} (body : Result A) (handler : JsError -> Result A) : Result A :=
  match body with
  | Ok a => Ok a
  | Throw e => handler e
  end.

Definition bind {A B} (m : Result A) (k : A -> Result B) : Result B :=
  match m with
  | Ok a => k a
  | Throw e => Throw e
  end.

(** An [async] computation over a log of the requests sent so far, of
    type [Req]: the log is threaded through, and an [await] of a rejected
    promise throws. *)
Definition Async (Req A : Type) : Type := list Req -> Result A * list Req.

Definition ret {Req A} (a : A) : Async Req A := fun log => (Ok a, log).

Definition bindA {Req A B} (m : Async Req A) (k : A -> Async Req B) : Async Req B :=
  fun log =>
    match m log with
    | (Ok a, log') => k a log'
    | (Throw e, log') => (Throw e, log')
    end.

Definition lift {Req A} (r : Result A) : Async Req A := fun log => (r, log).

(** [await request(...)]: the request is logged, then answered. *)
Definition await {Req A} (req : Req) (answer : Result A) : Async Req A :=
  fun log => (answer, (log ++ [req])%list).

(** [try { body } catch { handler }] around awaits. *)
Definition tryA {Req A} (body : Async Req A) (handler : JsError -> Async Req A)
  : Async Req A :=
  fun log =>
    match body log with
    | (Ok a, log') => (Ok a, log')
    | (Throw e, log') => handler e log'
    end.

Notation "x <- m ;; k" := (bindA m (fun x => k))
  (at level 61, m at next level, right associativity).

(** ** Characters *)

Definition code (c : ascii) : N := N_of_ascii c.

(** WhiteSpace and LineTerminator code units below 256: TAB, LF, VT, FF, CR,
    SP and NBSP. [String.prototype.trim] and the regex class [\s] agree. *)
Definition isWhiteSpace (c : ascii) : bool :=
  let n := code c in
  ((9 <=? n) && (n <=? 13) || (n =? 32) || (n =? 160))%N.

Definition isDigit (c : ascii) : bool :=
  let n := code c in ((48 <=? n) && (n <=? 57))%N.

Definition lowerChar (c : ascii) : ascii :=
  let n := code c in
  if ((65 <=? n) && (n <=? 90))%N then ascii_of_N (n + 32)
  else if ((192 <=? n) && (n <=? 222) && negb (n =? 215))%N then ascii_of_N (n + 32)
  else c.

Definition upperChar (c : ascii) : ascii :=
  let n := code c in
  if ((97 <=? n) && (n <=? 122))%N then ascii_of_N (n - 32)
  else c.

(** ** Strings *)

Definition len (s : string) : Z := Z.of_nat (String.length s).

Fixpoint map (f : ascii -> ascii) (s : string) : string :=
  match s with
  | EmptyString => EmptyString
  | String c s' => String (f c) (map f s')
  end.

Definition toLowerCase : string -> string := map lowerChar.
Definition toUpperCase : string -> string := map upperChar.

Definition startsWith (s p : string) : bool := String.prefix p s.

(** [s.indexOf(p)], scanning from offset [i]; -1 when [p] does not occur. *)
Fixpoint indexOf_from (p s : string) (i : Z) : Z :=
  if String.prefix p s then i
  else match s with
       | EmptyString => -1
       | String _ s' => indexOf_from p s' (i + 1)
       end.

Definition indexOf (s p : string) : Z := indexOf_from p s 0.

Definition includes (s p : string) : bool := negb (indexOf s p =? -1).

(** Relative index of [slice]: a negative index counts from the end, and
    the result is clamped to [0, len]. *)
Definition clamp (len i : Z) : Z :=
  if i <? 0 then Z.max (len + i) 0 else Z.min i len.

(** [s.slice(start, end)]; [None] for an omitted [end]. *)
Definition slice (s : string) (start : Z) (stop : option Z) : string :=
  let n := len s in
  let from := clamp n start in
  let to := match stop with Some e => clamp n e | None => n end in
  String.substring (Z.to_nat from) (Z.to_nat (to - from)) s.

Definition endsWith (s p : string) : bool :=
  (len p <=? len s) && String.eqb (slice s (len s - len p) None) p.

Fixpoint dropWhile (f : ascii -> bool) (s : string) : string :=
  match s with
  | EmptyString => EmptyString
  | String c s' => if f c then dropWhile f s' else s
  end.

Fixpoint dropWhileEnd (f : ascii -> bool) (s : string) : string :=
  match s with
  | EmptyString => EmptyString
  | String c s' =>
      match dropWhileEnd f s' with
      | EmptyString => if f c then EmptyString else String c EmptyString
      | t => String c t
      end
  end.

Definition trim (s : string) : string :=
  dropWhileEnd isWhiteSpace (dropWhile isWhiteSpace s).

(** [s.replace(p, r)] for a string pattern: the first occurrence only. *)
Definition replace (s p r : string) : string :=
  let i := indexOf s p in
  if i =? -1 then s
  else slice s 0 (Some i) ++ r ++ slice s (i + len p) None.

(** [s.split(sep)] for a one-character separator. *)
Fixpoint split (sep : ascii) (s : string) : list string :=
  match s with
  | EmptyString => [EmptyString]
  | String c s' =>
      if Ascii.eqb c sep then EmptyString :: split sep s'
      else match split sep s' with
           | h :: t => String c h :: t
           | [] => [String c EmptyString]
           end
  end.

(** ** Numbers *)

Fixpoint digits_value (s : string) (acc : Z) : Z :=
  match s with
  | EmptyString => acc
  | String c s' =>
      if isDigit c then digits_value s' (10 * acc + Z.of_N (code c - 48)) else acc
  end.

(** [parseInt(s, 10)]: leading white space, an optional sign, then the
    longest run of decimal digits; [None] is NaN. *)
Definition parseInt (s : string) : option Z :=
  let t := dropWhile isWhiteSpace s in
  let '(sign, u) :=
    match t with
    | String "-" u => (-1, u)
    | String "+" u => (1, u)
    | _ => (1, t)
    end in
  match u with
  | String c _ => if isDigit c then Some (sign * digits_value u 0) else None
  | EmptyString => None
  end.

Definition hexDigit (upper : bool) (d : N) : ascii :=
  if (d <? 10)%N then ascii_of_N (48 + d)
  else ascii_of_N ((if upper then 55 else 87) + d).

Fixpoint hex_of_pos (upper : bool) (fuel : nat) (n : N) (acc : string) : string :=
  match fuel with
  | O => acc
  | S fuel' =>
      let acc' := String (hexDigit upper (n mod 16)) acc in
      if (n / 16 =? 0)%N then acc' else hex_of_pos upper fuel' (n / 16) acc'
  end.

(** [n.toString(16)] for a non-negative integer (lower case). *)
Definition toString16 (n : N) : string :=
  hex_of_pos false (S (N.to_nat (N.log2 n))) n EmptyString.

Fixpoint repeat_char (c : ascii) (n : nat) : string :=
  match n with
  | O => EmptyString
  | S n' => String c (repeat_char c n')
  end.

(** [s.padStart(n, c)] for a one-character filler. *)
Definition padStart (s : string) (n : Z) (c : ascii) : string :=
  repeat_char c (Z.to_nat (n - len s)) ++ s.

End JS.

(* ===================================================================== *)
(** * The opcode scanner: class [EVM] of [modules/evm-opcodes.ts] *)
(* ===================================================================== *)

Module EVM.

Definition Buffer := list Byte.byte.

(** [interface EvmOpcode] *)
Record EvmOpcode : Type := mkOpcode {
  name : string;
  opcode : N;
  pc : Z;
  pushData : option Buffer
}.

(** The object: the decoded [code] and the [opcodes] array it fills. *)
Record t : Type := mkEVM {
  code : Buffer;
  opcodes : list EvmOpcode
}.

(** [buf[i]]: [None] is [undefined]. *)
Definition Buffer_get (b : Buffer) (i : Z) : option N :=
  if i <? 0 then None
  else match nth_error b (Z.to_nat i) with
       | Some x => Some (Byte.to_N x)
       | None => None
       end.

Definition Buffer_length (b : Buffer) : Z := Z.of_nat (List.length b).

(** [buf.slice(start, end)]: relative indices as for strings. *)
Definition Buffer_slice (b : Buffer) (start stop : Z) : Buffer :=
  let n := Buffer_length b in
  let from := JS.clamp n start in
  let to := JS.clamp n stop in
  firstn (Z.to_nat (to - from)) (skipn (Z.to_nat from) b).

(** The literal [opcodeMap] of [getOpcodeInfo]. *)
Definition opcodeMap (op : N) : option string :=
  match op with
  | 0x60 => Some "PUSH1"  | 0x61 => Some "PUSH2"  | 0x62 => Some "PUSH3"  | 0x63 => Some "PUSH4"
  | 0x64 => Some "PUSH5"  | 0x65 => Some "PUSH6"  | 0x66 => Some "PUSH7"  | 0x67 => Some "PUSH8"
  | 0x68 => Some "PUSH9"  | 0x69 => Some "PUSH10" | 0x6A => Some "PUSH11" | 0x6B => Some "PUSH12"
  | 0x6C => Some "PUSH13" | 0x6D => Some "PUSH14" | 0x6E => Some "PUSH15" | 0x6F => Some "PUSH16"
  | 0x70 => Some "PUSH17" | 0x71 => Some "PUSH18" | 0x72 => Some "PUSH19" | 0x73 => Some "PUSH20"
  | 0x74 => Some "PUSH21" | 0x75 => Some "PUSH22" | 0x76 => Some "PUSH23" | 0x77 => Some "PUSH24"
  | 0x78 => Some "PUSH25" | 0x79 => Some "PUSH26" | 0x7A => Some "PUSH27" | 0x7B => Some "PUSH28"
  | 0x7C => Some "PUSH29" | 0x7D => Some "PUSH30" | 0x7E => Some "PUSH31" | 0x7F => Some "PUSH32"
  | 0x00 => Some "STOP"   | 0x01 => Some "ADD"    | 0x02 => Some "MUL"    | 0x03 => Some "SUB"
  | 0x50 => Some "POP"    | 0x51 => Some "MLOAD"  | 0x52 => Some "MSTORE" | 0x53 => Some "MSTORE8"
  | 0x54 => Some "SLOAD"  | 0x55 => Some "SSTORE" | 0x56 => Some "JUMP"   | 0x57 => Some "JUMPI"
  | 0x58 => Some "PC"     | 0x59 => Some "MSIZE"  | 0x5A => Some "GAS"    | 0x5B => Some "JUMPDEST"
  | 0xF0 => Some "CREATE" | 0xF1 => Some "CALL"   | 0xF2 => Some "CALLCODE" | 0xF3 => Some "RETURN"
  | 0xF4 => Some "DELEGATECALL" | 0xFA => Some "STATICCALL" | 0xFD => Some "REVERT"
  | 0xFF => Some "SELFDESTRUCT"
  | _ => None
  end%N.

(** [getOpcodeInfo(opcode).name]: the table's name, or "0x" and the two
    upper-case hex digits. *)
Definition getOpcodeInfo (op : N) : string :=
  match opcodeMap op with
  | Some n => n
  | None => "0x" ++ JS.padStart (JS.toUpperCase (JS.toString16 op)) 2 "0"
  end.

(** The body of the [for] loop of [getOpcodes] at program counter [pc0],
    the opcode byte already read: the entry pushed, and the value of [pc]
    when the body ends (before the loop's [pc++]). *)
Definition decodeAt (code : Buffer) (pc0 : Z) (opcodeByte : N) : EvmOpcode * Z :=
  let opname := getOpcodeInfo opcodeByte in
  let currentOp := mkOpcode opname opcodeByte pc0 None in
  if JS.startsWith opname "PUSH" then
    match JS.parseInt (JS.replace opname "PUSH" "") with
    | Some pushSize =>
        if pc0 + pushSize <? Buffer_length code then
          (mkOpcode opname opcodeByte pc0
             (Some (Buffer_slice code (pc0 + 1) (pc0 + pushSize + 1))),
           pc0 + pushSize)
        else (currentOp, pc0)
    | None => (currentOp, pc0)
    end
  else (currentOp, pc0).

(** The [for] loop over [this.opcodes] (here [acc]): how the loop ends and
    the array it leaves. [None]: the fuel ran out before the loop ended.
    Reading [this.code[pc]] outside the buffer gives [undefined], on which
    [getOpcodeInfo] throws a TypeError. *)
Fixpoint parseLoop (fuel : nat) (code : Buffer) (pc0 : Z) (acc : list EvmOpcode)
  : option (JS.Result unit * list EvmOpcode) :=
  if pc0 <? Buffer_length code then
    match fuel with
    | O => None
    | S fuel' =>
        match Buffer_get code pc0 with
        | None => Some (JS.Throw (JS.mkError None), acc)
        | Some opcodeByte =>
            let '(currentOp, pc1) := decodeAt code pc0 opcodeByte in
            parseLoop fuel' code (pc1 + 1) (acc ++ [currentOp])
        end
    end
  else Some (JS.Ok tt, acc).

(** The object a constructor call leaves, given the decoded buffer. *)
Definition new (code : Buffer) : t := mkEVM code [].

Definition hexNibble (c : ascii) : option N :=
  let n := JS.code c in
  if ((48 <=? n) && (n <=? 57))%N then Some (n - 48)%N
  else if ((65 <=? n) && (n <=? 70))%N then Some (n - 55)%N
  else if ((97 <=? n) && (n <=? 102))%N then Some (n - 87)%N
  else None.

(** Node's [Buffer.from(text, 'hex')]: two hex digits per byte; decoding
    stops, without an error, at the first pair that is not two hex digits,
    and a last odd digit is dropped. *)
Fixpoint Buffer_from_hex (text : string) : Buffer :=
  match text with
  | String h (String l rest) =>
      match hexNibble h, hexNibble l with
      | Some x, Some y =>
          match Byte.of_N (x * 16 + y) with
          | Some b => b :: Buffer_from_hex rest
          | None => []
          end
      | _, _ => []
      end
  | _ => []
  end.

(** [new EVM(bytecode)] *)
Definition constructor (bytecode : string) : t :=
  let hexCode :=
    if JS.startsWith bytecode "0x" then JS.slice bytecode 2 None else bytecode in
  new (Buffer_from_hex hexCode).

(** [getOpcodes()]: the array returned (or the error thrown) and the
    object afterwards. The array returned is [this.opcodes] itself. The
    loop advances [pc] by at least one per round, so [code.length] rounds
    of fuel are enough (see [parseLoop_scan]). *)
Definition getOpcodes (this : t) : option (JS.Result (list EvmOpcode) * t) :=
  if 0 <? Z.of_nat (List.length (opcodes this)) then
    Some (JS.Ok (opcodes this), this)
  else
    match parseLoop (List.length (code this)) (code this) 0 (opcodes this) with
    | None => None
    | Some (JS.Ok _, ops) => Some (JS.Ok ops, mkEVM (code this) ops)
    | Some (JS.Throw e, ops) => Some (JS.Throw e, mkEVM (code this) ops)
    end.

End EVM.

(* ===================================================================== *)
(** * [helpers/contract-utils.ts] *)
(* ===================================================================== *)

Module ContractUtils.

(** [!signature] for a [string | undefined]: [undefined] and the empty
    string are the falsy values. *)
Definition falsy (signature : option string) : bool :=
  match signature with
  | None => true
  | Some s => String.eqb s ""
  end.

Definition isCallableSignature (signature : option string) : bool :=
  if falsy signature then true
  else match signature with
       | Some s => JS.endsWith s "()"
       | None => true
       end.

(** [signature.split('(')[0]]; [split] never returns an empty array. *)
Definition extractFunctionName (signature : string) : string :=
  if JS.includes signature "(" then
    match JS.split "(" signature with
    | first :: _ => first
    | [] => signature
    end
  else signature.

End ContractUtils.

(* ===================================================================== *)
(** * [groupcall/groupcall-viem.ts]: revert reasons *)
(* ===================================================================== *)

Module Revert.

(** The character class [[:\s]] of the two regular expressions. *)
Definition colonOrSpace (c : ascii) : bool :=
  Ascii.eqb c ":" || JS.isWhiteSpace c.

Definition normalizeRevertReason (input : string) : string :=
  if String.eqb input "" then "execution reverted"
  else
    let text := input in
    let hexIndex := JS.indexOf text "0x" in
    let text := if negb (hexIndex =? -1) then JS.slice text 0 (Some hexIndex) else text in
    let text := JS.trim text in
    let prefix := "execution reverted" in
    let text :=
      if JS.startsWith (JS.toLowerCase text) prefix
      then JS.slice text (JS.len prefix) None else text in
    let text := JS.trim text in
    (* text.replace(/^[:\s]+/, "") and text.replace(/[:\s]+$/, "") *)
    let text := JS.dropWhile colonOrSpace text in
    let text := JS.dropWhileEnd colonOrSpace text in
    if String.eqb text "" then "execution reverted"
    else if JS.len text <=? 10 then "execution reverted: " ++ text
    else text.

End Revert.

(* ===================================================================== *)
(** * [modules/try-decode-resp.ts] *)
(* ===================================================================== *)

Module Decode.
Import JS.

(** The four shapes in which [decodeResp] calls viem's
    [decodeAbiParameters], each returning its first value or throwing:
    [[{type: "uint256"}]], [[{type: "address"}]],
    [[{type: "uint256"}, {type: "uint256"}]] and [[{type: "string"}]]. *)
Record AbiDecoder : Type := mkDecoder {
  decodeUint256 : string -> Result N;
  decodeAddress : string -> Result string;
  decodeUint256Pair : string -> Result (N * N);
  decodeString : string -> Result string
}.

(** [bigint.toString()] *)
Definition toString10 (n : N) : string :=
  DecimalString.NilEmpty.string_of_uint (N.to_uint n).

Definition literal_reverted : string := "execution reverted".
Definition literal_undecodable : string := "could not decode the response".

Section DecodeResp.
Variable abi : AbiDecoder.

(** Case 1: one 32-byte word. *)
Definition decodeWord (_data : string) : Result string :=
  try_catch
    (bind (decodeUint256 abi _data) (fun bigIntValue =>
       let intToString := toString10 bigIntValue in
       if (bigIntValue =? 57005)%N
          || ((35 <? len intToString) && (len intToString <? 51))
       then try_catch (decodeAddress abi _data) (fun _ => Ok intToString)
       else Ok intToString))
    (fun _ =>
       try_catch (decodeAddress abi _data) (fun _ => Ok literal_reverted)).

Definition decodeResp (_data : string) : Result string :=
  if String.eqb _data "" || (len _data <=? 2) then Ok literal_reverted
  else
    let dataLength := len _data in
    if dataLength =? 66 then decodeWord _data
    else if dataLength =? 130 then
      try_catch
        (bind (decodeUint256Pair abi _data) (fun decoded => Ok (toString10 (fst decoded))))
        (fun _ => Ok literal_reverted)
    else if dataLength =? 194 then
      try_catch (decodeString abi _data) (fun _ => Ok literal_reverted)
    else if 194 <? dataLength then Ok literal_undecodable
    else
      try_catch
        (if len _data <=? 10 then Ok literal_reverted
         else
           let dataWithoutSelector := "0x" ++ slice _data 10 None in
           decodeString abi dataWithoutSelector)
        (fun _ => Ok literal_reverted).
End DecodeResp.

End Decode.

(* ===================================================================== *)
(** * viem's decoding of one or two 32-byte words *)
(* ===================================================================== *)

(** [decodeAbiParameters] belongs to the viem library, not to this
    repository. The module gives its behaviour on the parameter lists
    [uint256], [address] and [uint256, uint256]: [hexToBytes], the two size
    checks, the 32-byte reads, and [checksumAddress] (EIP-55 over
    Keccak-256). *)
Module Viem.
Import JS.

Definition charCodeToBase16 (c : ascii) : option N :=
  let n := code c in
  if ((48 <=? n) && (n <=? 57))%N then Some (n - 48)%N
  else if ((65 <=? n) && (n <=? 70))%N then Some (n - 55)%N
  else if ((97 <=? n) && (n <=? 102))%N then Some (n - 87)%N
  else None.

(** Every character is a hex digit. *)
Fixpoint allHex (s : string) : bool :=
  match s with
  | EmptyString => true
  | String c s' =>
      match charCodeToBase16 c with
      | Some _ => allHex s'
      | None => false
      end
  end.

Definition invalidByteSequence : JsError := mkError None.

Fixpoint parsePairs (hexString : string) : Result (list N) :=
  match hexString with
  | EmptyString => Ok []
  | String l (String r rest) =>
      match charCodeToBase16 l, charCodeToBase16 r with
      | Some nl, Some nr => bind (parsePairs rest) (fun t => Ok ((nl * 16 + nr)%N :: t))
      | _, _ => Throw invalidByteSequence
      end
  | String _ EmptyString => Throw invalidByteSequence
  end.

Definition hexToBytes (hex : string) : Result (list N) :=
  let hexString := slice hex 2 None in
  let hexString :=
    if Nat.odd (String.length hexString) then "0" ++ hexString else hexString in
  parsePairs hexString.

(** [size(data)] for a string. *)
Definition size (data : string) : Z :=
  if startsWith data "0x" then (len data - 2 + 1) / 2 else len data.

Definition bytesToBigInt (bytes : list N) : N :=
  fold_left (fun acc b => (acc * 256 + b)%N) bytes 0%N.

(** The checks at the head of [decodeAbiParameters], then the bytes. *)
Definition decodePrelude (data : string) : Result (list N) :=
  bind (hexToBytes data) (fun bytes =>
    if (List.length bytes =? 0)%nat then Throw (mkError None)
    else if negb (size data =? 0) && (size data <? 32) then Throw (mkError None)
    else Ok bytes).

(** [cursor.readBytes(32)] at [position]. *)
Definition readWord (bytes : list N) (position : nat) : Result (list N) :=
  if (position + 32 <=? List.length bytes)%nat
  then Ok (firstn 32 (skipn position bytes))
  else Throw (mkError None).

(** ** Keccak-256 *)

Definition mask64 : N := 0xFFFFFFFFFFFFFFFF.

Definition rotl64 (x r : N) : N :=
  N.land (N.lor (N.shiftl x r) (N.shiftr x (64 - r))) mask64.

Definition rotationOffsets : list N :=
  [ 0;  1; 62; 28; 27;
   36; 44;  6; 55; 20;
    3; 10; 43; 25; 39;
   41; 45; 15; 21;  8;
   18;  2; 61; 56; 14]%N.

Definition roundConstants : list N :=
  [0x0000000000000001; 0x0000000000008082; 0x800000000000808A; 0x8000000080008000;
   0x000000000000808B; 0x0000000080000001; 0x8000000080008081; 0x8000000000008009;
   0x000000000000008A; 0x0000000000000088; 0x0000000080008009; 0x000000008000000A;
   0x000000008000808B; 0x800000000000008B; 0x8000000000008089; 0x8000000000008003;
   0x8000000000008002; 0x8000000000000080; 0x000000000000800A; 0x800000008000000A;
   0x8000000080008081; 0x8000000000008080; 0x0000000080000001; 0x8000000080008008]%N.

Definition lane (st : list N) (x y : nat) : N := nth (x mod 5 + 5 * y) st 0%N.

(** One round of Keccak-f[1600] on 25 lanes, lane (x, y) at index x + 5y. *)
Definition keccakRound (st : list N) (rc : N) : list N :=
  let c := List.map (fun x =>
             N.lxor (lane st x 0) (N.lxor (lane st x 1) (N.lxor (lane st x 2)
               (N.lxor (lane st x 3) (lane st x 4))))) (seq 0 5) in
  let d := List.map (fun x =>
             N.lxor (nth ((x + 4) mod 5) c 0%N) (rotl64 (nth ((x + 1) mod 5) c 0%N) 1))
             (seq 0 5) in
  let theta := List.map (fun i => N.lxor (nth i st 0%N) (nth (i mod 5) d 0%N)) (seq 0 25) in
  let rhopi := List.map (fun i =>
             let x := ((i mod 5) + 3 * (i / 5)) mod 5 in
             let y := i mod 5 in
             rotl64 (lane theta x y) (nth (x + 5 * y) rotationOffsets 0%N))%nat
             (seq 0 25) in
  let chi := List.map (fun i =>
             let x := i mod 5 in
             let y := i / 5 in
             N.lxor (lane rhopi x y)
               (N.land (N.lxor (lane rhopi (x + 1) y) mask64) (lane rhopi (x + 2) y)))%nat
             (seq 0 25) in
  match chi with
  | a0 :: rest => N.lxor a0 rc :: rest
  | [] => []
  end.

Definition keccakF (st : list N) : list N := fold_left keccakRound roundConstants st.

(** Little-endian bytes of a lane and back. *)
Definition laneOfBytes (bytes : list N) : N :=
  fold_right (fun b acc => (b + 256 * acc)%N) 0%N bytes.

Definition bytesOfLane (x : N) : list N :=
  List.map (fun k => N.land (N.shiftr x (8 * N.of_nat k)) 0xFF) (seq 0 8).

Fixpoint chunks (fuel k : nat) (l : list N) : list (list N) :=
  match fuel with
  | O => []
  | S fuel' =>
      match l with
      | [] => []
      | _ => firstn k l :: chunks fuel' k (skipn k l)
      end
  end.

Definition rate : nat := 136.

(** Keccak padding (0x01 ... 0x80) to a multiple of the rate. *)
Definition pad (msg : list N) : list N :=
  let q := (rate - List.length msg mod rate)%nat in
  if (q =? 1)%nat then msg ++ [0x81%N]
  else msg ++ [0x01%N] ++ repeat 0%N (q - 2) ++ [0x80%N].

Definition absorb (st block : list N) : list N :=
  let lanes := List.map laneOfBytes (chunks 17 8 block) in
  keccakF (List.map (fun i => N.lxor (nth i st 0%N) (nth i lanes 0%N)) (seq 0 25)).

Definition keccak256 (msg : list N) : list N :=
  let padded := pad msg in
  let st := fold_left absorb (chunks (List.length padded) rate padded) (repeat 0%N 25) in
  firstn 32 (flat_map bytesOfLane st).

(** ** Addresses *)

Definition bytesToHex (bytes : list N) : string :=
  "0x" ++ fold_right
    (fun b acc => String (hexDigit false (b / 16)) (String (hexDigit false (b mod 16)) acc))
    EmptyString bytes.

Definition stringToBytes (s : string) : list N :=
  List.map code (list_ascii_of_string s).

(** Upper-case the k-th character when the k-th nibble of the hash is 8 or more. *)
Fixpoint applyChecksum (address : string) (hash : list N) (k : nat) : string :=
  match address with
  | EmptyString => EmptyString
  | String c rest =>
      let byte := nth (k / 2) hash 0%N in
      let nibble := if Nat.even k then (byte / 16)%N else (byte mod 16)%N in
      String (if (8 <=? nibble)%N then upperChar c else c) (applyChecksum rest hash (S k))
  end.

Definition checksumAddress (address_ : string) : string :=
  let hexAddress := toLowerCase (slice address_ 2 None) in
  let hash := keccak256 (stringToBytes hexAddress) in
  "0x" ++ applyChecksum hexAddress hash 0.

(** ** The decoder *)

Definition decodeUint256 (data : string) : Result N :=
  bind (decodePrelude data) (fun bytes =>
  bind (readWord bytes 0) (fun value => Ok (bytesToBigInt value))).

Definition decodeAddress (data : string) : Result string :=
  bind (decodePrelude data) (fun bytes =>
  bind (readWord bytes 0) (fun value =>
    Ok (checksumAddress (bytesToHex (skipn 12 value))))).

Definition decodeUint256Pair (data : string) : Result (N * N) :=
  bind (decodePrelude data) (fun bytes =>
  bind (readWord bytes 0) (fun first =>
  bind (readWord bytes 32) (fun second =>
    Ok (bytesToBigInt first, bytesToBigInt second)))).

(** viem, with the decoding of a [string] left open. *)
Definition decoder (decodeString : string -> Result string) : Decode.AbiDecoder :=
  Decode.mkDecoder decodeUint256 decodeAddress decodeUint256Pair decodeString.

End Viem.

(* ===================================================================== *)
(** * [modules/evm-opcodes.ts]: [detectProxyImplementation] *)
(* ===================================================================== *)

Module Proxy.
Import JS.

(** The requests a resolution sends to the chain, in the order sent. *)
Inductive Request : Type :=
| GetStorageAt (address slot : string)
| GetCode (address : string)
| Call (to data : string).

(** viem's [PublicClient] over one state of the chain: what each request
    answers ([None] is [undefined]) or the error it rejects with. *)
Record PublicClient : Type := mkClient {
  getStorageAt : string -> string -> Result (option string);
  getCode : string -> Result (option string);
  call : string -> string -> Result (option string)
}.

Definition Async (A : Type) : Type := JS.Async Request A.

Definition IMPLEMENTATION_SLOT : string :=
  "0x360894a13ba1a3210667c828492db98dca3e2076cc3735a920a3ca505d382bbc".
Definition BEACON_SLOT : string :=
  "0xa3f0ad74e5423aebfd80d3ef4346578335a9a72aeaee59ff6cb3582b35133d50".
Definition BEACON_IMPLEMENTATION_SELECTOR : string := "0x5c60da1b".
Definition zeroAddress : string := "0x0000000000000000000000000000000000000000".

(** viem's [isAddress(a, {strict: false})]: /^0x[a-fA-F0-9]{40}$/ *)
Definition isAddress (a : string) : bool :=
  startsWith a "0x" && (len a =? 42) && Viem.allHex (slice a 2 None).

(** viem's [getAddress]: the checksummed address, or InvalidAddressError. *)
Definition getAddress (a : string) : Result string :=
  if isAddress a then Ok (Viem.checksumAddress a) else Throw (mkError None).

(** A value is truthy and is not "0x". *)
Definition nonEmptyHex (value : option string) : bool :=
  match value with
  | None => false
  | Some v => negb (String.eqb v "") && negb (String.eqb v "0x")
  end.

(** [slotToAddress]: [Ok None] is [null]. *)
Definition slotToAddress (value : option string) : Result (option string) :=
  match value with
  | None => Ok None
  | Some v =>
      if negb (nonEmptyHex value) then Ok None
      else
        let addr := "0x" ++ slice v (-40) None in
        if String.eqb addr "0x0000000000000000000000000000000000000000" then Ok None
        else bind (getAddress addr) (fun a => Ok (Some a))
  end.

Record ProxyInfo : Type := mkInfo {
  isProxy : bool;
  proxy : string;
  implementation : string;
  implementationBytecode : string
}.

Definition emptyResult (address : string) : ProxyInfo :=
  mkInfo false address zeroAddress "0x".

(** The second half of [detectProxyImplementation], from the read of the
    beacon slot on. *)
Definition resolveViaBeacon (client : PublicClient) (address : string) : Async ProxyInfo :=
  beaconSlot <- await (GetStorageAt address BEACON_SLOT)
                      (getStorageAt client address BEACON_SLOT) ;;
  beaconAddress <- lift (slotToAddress beaconSlot) ;;
  match beaconAddress with
  | None => ret (emptyResult address)
  | Some beaconAddress =>
      beaconCallData <- await (Call beaconAddress BEACON_IMPLEMENTATION_SELECTOR)
                              (call client beaconAddress BEACON_IMPLEMENTATION_SELECTOR) ;;
      if negb (nonEmptyHex beaconCallData) then ret (emptyResult address)
      else
        beaconImplementation <- lift (slotToAddress beaconCallData) ;;
        match beaconImplementation with
        | None => ret (emptyResult address)
        | Some beaconImplementation =>
            beaconImplCode <- await (GetCode beaconImplementation)
                                    (getCode client beaconImplementation) ;;
            match beaconImplCode with
            | Some code =>
                if nonEmptyHex beaconImplCode
                then ret (mkInfo true address beaconImplementation code)
                else ret (emptyResult address)
            | None => ret (emptyResult address)
            end
        end
  end.

Definition detectProxyImplementation (client : PublicClient) (address : string)
  : Async ProxyInfo :=
  implementationSlot <- await (GetStorageAt address IMPLEMENTATION_SLOT)
                              (getStorageAt client address IMPLEMENTATION_SLOT) ;;
  implementation <- lift (slotToAddress implementationSlot) ;;
  match implementation with
  | Some implementation =>
      code <- await (GetCode implementation) (getCode client implementation) ;;
      match code with
      | Some bytecode =>
          if nonEmptyHex code
          then ret (mkInfo true address implementation bytecode)
          else resolveViaBeacon client address
      | None => resolveViaBeacon client address
      end
  | None => resolveViaBeacon client address
  end.

End Proxy.

(* ===================================================================== *)
(** * [helpers/signature-resolver.ts] and the resolution loop of
      [processUserContract] *)
(* ===================================================================== *)

Module Resolver.
Import JS.

Inductive Service : Type := OpenChain | FourByte.

(** The call log of the lookup services: one entry per [fetch]. *)
Definition LookupLog : Type := list (Service * string).

(** What the [fetch] and the JSON of a lookup give for a selector:
    [Throw] for a network or parse error, [Ok None] when the field looked
    at is missing or falsy, [Ok (Some names)] for the array found there,
    each entry by its name (OpenChain) or text signature (4byte). *)
Record Services : Type := mkServices {
  openchainApi : string -> Result (option (list string));
  fourByteApi : string -> Result (option (list string))
}.

Definition Lookup (A : Type) : Type := JS.Async (Service * string) A.

Section WithServices.
Variable services : Services.

(** [openchain(selector)]: the first entry's name, or the selector
    itself; an empty array makes [[0].name] throw, which is caught. *)
Definition openchain (selector : string) : Lookup string :=
  tryA (data <- await (OpenChain, selector) (openchainApi services selector) ;;
        match data with
        | Some (first :: _) => ret first
        | Some [] => lift (Throw (mkError None))
        | None => ret selector
        end)
       (fun _ => ret selector).

(** [fourByte(selector)]: the first result's text signature, or the
    selector itself. *)
Definition fourByte (selector : string) : Lookup string :=
  tryA (data <- await (FourByte, selector) (fourByteApi services selector) ;;
        match data with
        | Some (first :: _) => ret first
        | Some [] => ret selector
        | None => ret selector
        end)
       (fun _ => ret selector).

(** One round of the loop over [selectorsWith0x]: the value stored in
    [resolvedSelectors[selector]] ([None] is [undefined]). *)
Definition resolveSelector (selector : string) : Lookup (option string) :=
  openchainResult <- openchain selector ;;
  resolvedName <-
    (if negb (String.eqb openchainResult selector)
     then ret (Some openchainResult)
     else
       fourByteResult <- fourByte selector ;;
       if negb (String.eqb fourByteResult selector)
       then ret (Some fourByteResult)
       else ret None) ;;
  ret (match resolvedName with
       | Some n => if negb (String.eqb n selector) then Some n else None
       | None => None
       end).

(** [obj[key] = v] on an object with string keys that are not array
    indices: an existing key keeps its place, a new one goes last. *)
Fixpoint setProperty {V} (obj : list (string * V)) (key : string) (v : V)
  : list (string * V) :=
  match obj with
  | [] => [(key, v)]
  | (k, w) :: rest =>
      if String.eqb k key then (k, v) :: rest
      else (k, w) :: setProperty rest key v
  end.

(** The loop: [resolvedSelectors] after it. *)
Fixpoint resolveSelectors (selectors : list string)
         (resolvedSelectors : list (string * option string))
  : Lookup (list (string * option string)) :=
  match selectors with
  | [] => ret resolvedSelectors
  | selector :: rest =>
      resolved <- resolveSelector selector ;;
      resolveSelectors rest (setProperty resolvedSelectors selector resolved)
  end.
End WithServices.

End Resolver.

(* ===================================================================== *)
(** * [groupcall/groupcall-viem.ts]: [groupcall] *)
(* ===================================================================== *)

Module Groupcall.
Import JS.

(** [interface MulticallCall] *)
Record MulticallCall : Type := mkCall { target : string; callData : string }.

Record CallResult : Type := mkResult {
  success : bool;
  returnData : string;
  revertReason : string
}.

(** How [client.call] settles for the call issued at position [i]: the
    [data] of the result ([None] is [undefined]), or the error. *)
Definition Transport : Type := nat -> string -> MulticallCall -> Result (option string).

(** The [async (call) => { try ... catch ... }] of [groupcall], once
    [client.call] has settled with [answer]. *)
Definition callOne (answer : Result (option string)) : Result CallResult :=
  try_catch
    (bind answer (fun data =>
       Ok (mkResult true (match data with Some d => d | None => "0x" end) "")))
    (fun error =>
       let revertReason :=
         match details error with
         | Some d => Revert.normalizeRevertReason d
         | None => "execution reverted"
         end in
       Ok (mkResult false "0x" revertReason)).

(** [Promise.all]. The promises settle one at a time in the order
    [schedule] lists their indices; a fulfilment stores its value at the
    promise's own index, a rejection rejects the whole. *)
Inductive PromiseState (A : Type) : Type :=
| Pending
| Fulfilled (a : A)
| Rejected (e : JsError).
Arguments Pending {A}.
Arguments Fulfilled {A} a.
Arguments Rejected {A} e.

Fixpoint setIndex {A} (l : list A) (k : nat) (a : A) : list A :=
  match l, k with
  | [], _ => []
  | _ :: t, O => a :: t
  | h :: t, S k' => h :: setIndex t k' a
  end.

Fixpoint settleAll {A} (promises : list (Result A)) (schedule : list nat)
         (values : list (option A)) : Result (list (option A)) :=
  match schedule with
  | [] => Ok values
  | k :: rest =>
      match nth_error promises k with
      | Some (Ok v) => settleAll promises rest (setIndex values k (Some v))
      | Some (Throw e) => Throw e
      | None => settleAll promises rest values
      end
  end.

Fixpoint allFilled {A} (values : list (option A)) : option (list A) :=
  match values with
  | [] => Some []
  | Some v :: t => match allFilled t with Some vs => Some (v :: vs) | None => None end
  | None :: _ => None
  end.

Definition promiseAll {A} (promises : list (Result A)) (schedule : list nat)
  : PromiseState (list A) :=
  match settleAll promises schedule (repeat None (List.length promises)) with
  | Throw e => Rejected e
  | Ok values =>
      match allFilled values with
      | Some vs => Fulfilled vs
      | None => Pending
      end
  end.

(** [calldata.map(async (call) => ...)]: the calls are issued in input
    order, position [i] first to last. *)
Fixpoint issue (client : Transport) (account : string) (i : nat)
         (calldata : list MulticallCall) : list (Result CallResult) :=
  match calldata with
  | [] => []
  | call :: rest => callOne (client i account call) :: issue client account (S i) rest
  end.

(** [groupcall(client, account, calldata)], with the order [schedule] in
    which the calls issued complete. *)
Definition groupcall (client : Transport) (account : string)
           (calldata : list MulticallCall) (schedule : list nat)
  : PromiseState (list CallResult) :=
  promiseAll (issue client account 0 calldata) schedule.

End Groupcall.

(* ===================================================================== *)
(** * Objects used as maps *)
(* ===================================================================== *)

Module JSObject.

(** [obj[key]]; [None] is [undefined]. *)
Fixpoint getProperty {V} (obj : list (string * V)) (key : string) : option V :=
  match obj with
  | [] => None
  | (k, v) :: rest => if String.eqb k key then Some v else getProperty rest key
  end.

(** [Object.keys(obj)] *)
Definition keys {V} (obj : list (string * V)) : list string := List.map fst obj.

End JSObject.

(* ===================================================================== *)
(** * [helpers/address-validator.ts] *)
(* ===================================================================== *)

Module AddressValidator.
Import JS.

(** [validateEVMAddress]: [None] is [null]. The whole body is inside
    [try { ... } catch { return null }]. *)
Definition validateEVMAddress (text : string) : option string :=
  match
    try_catch
      (if negb (Proxy.isAddress text) then Ok None
       else bind (Proxy.getAddress text) (fun a => Ok (Some a)))
      (fun _ => Ok None)
  with
  | Ok r => r
  | Throw _ => None
  end.

End AddressValidator.

(* ===================================================================== *)
(** * [helpers/network-checker.ts] *)
(* ===================================================================== *)

Module NetworkChecker.
Import JS.

Record ContractInfo : Type := mkContractInfo {
  isContract : bool;
  isProxy : bool;
  implementation : string;
  implementationBytecode : string
}.

Definition zeroAddress : string := "0x0000000000000000000000000000000000000000".

(** [checkContractInNetwork], over the client that [createPublicClient]
    builds for the RPC endpoint. *)
Definition checkContractInNetwork (client : Proxy.PublicClient) (address : string)
  : Proxy.Async ContractInfo :=
  bytecode <- await (Proxy.GetCode address) (Proxy.getCode client address) ;;
  if negb (Proxy.nonEmptyHex bytecode)
  then ret (mkContractInfo false false zeroAddress "0x")
  else
    proxyInfo <- Proxy.detectProxyImplementation client address ;;
    ret (mkContractInfo true
           (Proxy.isProxy proxyInfo)
           (if Proxy.isProxy proxyInfo then Proxy.implementation proxyInfo
            else zeroAddress)
           (if Proxy.isProxy proxyInfo then Proxy.implementationBytecode proxyInfo
            else "0x")).

End NetworkChecker.

(* ===================================================================== *)
(** * [groupcall/groupcall-viem.ts]: the classification and the calls of
      [processUserContract] *)
(* ===================================================================== *)

Module Analyzer.
Import JS JSObject.

(** A property that is missing, [null], or a string. *)
Inductive Field : Type :=
| Absent
| Null
| Value (s : string).

(** The entries of [callableFunctions] and [nonCallableFunctions]. *)
Record FunctionInfo : Type := mkFunctionInfo {
  signature : option string;
  functionName : option string;
  response : Field;
  decoded : Field;
  revert : Field
}.

Definition Functions : Type := list (string * FunctionInfo).

(** [{ signature,
       functionName: signature ? extractFunctionName(signature) : undefined }] *)
Definition describe (signature : option string) : FunctionInfo :=
  mkFunctionInfo signature
    (match signature with
     | Some s =>
         if ContractUtils.falsy signature then None
         else Some (ContractUtils.extractFunctionName s)
     | None => None
     end)
    Absent Absent Absent.

(** The [forEach] over [Object.entries(resolvedSelectors)]: the two
    objects after it. *)
Fixpoint classify (entries : list (string * option string))
         (callableFunctions nonCallableFunctions : Functions) : Functions * Functions :=
  match entries with
  | [] => (callableFunctions, nonCallableFunctions)
  | (selector, signature) :: rest =>
      if ContractUtils.isCallableSignature signature
      then classify rest
             (Resolver.setProperty callableFunctions selector (describe signature))
             nonCallableFunctions
      else classify rest callableFunctions
             (Resolver.setProperty nonCallableFunctions selector (describe signature))
  end.

(** [Object.keys(callableFunctions).map(selector => ({ target: address,
    callData: selector }))] *)
Definition calls (address : string) (callableFunctions : Functions)
  : list Groupcall.MulticallCall :=
  List.map (fun selector => Groupcall.mkCall address selector) (keys callableFunctions).

Definition senderAddress : string := "0xa180Fe01B906A1bE37BE6c534a3300785b20d947".

(** [results.forEach((result, index) => ...)] from position [index] on:
    [callableFunctions] after it. An index past the keys reads the
    selector [undefined], whose entry is the property "undefined"; an
    error thrown by the callback leaves the [forEach] for the [catch]
    around it, which only logs. *)
Fixpoint processResults (abi : Decode.AbiDecoder) (results : list Groupcall.CallResult)
         (index : nat) (callableFunctions : Functions) : Functions :=
  match results with
  | [] => callableFunctions
  | result :: rest =>
      let selector :=
        match nth_error (keys callableFunctions) index with
        | Some k => k
        | None => "undefined"
        end in
      let functionInfo :=
        match getProperty callableFunctions selector with
        | Some info => info
        | None => mkFunctionInfo None None Absent Absent Absent
        end in
      if Groupcall.success result then
        match Decode.decodeResp abi (Groupcall.returnData result) with
        | Ok decoded =>
            processResults abi rest (S index)
              (Resolver.setProperty callableFunctions selector
                 (mkFunctionInfo (signature functionInfo) (functionName functionInfo)
                    (Value (Groupcall.returnData result)) (Value decoded) Null))
        | Throw _ => callableFunctions
        end
      else
        processResults abi rest (S index)
          (Resolver.setProperty callableFunctions selector
             (mkFunctionInfo (signature functionInfo) (functionName functionInfo)
                Null Null (Value (Groupcall.revertReason result))))
  end.

(** The calls of the callable functions and the processing of their
    results: [callableFunctions] afterwards, or [None] while the
    [await] of [groupcall] has not resumed. *)
Definition executeCalls (abi : Decode.AbiDecoder) (client : Groupcall.Transport)
           (address : string) (callableFunctions : Functions) (schedule : list nat)
  : option Functions :=
  let calls := calls address callableFunctions in
  if (0 <? List.length calls)%nat then
    match Groupcall.groupcall client senderAddress calls schedule with
    | Groupcall.Pending => None
    | Groupcall.Fulfilled results => Some (processResults abi results 0 callableFunctions)
    | Groupcall.Rejected _ => Some callableFunctions
    end
  else Some callableFunctions.

End Analyzer.

(* ===================================================================== *)
(** * The vocabulary of the properties: predicates, the functions the
      results are stated with, and the inputs of the examples *)
(* ===================================================================== *)

Module JSProps.

(** The text contains "0x" somewhere. *)
Fixpoint containsHex (s : string) : bool :=
  String.prefix "0x" s
  || match s with
     | EmptyString => false
     | String _ s' => containsHex s'
     end.

(** [t] is a run of consecutive characters of [s]. *)
Definition piece (t s : string) : Prop := exists a b, s = a ++ t ++ b.

End JSProps.

Module EVMProps.
Import EVM.
Local Open Scope list_scope.

(** The operand length of a push opcode, as the opcode value gives it:
    0x60 + (n - 1) is "PUSHn". Used to state properties; the scanner
    itself goes through the mnemonic ([decodeAt]). *)
Definition pushSizeOf (op : N) : option Z :=
  if ((0x60 <=? op) && (op <=? 0x7F))%N then Some (Z.of_N op - 0x5F) else None.

(** What the scanner derives from the mnemonic. *)
Definition pushInfo (op : N) : option Z :=
  let opname := getOpcodeInfo op in
  if JS.startsWith opname "PUSH" then JS.parseInt (JS.replace opname "PUSH" "")
  else None.

(** The sequence of entries a scan from [pc0] pushes, as a relation: one
    [decodeAt] per round until [pc] leaves the buffer. *)
Inductive Scan (code : Buffer) : Z -> list EvmOpcode -> Prop :=
| Scan_end pc0 :
    Buffer_length code <= pc0 -> Scan code pc0 []
| Scan_step pc0 b op pc1 l :
    0 <= pc0 < Buffer_length code ->
    Buffer_get code pc0 = Some b ->
    decodeAt code pc0 b = (op, pc1) ->
    Scan code (pc1 + 1) l ->
    Scan code pc0 (op :: l).

(** The property the specification states for a truncated push: no entry
    follows one. *)
Definition ScanEndsAtTruncatedPush (code : Buffer) : Prop :=
  forall ops this' (i : nat) (op : EvmOpcode) (n : Z),
    getOpcodes (new code) = Some (JS.Ok ops, this') ->
    nth_error ops i = Some op ->
    pushSizeOf (opcode op) = Some n ->
    Buffer_length code <= pc op + n ->
    nth_error ops (S i) = None.


(** The bytes of the buffer an entry stands for: its opcode byte and its
    immediate. *)
Definition span (op : EvmOpcode) : Z :=
  1 + match pushData op with
      | Some d => Z.of_nat (List.length d)
      | None => 0
      end.

Definition totalSpan (ops : list EvmOpcode) : Z :=
  fold_right (fun op acc => span op + acc) 0 ops.

(** The 256 byte values, and the byte a mnemonic names, if any. *)
Definition allBytes : list Byte.byte :=
  flat_map (fun n => match Byte.of_N (N.of_nat n) with
                     | Some b => [b]
                     | None => []
                     end) (seq 0 256).

Definition opcodeOfName (mnemonic : string) : option Byte.byte :=
  find (fun b => String.eqb (getOpcodeInfo (Byte.to_N b)) mnemonic) allBytes.

(** Node's [buf.toString('hex')]. *)
Definition Buffer_to_hex (b : Buffer) : string :=
  fold_right
    (fun x acc =>
       String (JS.hexDigit false (Byte.to_N x / 16))
         (String (JS.hexDigit false (Byte.to_N x mod 16)) acc))
    EmptyString b.


(** An instruction of a bytecode: its opcode byte and the operand bytes
    that follow it. *)
Record Instruction : Type := mkInstruction {
  instrByte : Byte.byte;
  operand : Buffer
}.

(** The operand length the opcode value declares: n for PUSHn, 0 for any
    other byte. *)
Definition operandLength (b : Byte.byte) : nat :=
  match pushSizeOf (Byte.to_N b) with
  | Some n => Z.to_nat n
  | None => 0%nat
  end.

(** The instruction has its whole operand. *)
Definition wellFormed (i : Instruction) : Prop :=
  List.length (operand i) = operandLength (instrByte i).

(** The bytes of a sequence of instructions. *)
Definition assemble (instrs : list Instruction) : Buffer :=
  flat_map (fun i => instrByte i :: operand i) instrs.

(** The entry that stands for an instruction at offset [p], and the
    entries of a sequence of instructions that starts at offset [p]. *)
Definition entryAt (p : Z) (i : Instruction) : EvmOpcode :=
  mkOpcode (getOpcodeInfo (Byte.to_N (instrByte i))) (Byte.to_N (instrByte i)) p
    (match pushSizeOf (Byte.to_N (instrByte i)) with
     | Some _ => Some (operand i)
     | None => None
     end).

Fixpoint entriesOf (p : Z) (instrs : list Instruction) : list EvmOpcode :=
  match instrs with
  | [] => []
  | i :: rest =>
      entryAt p i :: entriesOf (p + 1 + Z.of_nat (List.length (operand i))) rest
  end.

(** An entry moved [k] bytes further into a buffer. *)
Definition shift (k : Z) (op : EvmOpcode) : EvmOpcode :=
  mkOpcode (name op) (opcode op) (pc op + k) (pushData op).

End EVMProps.

Module ContractUtilsProps.
Import ContractUtils.

(** The classification rule as the specification words it: callable
    exactly when the signature is absent or ends with "()". *)
Definition CallableIffAbsentOrNoParams (signature : option string) : Prop :=
  isCallableSignature signature = true <->
  (signature = None \/ exists body, signature = Some (body ++ "()")).

End ContractUtilsProps.

Module DecodeProps.
Import JS Decode.
Local Open Scope list_scope.

(** The test that sends a decoded integer to the address decoder. *)
Definition looksLikeAddress (n : N) : bool :=
  (n =? 57005)%N || ((35 <? len (toString10 n)) && (len (toString10 n) <? 51)).

(** The rule as the specification words it: 57005, or strictly between
    35 and 50 digits. *)
Definition looksLikeAddress_stated (n : N) : bool :=
  (n =? 57005)%N || ((35 <? len (toString10 n)) && (len (toString10 n) <? 50)).

(** The word encoding 57005 = 0xdead, and the word encoding 10^49, an
    integer of 50 decimal digits. *)
Definition word_57005 : string :=
  "0x000000000000000000000000000000000000000000000000000000000000dead".
Definition word_1e49 : string :=
  "0x000000000000000000000006d79f82328ea3da61e066ebb2f88a000000000000".

Definition noStringDecoder : string -> Result string := fun _ => Throw (mkError None).

End DecodeProps.

Module ProxyProps.
Import JS Proxy.
Local Open Scope list_scope.

(** A result that names a validated implementation: the code the client
    reports at that address is the bytecode returned, and is not empty. *)
Definition validated (client : PublicClient) (address : string) (r : ProxyInfo) : Prop :=
  isProxy r = true /\ proxy r = address /\
  getCode client (implementation r) = Ok (Some (implementationBytecode r)) /\
  nonEmptyHex (Some (implementationBytecode r)) = true.



Definition target : string := "0x5c952063c7fc8610FFDB798152D69F0B9550762b".
Definition wordOf (address40 : string) : string :=
  ("0x000000000000000000000000" ++ address40)%string.
Definition zeroWord : string := wordOf "0000000000000000000000000000000000000000".
Definition someWord : string := wordOf "00000000000000000000000000000000000000a1".

(** The implementation slot names an address, no address has code, and
    the beacon slot is zero. *)
Definition chainWithoutCode : PublicClient :=
  mkClient
    (fun _ slot => if String.eqb slot IMPLEMENTATION_SLOT then Ok (Some someWord)
                   else Ok (Some zeroWord))
    (fun _ => Ok (Some "0x"%string))
    (fun _ _ => Ok None).



(** The requests a resolution for [address] may send: reads of its two
    EIP-1967 slots, code lookups at well-formed addresses, and calls of
    [implementation()] at well-formed addresses. *)
Definition allowed (address : string) (r : Request) : Prop :=
  match r with
  | GetStorageAt a slot =>
      a = address /\ (slot = IMPLEMENTATION_SLOT \/ slot = BEACON_SLOT)
  | GetCode a => isAddress a = true
  | Call to data => isAddress to = true /\ data = BEACON_IMPLEMENTATION_SELECTOR
  end.

(** The number of calls among the requests. *)
Definition callCount (reqs : list Request) : nat :=
  List.length (List.filter (fun r => match r with Call _ _ => true | _ => false end) reqs).

(** The implementation slot names an address, and every address has
    code. *)
Definition chainWithProxy : PublicClient :=
  mkClient
    (fun _ slot => if String.eqb slot IMPLEMENTATION_SLOT then Ok (Some someWord)
                   else Ok (Some zeroWord))
    (fun _ => Ok (Some "0x6080"%string))
    (fun _ _ => Ok None).


(** What the client answers to a request. *)
Definition answer (client : PublicClient) (req : Request) : Result (option string) :=
  match req with
  | GetStorageAt a slot => getStorageAt client a slot
  | GetCode a => getCode client a
  | Call to data => call client to data
  end.


End ProxyProps.

Module ResolverProps.
Import JS Resolver.
Local Open Scope list_scope.

(** What each service function returns, as a function of the service's
    answer: the first entry, or the selector itself. *)
Definition openchainName (services : Services) (selector : string) : string :=
  match openchainApi services selector with
  | Ok (Some (first :: _)) => first
  | _ => selector
  end.

Definition fourByteName (services : Services) (selector : string) : string :=
  match fourByteApi services selector with
  | Ok (Some (first :: _)) => first
  | _ => selector
  end.

Definition openchainFinds (services : Services) (selector : string) : bool :=
  negb (String.eqb (openchainName services selector) selector).

(** The signature a selector resolves to: OpenChain's, else 4byte's. *)
Definition resolution (services : Services) (selector : string) : option string :=
  if openchainFinds services selector then Some (openchainName services selector)
  else if negb (String.eqb (fourByteName services selector) selector)
       then Some (fourByteName services selector)
       else None.

(** The lookups one resolution of a selector sends: OpenChain, then
    4byte unless OpenChain found a name. *)
Definition lookups (services : Services) (selector : string) : LookupLog :=
  (OpenChain, selector)
    :: (if openchainFinds services selector then [] else [(FourByte, selector)]).

(** Both services answer "not found" for every selector. *)
Definition nothingFound : Services := mkServices (fun _ => Ok None) (fun _ => Ok None).

(** A selector resolved, then resolved a second time; [first] and
    [second] are what the services answer during the first and during the
    second resolution. *)
Definition resolveTwice (first second : Services) (selector : string)
  : Lookup (option string) :=
  bindA (resolveSelector first selector) (fun _ => resolveSelector second selector).

(** The property the specification states: resolving a selector twice
    leaves the same call log as resolving it once. *)
Definition SecondResolutionIsCached (services : Services) (selector : string) : Prop :=
  snd (resolveTwice services services selector []) =
  snd (resolveSelector services selector []).

(** The entry is a call of OpenChain. *)
Definition isOpenChain (entry : Service * string) : bool :=
  match fst entry with
  | OpenChain => true
  | FourByte => false
  end.


(** The map the loop leaves: each selector in turn set to its resolution. *)
Definition resolveAll (services : Services) (selectors : list string)
           (obj : list (string * option string)) : list (string * option string) :=
  fold_left (fun o selector => setProperty o selector (resolution services selector))
            selectors obj.

End ResolverProps.

Module GroupcallProps.
Import JS Groupcall.
Local Open Scope list_scope.
Local Open Scope nat_scope.

(** What one call's entry is, as a function of how that call settled. *)
Definition outcome (answer : Result (option string)) : CallResult :=
  match answer with
  | Ok data => mkResult true (match data with Some d => d | None => "0x"%string end) ""
  | Throw error =>
      mkResult false "0x"
        (match details error with
         | Some d => Revert.normalizeRevertReason d
         | None => "execution reverted"%string
         end)
  end.

Fixpoint outcomes (client : Transport) (account : string) (i : nat)
         (calldata : list MulticallCall) : list CallResult :=
  match calldata with
  | [] => []
  | call :: rest => outcome (client i account call) :: outcomes client account (S i) rest
  end.

(** The values array once the promises listed in [schedule] have
    fulfilled with the values [vs]. *)
Fixpoint fill {A} (vs : list A) (schedule : list nat) (values : list (option A))
  : list (option A) :=
  match schedule with
  | [] => values
  | k :: rest =>
      match nth_error vs k with
      | Some v => fill vs rest (setIndex values k (Some v))
      | None => fill vs rest values
      end
  end.

(** Every slot of [values] is empty or holds its own promise's value. *)
Definition agrees {A} (vs : list A) (values : list (option A)) : Prop :=
  List.length values = List.length vs /\
  forall i, nth_error values i = Some None \/ nth_error values i = option_map Some (nth_error vs i).

(** Three calls of which the second reverts, completing last, first,
    second. *)
Definition threeCalls : list MulticallCall :=
  [mkCall "0x5c952063c7fc8610FFDB798152D69F0B9550762b" "0x06fdde03";
   mkCall "0x5c952063c7fc8610FFDB798152D69F0B9550762b" "0x95d89b41";
   mkCall "0x5c952063c7fc8610FFDB798152D69F0B9550762b" "0x313ce567"]%string.

Definition secondReverts : Transport :=
  fun i _ _ =>
    match i with
    | 1 => Throw (mkError (Some "execution reverted: Ownable: caller is not the owner"%string))
    | _ => Ok (Some "0x000000000000000000000000000000000000000000000000000000000000002a"%string)
    end.

End GroupcallProps.

Module AnalyzerProps.
Import JS Analyzer.
Local Open Scope list_scope.


(** [info'] is [info] with the outcome [r] of its call recorded. *)
Definition updated (abi : Decode.AbiDecoder) (info info' : FunctionInfo)
           (r : Groupcall.CallResult) : Prop :=
  signature info' = signature info /\
  functionName info' = functionName info /\
  if Groupcall.success r
  then response info' = Value (Groupcall.returnData r) /\
       (exists d, Decode.decodeResp abi (Groupcall.returnData r) = Ok d /\
                  decoded info' = Value d) /\
       revert info' = Null
  else response info' = Null /\ decoded info' = Null /\
       revert info' = Value (Groupcall.revertReason r).

(** Three resolved selectors: a getter, an unknown one, and a function
    with parameters. *)
Definition threeSelectors : list (string * option string) :=
  [("0x06fdde03", Some "name()");
   ("0x95d89b41", None);
   ("0xa9059cbb", Some "transfer(address,uint256)")]%string.

End AnalyzerProps.

(* ===================================================================== *)
(** * Facts about the JavaScript primitives *)
(* ===================================================================== *)

Module JSFacts.
Import JS.
Import JSProps.

Lemma length_append (a b : string) :
  String.length (a ++ b) = (String.length a + String.length b)%nat.
Proof. induction a as [|c a IH]; cbn; [reflexivity | now rewrite IH]. Qed.

Lemma len_append (a b : string) : len (a ++ b) = len a + len b.
Proof. unfold len. rewrite length_append. lia. Qed.

Lemma len_nonneg (s : string) : 0 <= len s.
Proof. unfold len. lia. Qed.

Lemma append_nil_r (s : string) : s ++ "" = s.
Proof. induction s as [|c s IH]; cbn; [reflexivity | now rewrite IH]. Qed.

Lemma append_assoc (a b c : string) : (a ++ b) ++ c = a ++ (b ++ c).
Proof. induction a as [|x a IH]; cbn; [reflexivity | now rewrite IH]. Qed.

Lemma substring_0_append (a b : string) :
  String.substring 0 (String.length a) (a ++ b) = a.
Proof. induction a as [|c a IH]; cbn; [now destruct b | now rewrite IH]. Qed.

Lemma substring_0_all (s : string) : String.substring 0 (String.length s) s = s.
Proof. induction s as [|c s IH]; cbn; [reflexivity | now rewrite IH]. Qed.

Lemma substring_skip_append (a b : string) (n : nat) :
  String.substring (String.length a) n (a ++ b) = String.substring 0 n b.
Proof. induction a as [|c a IH]; cbn; [reflexivity | exact IH]. Qed.

(** A string is its first [k] characters followed by the rest. *)
Lemma substring_split (s : string) : forall k : nat,
  (k <= String.length s)%nat ->
  String.substring 0 k s ++ String.substring k (String.length s - k) s = s.
Proof.
  induction s as [|c s IH]; intros k Hk.
  - cbn in Hk. assert (k = 0%nat) as -> by lia. reflexivity.
  - destruct k as [|k].
    + cbn. now rewrite substring_0_all.
    + cbn in *. rewrite IH by lia. reflexivity.
Qed.

Lemma clamp_id (n i : Z) : 0 <= i <= n -> clamp n i = i.
Proof. intros H. unfold clamp. destruct (Z.ltb_spec i 0); lia. Qed.

(** [s.slice(k)] and [s.slice(0, k)] inside the string. *)
Lemma slice_from (s : string) (k : Z) :
  0 <= k <= len s ->
  slice s k None = String.substring (Z.to_nat k) (String.length s - Z.to_nat k) s.
Proof.
  intros H. unfold slice. rewrite clamp_id by exact H.
  f_equal. unfold len in *. lia.
Qed.

Lemma slice_upto (s : string) (k : Z) :
  0 <= k <= len s ->
  slice s 0 (Some k) = String.substring 0 (Z.to_nat k) s.
Proof.
  intros H. unfold slice. pose proof (len_nonneg s).
  rewrite !clamp_id by lia. f_equal. lia.
Qed.

Lemma slice_append_l (a b : string) : slice (a ++ b) 0 (Some (len a)) = a.
Proof.
  rewrite slice_upto.
  - unfold len. rewrite Nat2Z.id. apply substring_0_append.
  - rewrite len_append. pose proof (len_nonneg a). pose proof (len_nonneg b). lia.
Qed.

Lemma slice_append_r (a b : string) : slice (a ++ b) (len a) None = b.
Proof.
  rewrite slice_from.
  - unfold len. rewrite Nat2Z.id, length_append, substring_skip_append.
    replace (String.length a + String.length b - String.length a)%nat
      with (String.length b) by lia.
    apply substring_0_all.
  - rewrite len_append. pose proof (len_nonneg a). pose proof (len_nonneg b). lia.
Qed.

(** [endsWith]: the string is some text followed by the suffix. *)
Lemma endsWith_spec (s p : string) :
  endsWith s p = true <-> exists body, s = body ++ p.
Proof.
  unfold endsWith. rewrite andb_true_iff, Z.leb_le, String.eqb_eq. split.
  - intros [Hle Heq]. pose proof (len_nonneg p).
    exists (String.substring 0 (Z.to_nat (len s - len p)) s).
    rewrite slice_from in Heq by lia.
    rewrite <- Heq at 2. symmetry. apply substring_split.
    unfold len in *. lia.
  - intros [body ->]. rewrite len_append. pose proof (len_nonneg body).
    split; [lia|].
    replace (len body + len p - len p) with (len body) by lia.
    apply slice_append_r.
Qed.

Lemma prefix_append (p s : string) : String.prefix p (p ++ s) = true.
Proof.
  induction p as [|c p IH]; cbn; [now destruct s|].
  destruct (ascii_dec c c); [exact IH | congruence].
Qed.

Lemma indexOf_from_range (p s : string) : forall i,
  indexOf_from p s i = -1 \/ i <= indexOf_from p s i <= i + len s.
Proof.
  induction s as [|c s IH]; intros i; cbn [indexOf_from].
  - destruct (String.prefix p ""); [right; cbn; lia | left; reflexivity].
  - destruct (String.prefix p (String c s)).
    + right. unfold len. cbn [String.length]. lia.
    + destruct (IH (i + 1)) as [H|H]; [left; exact H | right].
      unfold len in *. cbn [String.length]. lia.
Qed.

Lemma indexOf_from_shift (p s : string) : forall i j,
  0 <= i -> 0 <= j ->
  indexOf_from p s i = -1 <-> indexOf_from p s j = -1.
Proof.
  induction s as [|c s IH]; intros i j Hi Hj; cbn [indexOf_from].
  - destruct (String.prefix p ""); [lia | tauto].
  - destruct (String.prefix p (String c s)); [lia|].
    apply IH; lia.
Qed.

(** One-character patterns: [includes] is membership. *)
Lemma indexOf_from_char_absent (c : ascii) (s : string) : forall i,
  ~ In c (list_ascii_of_string s) -> indexOf_from (String c "") s i = -1.
Proof.
  induction s as [|d s IH]; intros i Hn; cbn.
  - reflexivity.
  - cbn in Hn. destruct (ascii_dec c d) as [->|Hcd]; [tauto|].
    apply IH. tauto.
Qed.

Lemma includes_char_absent (c : ascii) (s : string) :
  ~ In c (list_ascii_of_string s) -> includes s (String c "") = false.
Proof.
  intros H. unfold includes, indexOf. now rewrite indexOf_from_char_absent.
Qed.

Lemma includes_char_present (c : ascii) (a b : string) :
  includes (a ++ String c b) (String c "") = true.
Proof.
  unfold includes, indexOf. apply negb_true_iff, Z.eqb_neq.
  assert (forall i, 0 <= i -> indexOf_from (String c "") (a ++ String c b) i <> -1) as H.
  { induction a as [|d a IH]; intros i Hi; cbn.
    - destruct (ascii_dec c c); [|congruence]. destruct b; cbn; lia.
    - destruct (ascii_dec c d).
      + destruct (a ++ String c b); cbn; lia.
      + apply IH. lia. }
  apply H. lia.
Qed.

Lemma split_absent (c : ascii) (s : string) :
  ~ In c (list_ascii_of_string s) -> split c s = [s].
Proof.
  induction s as [|d s IH]; intros Hn; cbn.
  - reflexivity.
  - cbn in Hn. destruct (Ascii.eqb_spec d c) as [->|_]; [tauto|].
    rewrite IH by tauto. reflexivity.
Qed.

Lemma split_first (c : ascii) (a b : string) :
  ~ In c (list_ascii_of_string a) -> split c (a ++ String c b) = a :: split c b.
Proof.
  induction a as [|d a IH]; intros Hn; cbn.
  - now rewrite Ascii.eqb_refl.
  - cbn in Hn. destruct (Ascii.eqb_spec d c) as [->|_]; [tauto|].
    rewrite IH by tauto. reflexivity.
Qed.

(** The pattern "0x": the first occurrence in [a ++ "0x" ++ b] is at the
    end of [a] when [a] has none. *)
Lemma prefix_cons (a b : ascii) (p s : string) :
  String.prefix (String a p) (String b s) = Ascii.eqb a b && String.prefix p s.
Proof.
  change (String.prefix (String a p) (String b s))
    with (if ascii_dec a b then String.prefix p s else false).
  destruct (ascii_dec a b) as [->|Hn].
  - now rewrite Ascii.eqb_refl.
  - apply Ascii.eqb_neq in Hn. now rewrite Hn.
Qed.

Lemma prefix_nil (s : string) : String.prefix "" s = true.
Proof. now destruct s. Qed.

Lemma prefix_0x_append (a r : string) :
  String.prefix "0x" a = false -> String.prefix "0x" (a ++ "0x" ++ r) = String.eqb a "".
Proof.
  destruct a as [|c a]; [intros _; apply (prefix_append "0x" r)|].
  change (String c a ++ "0x" ++ r) with (String c (a ++ "0x" ++ r)).
  rewrite !prefix_cons. cbn [String.eqb].
  destruct (Ascii.eqb "0" c); [|reflexivity]. rewrite !andb_true_l.
  destruct a as [|d a].
  - intros _. reflexivity.
  - change (String d a ++ "0x" ++ r) with (String d (a ++ "0x" ++ r)).
    rewrite !prefix_cons, !prefix_nil. tauto.
Qed.

Lemma indexOf_from_0x_append (a r : string) : forall i,
  0 <= i ->
  indexOf_from "0x" a i = -1 ->
  indexOf_from "0x" (a ++ "0x" ++ r) i = i + len a.
Proof.
  induction a as [|c a IH]; intros i Hi Hnone.
  - change ("" ++ "0x" ++ r) with (String "0" (String "x" r)).
    cbn [indexOf_from].
    change (String "0" (String "x" r)) with ("0x" ++ r).
    rewrite prefix_append. change (len "") with 0. lia.
  - cbn [indexOf_from] in Hnone.
    destruct (String.prefix "0x" (String c a)) eqn:Ep; [lia|].
    change (String c a ++ "0x" ++ r) with (String c (a ++ "0x" ++ r)).
    cbn [indexOf_from].
    change (String c (a ++ "0x" ++ r)) with (String c a ++ "0x" ++ r).
    rewrite (prefix_0x_append _ r Ep). cbn [String.eqb].
    rewrite IH by (lia || assumption).
    unfold len. cbn [String.length]. lia.
Qed.

Lemma indexOf_0x_append (a r : string) :
  indexOf a "0x" = -1 -> indexOf (a ++ "0x" ++ r) "0x" = len a.
Proof.
  intros H. unfold indexOf in *. rewrite indexOf_from_0x_append; [lia|lia|exact H].
Qed.

(** A string with no "0" in it is skipped by the search for "0x". *)
Lemma indexOf_from_0x_skip (a s : string) : forall i,
  ~ In "0"%char (list_ascii_of_string a) ->
  indexOf_from "0x" (a ++ s) i = indexOf_from "0x" s (i + len a).
Proof.
  induction a as [|c a IH]; intros i Hn.
  - change (len "") with 0. now rewrite Z.add_0_r.
  - change (String c a ++ s) with (String c (a ++ s)). cbn [indexOf_from].
    rewrite prefix_cons. cbn in Hn.
    destruct (Ascii.eqb_spec "0" c) as [E|_]; [exfalso; apply Hn; left; now rewrite E|].
    cbn [andb]. rewrite IH by tauto. f_equal. unfold len. cbn [String.length]. lia.
Qed.

Lemma map_append (f : ascii -> ascii) (a b : string) :
  map f (a ++ b) = map f a ++ map f b.
Proof. induction a as [|c a IH]; cbn; [reflexivity | now rewrite IH]. Qed.

Lemma dropWhile_head (f : ascii -> bool) (c : ascii) (s : string) :
  f c = false -> dropWhile f (String c s) = String c s.
Proof. intros H. cbn. now rewrite H. Qed.

Lemma dropWhileEnd_last (f : ascii -> bool) (c : ascii) (t : string) :
  f c = false -> dropWhileEnd f (t ++ String c "") = t ++ String c "".
Proof.
  intros H. induction t as [|d t IH]; cbn.
  - now rewrite H.
  - rewrite IH. now destruct t.
Qed.




(** ** More on [split], [includes] and the search for "0x" *)

Lemma in_string_split (c : ascii) (s : string) :
  In c (list_ascii_of_string s) -> exists a b, s = a ++ String c b.
Proof.
  induction s as [|d s IH]; cbn; [contradiction|].
  intros [->|H].
  - exists "", s. reflexivity.
  - destruct (IH H) as (a & b & ->). exists (String d a), b. reflexivity.
Qed.

Lemma includes_char_false (c : ascii) (s : string) :
  includes s (String c "") = false -> ~ In c (list_ascii_of_string s).
Proof.
  intros H Hin. destruct (in_string_split c s Hin) as (a & b & ->).
  rewrite includes_char_present in H. discriminate.
Qed.

(** The first piece of a split has no separator in it and starts the text. *)
Lemma split_head (c : ascii) (s : string) :
  exists h t rest,
    split c s = h :: t /\ ~ In c (list_ascii_of_string h) /\ s = h ++ rest.
Proof.
  induction s as [|d s IH]; cbn [split].
  - exists "", [], "". repeat split; auto.
  - destruct (Ascii.eqb_spec d c) as [->|Hne].
    + exists "", (split c s), (String c s). repeat split; auto.
    + destruct IH as (h & t & rest & -> & Hn & ->).
      exists (String d h), t, rest. split; [reflexivity|]. split; [|reflexivity].
      cbn. intros [E|E]; [congruence | contradiction].
Qed.

Lemma indexOf_from_containsHex (s : string) : forall i,
  0 <= i -> (indexOf_from "0x" s i = -1 <-> containsHex s = false).
Proof.
  induction s as [|c s IH]; intros i Hi.
  - cbn. tauto.
  - cbn [indexOf_from containsHex].
    destruct (String.prefix "0x" (String c s)); cbn [orb].
    + split; [lia | discriminate].
    + apply IH. lia.
Qed.

Lemma prefix_mono (p a b : string) :
  String.prefix p a = true -> String.prefix p (a ++ b) = true.
Proof.
  revert a. induction p as [|x p IH]; intros a H; [apply prefix_nil|].
  destruct a as [|y a]; [discriminate|].
  change (String y a ++ b) with (String y (a ++ b)).
  rewrite prefix_cons in *. apply andb_prop in H as [H1 H2].
  rewrite H1. cbn [andb]. now apply IH.
Qed.

Lemma containsHex_app (a b : string) :
  containsHex (a ++ b) = false -> containsHex a = false /\ containsHex b = false.
Proof.
  induction a as [|c a IH]; intros H.
  - split; [reflexivity | exact H].
  - change (String c a ++ b) with (String c (a ++ b)) in H.
    cbn [containsHex] in *. apply orb_false_iff in H as [Hp Hr].
    destruct (IH Hr) as [Ha Hb]. split; [|exact Hb].
    rewrite Ha, orb_false_r.
    destruct (String.prefix "0x" (String c a)) eqn:E; [|reflexivity].
    apply (prefix_mono _ _ b) in E.
    change (String c a ++ b) with (String c (a ++ b)) in E. congruence.
Qed.

Lemma dropWhile_suffix (f : ascii -> bool) (s : string) :
  exists a, s = a ++ dropWhile f s.
Proof.
  induction s as [|c s IH]; cbn; [now exists ""|].
  destruct (f c).
  - destruct IH as (a & Ha). exists (String c a). cbn. now rewrite <- Ha.
  - now exists "".
Qed.

Lemma dropWhileEnd_prefix (f : ascii -> bool) (s : string) :
  exists b, s = dropWhileEnd f s ++ b.
Proof.
  induction s as [|c s IH]; cbn; [now exists ""|].
  destruct IH as (b & Hb).
  destruct (dropWhileEnd f s) as [|d t] eqn:E.
  - destruct (f c).
    + now exists (String c s).
    + exists s. reflexivity.
  - exists b. rewrite Hb at 1. reflexivity.
Qed.

Lemma slice_suffix (s : string) (k : Z) :
  0 <= k <= len s -> exists a, s = a ++ slice s k None.
Proof.
  intros H. rewrite slice_from by exact H.
  exists (String.substring 0 (Z.to_nat k) s). symmetry. apply substring_split.
  unfold len in H. lia.
Qed.

(** The text before the first "0x" has no "0x" in it. *)
Lemma indexOf_from_0x_split (s : string) : forall i j,
  0 <= i -> indexOf_from "0x" s i = j -> j <> -1 ->
  exists a r, s = a ++ "0x" ++ r /\ len a = j - i /\ containsHex a = false.
Proof.
  induction s as [|c s IH]; intros i j Hi Hj Hne.
  - cbn in Hj. congruence.
  - cbn [indexOf_from] in Hj.
    destruct (String.prefix "0x" (String c s)) eqn:Ep.
    + rewrite prefix_cons in Ep. apply andb_prop in Ep as [Ec Ep].
      apply Ascii.eqb_eq in Ec. subst c.
      destruct s as [|d s]; [discriminate|].
      rewrite prefix_cons in Ep. apply andb_prop in Ep as [Ed _].
      apply Ascii.eqb_eq in Ed. subst d.
      exists "", s. split; [reflexivity|].
      split; [change (len "") with 0; lia | reflexivity].
    + destruct (IH (i + 1) j ltac:(lia) Hj Hne) as (a & r & -> & Hlen & Hno).
      exists (String c a), r. split; [reflexivity|]. split.
      * unfold len in *. cbn [String.length]. lia.
      * cbn [containsHex]. rewrite Hno, orb_false_r.
        destruct (String.prefix "0x" (String c a)) eqn:E; [|reflexivity].
        apply (prefix_mono _ _ ("0x" ++ r)) in E.
        change (String c a ++ "0x" ++ r) with (String c (a ++ "0x" ++ r)) in E. congruence.
Qed.


Lemma clamp_range (n i : Z) : 0 <= n -> 0 <= clamp n i <= n.
Proof. intros H. unfold clamp. destruct (Z.ltb_spec i 0); lia. Qed.

(** [s.slice(k)] is the end of [s], whatever [k]. *)
Lemma slice_is_suffix (s : string) (k : Z) : exists a, s = a ++ slice s k None.
Proof.
  unfold slice. cbv zeta.
  pose proof (clamp_range (len s) k (len_nonneg s)) as H.
  exists (String.substring 0 (Z.to_nat (clamp (len s) k)) s).
  assert (Z.to_nat (len s - clamp (len s) k)
          = (String.length s - Z.to_nat (clamp (len s) k))%nat) as ->.
  { generalize dependent (clamp (len s) k). unfold len. intros; lia. }
  symmetry. apply substring_split.
  generalize dependent (clamp (len s) k). unfold len. intros; lia.
Qed.

Lemma piece_refl (s : string) : piece s s.
Proof. exists "", "". cbn. now rewrite append_nil_r. Qed.

Lemma piece_trans (r t s : string) : piece r t -> piece t s -> piece r s.
Proof.
  intros (a & b & ->) (a' & b' & ->).
  exists (a' ++ a), (b ++ b'). now rewrite !append_assoc.
Qed.

Lemma piece_suffix (a t : string) : piece t (a ++ t).
Proof. exists a, "". now rewrite append_nil_r. Qed.

Lemma piece_prefix (t b : string) : piece t (t ++ b).
Proof. exists "", b. reflexivity. Qed.

Lemma piece_containsHex (t s : string) :
  piece t s -> containsHex s = false -> containsHex t = false.
Proof.
  intros (a & b & ->) H.
  apply containsHex_app in H as [_ H]. now apply containsHex_app in H as [H _].
Qed.

Lemma piece_dropWhile (f : ascii -> bool) (s : string) : piece (dropWhile f s) s.
Proof. destruct (dropWhile_suffix f s) as (a & Ha). rewrite Ha at 2. apply piece_suffix. Qed.

Lemma piece_dropWhileEnd (f : ascii -> bool) (s : string) : piece (dropWhileEnd f s) s.
Proof. destruct (dropWhileEnd_prefix f s) as (b & Hb). rewrite Hb at 2. apply piece_prefix. Qed.

Lemma piece_trim (s : string) : piece (trim s) s.
Proof.
  unfold trim. eapply piece_trans; [apply piece_dropWhileEnd | apply piece_dropWhile].
Qed.

Lemma piece_slice (s : string) (k : Z) : piece (slice s k None) s.
Proof. destruct (slice_is_suffix s k) as (a & Ha). rewrite Ha at 2. apply piece_suffix. Qed.


(** Cutting a text at its first "0x" leaves a beginning of the text that
    has no "0x" in it. *)
Lemma cut_at_hex (text : string) :
  let cut := if negb (indexOf text "0x" =? -1)
             then slice text 0 (Some (indexOf text "0x")) else text in
  piece cut text /\ containsHex cut = false.
Proof.
  cbv zeta. destruct (Z.eqb_spec (indexOf text "0x") (-1)) as [E|E]; cbn [negb].
  - split; [apply piece_refl|]. apply (indexOf_from_containsHex text 0); [lia | exact E].
  - destruct (indexOf_from_0x_split text 0 (indexOf text "0x") ltac:(lia) eq_refl E)
      as (a & r & Hs & Hl & Hc).
    rewrite Z.sub_0_r in Hl. rewrite <- Hl.
    assert (slice text 0 (Some (len a)) = a) as ->
      by (rewrite Hs; apply slice_append_l).
    split; [|exact Hc]. rewrite Hs. apply piece_prefix.
Qed.

Lemma no_zero_digit_in_prefix :
  ~ In "0"%char (list_ascii_of_string "execution reverted: ").
Proof.
  intros H. cbn in H.
  repeat (destruct H as [H|H]; [discriminate H|]). exact H.
Qed.


Lemma prefix_0x_inv (a : string) :
  String.prefix "0x" a = true -> exists d, a = "0x" ++ d.
Proof.
  destruct a as [|c1 [|c2 d]]; try discriminate.
  - rewrite prefix_cons. intros H. apply andb_prop in H as [_ H]. discriminate H.
  - rewrite !prefix_cons. intros H.
    apply andb_prop in H as [H1 H]. apply andb_prop in H as [H2 _].
    apply Ascii.eqb_eq in H1, H2. subst. now exists d.
Qed.

Lemma length_map (f : ascii -> ascii) (s : string) :
  String.length (map f s) = String.length s.
Proof. induction s as [|c s IH]; cbn; [reflexivity | now rewrite IH]. Qed.

Lemma lowerChar_upperChar (c : ascii) : lowerChar (upperChar c) = lowerChar c.
Proof. destruct c as [[] [] [] [] [] [] [] []]; reflexivity. Qed.

Lemma lowerChar_idempotent (c : ascii) : lowerChar (lowerChar c) = lowerChar c.
Proof. destruct c as [[] [] [] [] [] [] [] []]; reflexivity. Qed.

Lemma lowerChar_zero (c : ascii) : lowerChar c = "0"%char -> c = "0"%char.
Proof. destruct c as [[] [] [] [] [] [] [] []]; intros H; (reflexivity || discriminate H). Qed.

Lemma toLowerCase_idempotent (s : string) : toLowerCase (toLowerCase s) = toLowerCase s.
Proof.
  induction s as [|c s IH]; [reflexivity|].
  unfold toLowerCase in *. cbn. now rewrite lowerChar_idempotent, IH.
Qed.

Lemma toLowerCase_upper (s : string) : toLowerCase (toUpperCase s) = toLowerCase s.
Proof.
  induction s as [|c s IH]; [reflexivity|].
  unfold toLowerCase, toUpperCase in *. cbn. now rewrite lowerChar_upperChar, IH.
Qed.

(** Only a run of "0" lower-cases to a run of "0". *)
Lemma toLowerCase_zeros (s : string) : forall z,
  Forall (fun c => c = "0"%char) (list_ascii_of_string z) ->
  toLowerCase s = z -> s = z.
Proof.
  induction s as [|c s IH]; intros z Hz H; [exact H|].
  destruct z as [|d z]; [discriminate H|].
  unfold toLowerCase in *. cbn [map] in H. cbn [list_ascii_of_string] in Hz.
  inversion Hz as [|? ? Hd Hz']; subst.
  injection H as Hc Hs.
  apply lowerChar_zero in Hc. subst c. f_equal. now apply IH.
Qed.

End JSFacts.

(* ===================================================================== *)
(** * Properties of the opcode scanner *)
(* ===================================================================== *)

Module EVMFacts.
Import EVMProps.
Import EVM.
Local Open Scope list_scope.

Lemma Buffer_get_Some (code : Buffer) (i : Z) :
  0 <= i < Buffer_length code ->
  exists b, nth_error code (Z.to_nat i) = Some b /\ Buffer_get code i = Some (Byte.to_N b).
Proof.
  intros [H0 H1]. unfold Buffer_get, Buffer_length in *.
  destruct (Z.ltb_spec i 0) as [|_]; [lia|].
  destruct (nth_error code (Z.to_nat i)) as [b|] eqn:E.
  - exists b. split; reflexivity.
  - apply nth_error_None in E. lia.
Qed.

(** The mnemonic route and the opcode-value route agree on every byte. *)
Lemma pushInfo_byte (b : Byte.byte) : pushInfo (Byte.to_N b) = pushSizeOf (Byte.to_N b).
Proof. destruct b; vm_compute; reflexivity. Qed.

Lemma pushSizeOf_range (op : N) (n : Z) : pushSizeOf op = Some n -> 1 <= n <= 32.
Proof.
  unfold pushSizeOf. intros H.
  destruct ((96 <=? op)%N && (op <=? 127)%N) eqn:E; [|discriminate].
  apply andb_prop in E as [E1 E2].
  apply N.leb_le in E1. apply N.leb_le in E2.
  injection H as <-. lia.
Qed.

(** The loop body, by cases on the operand length. *)
Lemma decodeAt_byte (code : Buffer) (pc0 : Z) (b : Byte.byte) :
  decodeAt code pc0 (Byte.to_N b) =
  match pushSizeOf (Byte.to_N b) with
  | Some n =>
      if pc0 + n <? Buffer_length code then
        (mkOpcode (getOpcodeInfo (Byte.to_N b)) (Byte.to_N b) pc0
           (Some (Buffer_slice code (pc0 + 1) (pc0 + n + 1))), pc0 + n)
      else (mkOpcode (getOpcodeInfo (Byte.to_N b)) (Byte.to_N b) pc0 None, pc0)
  | None => (mkOpcode (getOpcodeInfo (Byte.to_N b)) (Byte.to_N b) pc0 None, pc0)
  end.
Proof.
  rewrite <- pushInfo_byte. unfold decodeAt, pushInfo.
  destruct (JS.startsWith _ _); [|reflexivity].
  destruct (JS.parseInt _); reflexivity.
Qed.

Lemma decodeAt_advances (code : Buffer) (pc0 : Z) (b : Byte.byte) op pc1 :
  decodeAt code pc0 (Byte.to_N b) = (op, pc1) ->
  pc0 <= pc1 /\ pc op = pc0 /\ opcode op = Byte.to_N b.
Proof.
  rewrite decodeAt_byte.
  destruct (pushSizeOf (Byte.to_N b)) as [n|] eqn:E.
  - apply pushSizeOf_range in E.
    destruct (pc0 + n <? Buffer_length code); intros H; injection H as <- <-;
      cbn; repeat split; lia.
  - intros H; injection H as <- <-. cbn. repeat split; lia.
Qed.

(** Enough fuel: the loop ends normally, having appended a [Scan]. *)
Lemma parseLoop_scan (fuel : nat) : forall (code : Buffer) (pc0 : Z) (acc : list EvmOpcode),
  0 <= pc0 ->
  Buffer_length code - pc0 <= Z.of_nat fuel ->
  exists l, parseLoop fuel code pc0 acc = Some (JS.Ok tt, acc ++ l) /\ Scan code pc0 l.
Proof.
  induction fuel as [|fuel IH]; intros code pc0 acc Hpc Hfuel.
  - exists []. cbn. destruct (Z.ltb_spec pc0 (Buffer_length code)); [lia|].
    rewrite app_nil_r. split; [reflexivity|]. constructor. lia.
  - cbn [parseLoop]. destruct (Z.ltb_spec pc0 (Buffer_length code)) as [Hlt|Hge].
    + destruct (Buffer_get_Some code pc0) as (b & Hnth & Hget); [lia|].
      rewrite Hget.
      destruct (decodeAt code pc0 (Byte.to_N b)) as [op pc1] eqn:Hd.
      destruct (decodeAt_advances _ _ _ _ _ Hd) as (Hadv & _ & _).
      destruct (IH code (pc1 + 1) (acc ++ [op])) as (l & Hl & Hscan); [lia|lia|].
      exists (op :: l). rewrite Hl, <- app_assoc. cbn.
      split; [reflexivity|]. econstructor; eauto.
    + exists []. rewrite app_nil_r. split; [reflexivity|]. constructor. lia.
Qed.

(** A fresh object: [getOpcodes] returns, does not throw, and stores
    what it returns. *)
Lemma getOpcodes_new (code : Buffer) :
  exists ops, getOpcodes (new code) = Some (JS.Ok ops, mkEVM code ops) /\ Scan code 0 ops.
Proof.
  unfold getOpcodes, new. cbn.
  destruct (parseLoop_scan (List.length code) code 0 []) as (l & Hl & Hs).
  - lia.
  - unfold Buffer_length. lia.
  - rewrite Hl. cbn. exists l. split; [reflexivity | exact Hs].
Qed.

(** ** Entries of a scan *)

Lemma Scan_head (code : Buffer) (q : Z) (l : list EvmOpcode) :
  Scan code q l ->
  match l with
  | [] => Buffer_length code <= q
  | next :: _ => pc next = q /\ q < Buffer_length code
  end.
Proof.
  intros H. destruct H as [q Hq | q b op pc1 l Hq Hget Hd _].
  - exact Hq.
  - destruct (Buffer_get_Some code q Hq) as (x & _ & Hx).
    rewrite Hx in Hget. injection Hget as <-.
    apply decodeAt_advances in Hd. split; [apply Hd | lia].
Qed.

(** Every entry comes from one round of the loop at its own [pc], and
    the entries after it are the scan from where that round left [pc]. *)
Lemma Scan_nth (code : Buffer) (l : list EvmOpcode) : forall (pc0 : Z) (i : nat) (op : EvmOpcode),
  Scan code pc0 l ->
  0 <= pc0 ->
  nth_error l i = Some op ->
  exists b pc1,
    pc0 <= pc op < Buffer_length code /\
    nth_error code (Z.to_nat (pc op)) = Some b /\
    decodeAt code (pc op) (Byte.to_N b) = (op, pc1) /\
    Scan code (pc1 + 1) (skipn (S i) l).
Proof.
  induction l as [|hd tl IH]; intros pc0 i op Hs H0 Hi.
  - destruct i; discriminate.
  - inversion Hs as [|q b op' pc1 l' Hq Hget Hd Hrest]; subst.
    destruct (Buffer_get_Some code pc0 Hq) as (x & Hx & Hgx).
    rewrite Hgx in Hget. injection Hget as <-.
    pose proof (decodeAt_advances _ _ _ _ _ Hd) as (Hadv & Hpc & _).
    destruct i as [|i].
    + cbn in Hi. injection Hi as <-. exists x, pc1.
      rewrite Hpc. repeat split; try lia; assumption.
    + cbn in Hi.
      destruct (IH (pc1 + 1) i op Hrest) as (b' & pc1' & Hr & Hn & Hd' & Hs'); [lia|assumption|].
      exists b', pc1'. repeat split; try lia; assumption.
Qed.

Lemma Buffer_slice_spec (code : Buffer) (a b : Z) :
  0 <= a <= b -> b <= Buffer_length code ->
  Z.of_nat (List.length (Buffer_slice code a b)) = b - a /\
  forall k : nat, Z.of_nat k < b - a ->
    nth_error (Buffer_slice code a b) k = nth_error code (Z.to_nat (a + Z.of_nat k)).
Proof.
  intros Hab Hb. unfold Buffer_slice, JS.clamp, Buffer_length in *.
  destruct (Z.ltb_spec a 0); [lia|]. destruct (Z.ltb_spec b 0); [lia|].
  rewrite !Z.min_l by lia. split.
  - rewrite length_firstn, length_skipn. lia.
  - intros k Hk. rewrite nth_error_firstn, nth_error_skipn.
    destruct (Nat.ltb_spec k (Z.to_nat (b - a))); [|lia].
    f_equal. lia.
Qed.

(** What an entry of the scan of a fresh object looks like. *)
Lemma scan_entry (code : Buffer) (ops : list EvmOpcode) (i : nat) (op : EvmOpcode) :
  Scan code 0 ops ->
  nth_error ops i = Some op ->
  0 <= pc op < Buffer_length code /\
  Buffer_get code (pc op) = Some (opcode op) /\
  (match pushSizeOf (opcode op) with
   | Some n =>
       if pc op + n <? Buffer_length code then
         pushData op = Some (Buffer_slice code (pc op + 1) (pc op + n + 1)) /\
         match nth_error ops (S i) with
         | Some next => pc next = pc op + n + 1
         | None => Buffer_length code <= pc op + n + 1
         end
       else
         pushData op = None /\
         match nth_error ops (S i) with
         | Some next => pc next = pc op + 1
         | None => Buffer_length code <= pc op + 1
         end
   | None =>
       pushData op = None /\
       match nth_error ops (S i) with
       | Some next => pc next = pc op + 1
       | None => Buffer_length code <= pc op + 1
       end
   end).
Proof.
  intros Hs Hi.
  destruct (Scan_nth code ops 0 i op Hs ltac:(lia) Hi) as (b & pc1 & Hr & Hn & Hd & Hs').
  pose proof (decodeAt_advances _ _ _ _ _ Hd) as (_ & _ & Hop).
  apply Scan_head in Hs'. rewrite <- hd_error_skipn.
  split; [lia|]. split.
  - unfold Buffer_get. destruct (Z.ltb_spec (pc op) 0); [lia|]. rewrite Hn, Hop. reflexivity.
  - rewrite decodeAt_byte in Hd. rewrite Hop.
    destruct (pushSizeOf (Byte.to_N b)) as [n|].
    + destruct (pc op + n <? Buffer_length code); injection Hd as Hop' <-;
        rewrite <- Hop' at 1; cbn [pushData]; (split; [reflexivity|]);
        destruct (skipn (S i) ops); cbn [hd_error]; lia.
    + injection Hd as Hop' <-. rewrite <- Hop' at 1. cbn [pushData].
      split; [reflexivity|]. destruct (skipn (S i) ops); cbn [hd_error]; lia.
Qed.

Lemma decodeAt_span (code : Buffer) (pc0 : Z) (b : Byte.byte) (op : EvmOpcode) (pc1 : Z) :
  0 <= pc0 < Buffer_length code ->
  decodeAt code pc0 (Byte.to_N b) = (op, pc1) ->
  pc1 + 1 = pc0 + span op /\ pc1 + 1 <= Buffer_length code.
Proof.
  intros Hpc. rewrite decodeAt_byte. unfold span.
  destruct (pushSizeOf (Byte.to_N b)) as [n|] eqn:En.
  - apply pushSizeOf_range in En.
    destruct (Z.ltb_spec (pc0 + n) (Buffer_length code)) as [Hlt|Hge];
      intros H; injection H as <- <-; cbn [pushData].
    + destruct (Buffer_slice_spec code (pc0 + 1) (pc0 + n + 1)) as (Hlen & _); lia.
    + lia.
  - intros H; injection H as <- <-. cbn [pushData]. lia.
Qed.

Lemma Scan_totalSpan (code : Buffer) (pc0 : Z) (l : list EvmOpcode) :
  Scan code pc0 l -> 0 <= pc0 <= Buffer_length code ->
  pc0 + totalSpan l = Buffer_length code.
Proof.
  induction 1 as [q Hq | q b op pc1 l Hq Hget Hd Hs IH]; intros Hr; cbn [totalSpan fold_right].
  - lia.
  - destruct (Buffer_get_Some code q Hq) as (x & _ & Hx).
    rewrite Hx in Hget. injection Hget as <-.
    destruct (decodeAt_span code q x op pc1 Hq Hd) as (Hsp & Hle).
    pose proof (decodeAt_advances _ _ _ _ _ Hd) as (Hadv & _).
    fold (totalSpan l). specialize (IH ltac:(lia)). lia.
Qed.

(** ** Bytecode built from instructions *)

Lemma Buffer_length_app (a b : Buffer) :
  Buffer_length (a ++ b) = Buffer_length a + Buffer_length b.
Proof. unfold Buffer_length. rewrite length_app. lia. Qed.

Lemma Buffer_length_nonneg (a : Buffer) : 0 <= Buffer_length a.
Proof. unfold Buffer_length. lia. Qed.

Lemma Buffer_get_shift (pre tail : Buffer) (i : Z) :
  0 <= i -> Buffer_get (pre ++ tail) (Buffer_length pre + i) = Buffer_get tail i.
Proof.
  intros Hi. unfold Buffer_get, Buffer_length.
  destruct (Z.ltb_spec (Z.of_nat (List.length pre) + i) 0); [lia|].
  destruct (Z.ltb_spec i 0); [lia|].
  rewrite nth_error_app2 by lia.
  replace (Z.to_nat (Z.of_nat (List.length pre) + i) - List.length pre)%nat
    with (Z.to_nat i) by lia.
  reflexivity.
Qed.

Lemma Buffer_slice_shift (pre tail : Buffer) (a b : Z) :
  0 <= a <= b -> b <= Buffer_length tail ->
  Buffer_slice (pre ++ tail) (Buffer_length pre + a) (Buffer_length pre + b)
    = Buffer_slice tail a b.
Proof.
  intros Hab Hb. unfold Buffer_slice. cbv zeta.
  rewrite Buffer_length_app. unfold JS.clamp.
  pose proof (Buffer_length_nonneg pre) as Hp.
  destruct (Z.ltb_spec (Buffer_length pre + a) 0); [lia|].
  destruct (Z.ltb_spec (Buffer_length pre + b) 0); [lia|].
  destruct (Z.ltb_spec a 0); [lia|]. destruct (Z.ltb_spec b 0); [lia|].
  rewrite !Z.min_l by lia.
  replace (Buffer_length pre + b - (Buffer_length pre + a)) with (b - a) by lia.
  f_equal. unfold Buffer_length in *.
  replace (Z.to_nat (Z.of_nat (List.length pre) + a))
    with (List.length pre + Z.to_nat a)%nat by lia.
  rewrite skipn_app, skipn_all2 by lia.
  replace (List.length pre + Z.to_nat a - List.length pre)%nat with (Z.to_nat a) by lia.
  reflexivity.
Qed.

(** The whole of a buffer, sliced out of a longer one. *)
Lemma Buffer_slice_mid (pre mid post : Buffer) :
  Buffer_slice (pre ++ mid ++ post) (Buffer_length pre)
    (Buffer_length pre + Buffer_length mid) = mid.
Proof.
  pose proof (Buffer_length_nonneg mid) as Hm.
  rewrite <- (Z.add_0_r (Buffer_length pre)) at 1.
  rewrite Buffer_slice_shift; [|lia|rewrite Buffer_length_app; pose proof (Buffer_length_nonneg post); lia].
  unfold Buffer_slice, JS.clamp. cbv zeta. rewrite Buffer_length_app.
  pose proof (Buffer_length_nonneg post) as Hq.
  destruct (Z.ltb_spec 0 0); [lia|].
  destruct (Z.ltb_spec (Buffer_length mid) 0); [lia|].
  rewrite !Z.min_l by lia. rewrite Z.sub_0_r. cbn [Z.to_nat skipn].
  unfold Buffer_length. rewrite Nat2Z.id.
  rewrite firstn_app, firstn_all, Nat.sub_diag. cbn [firstn]. apply app_nil_r.
Qed.

(** The loop body does the same, [k] bytes further, in a buffer that is
    [k] bytes longer at the front. *)
Lemma decodeAt_shift (pre tail : Buffer) (q : Z) (b : Byte.byte) (op : EvmOpcode) (pc1 : Z) :
  0 <= q ->
  decodeAt tail q (Byte.to_N b) = (op, pc1) ->
  decodeAt (pre ++ tail) (Buffer_length pre + q) (Byte.to_N b)
    = (shift (Buffer_length pre) op, Buffer_length pre + pc1).
Proof.
  intros Hq. rewrite !decodeAt_byte. rewrite Buffer_length_app.
  destruct (pushSizeOf (Byte.to_N b)) as [n|] eqn:En.
  - apply pushSizeOf_range in En.
    destruct (Z.ltb_spec (q + n) (Buffer_length tail)),
             (Z.ltb_spec (Buffer_length pre + q + n)
                         (Buffer_length pre + Buffer_length tail)); try lia;
      intros H'; injection H' as <- <-; unfold shift; cbn [name opcode pc pushData].
    + replace (Buffer_length pre + q + 1) with (Buffer_length pre + (q + 1)) by lia.
      replace (Buffer_length pre + q + n + 1) with (Buffer_length pre + (q + n + 1)) by lia.
      rewrite Buffer_slice_shift by lia.
      f_equal; [f_equal; lia | lia].
    + f_equal. f_equal. lia.
  - intros H'; injection H' as <- <-. unfold shift. cbn [name opcode pc pushData].
    f_equal. f_equal. lia.
Qed.

Lemma Scan_shift (tail : Buffer) (q : Z) (tops : list EvmOpcode) :
  Scan tail q tops -> 0 <= q ->
  forall pre, Scan (pre ++ tail) (Buffer_length pre + q)
                (List.map (shift (Buffer_length pre)) tops).
Proof.
  induction 1 as [q Hq | q b op pc1 l Hq Hget Hd Hs IH]; intros H0 pre; cbn [List.map].
  - constructor. rewrite Buffer_length_app. lia.
  - destruct (Buffer_get_Some tail q Hq) as (x & _ & Hx).
    rewrite Hx in Hget. injection Hget as <-.
    pose proof (decodeAt_advances _ _ _ _ _ Hd) as (Hadv & _).
    pose proof (Buffer_length_nonneg pre) as Hp.
    apply Scan_step with (b := Byte.to_N x) (pc1 := Buffer_length pre + pc1).
    + rewrite Buffer_length_app. lia.
    + rewrite Buffer_get_shift by lia. exact Hx.
    + now apply decodeAt_shift.
    + replace (Buffer_length pre + pc1 + 1) with (Buffer_length pre + (pc1 + 1)) by lia.
      apply IH. lia.
Qed.

Lemma Scan_deterministic (code : Buffer) (q : Z) (l1 : list EvmOpcode) :
  Scan code q l1 -> forall l2, Scan code q l2 -> l1 = l2.
Proof.
  induction 1 as [q Hq | q b op pc1 l Hq Hget Hd Hs IH]; intros l2 H2;
    inversion H2 as [q' Hq' | q' b' op' pc1' l' Hq' Hget' Hd' Hs']; subst.
  - reflexivity.
  - lia.
  - lia.
  - rewrite Hget in Hget'. injection Hget' as <-.
    rewrite Hd in Hd'. injection Hd' as <- <-.
    f_equal. now apply IH.
Qed.

(** One round on an instruction that has its whole operand. *)
Lemma Scan_instruction (pre : Buffer) (i : Instruction) (tail : Buffer) (l : list EvmOpcode) :
  wellFormed i ->
  Scan (pre ++ (instrByte i :: operand i) ++ tail)
       (Buffer_length pre + 1 + Buffer_length (operand i)) l ->
  Scan (pre ++ (instrByte i :: operand i) ++ tail) (Buffer_length pre)
       (entryAt (Buffer_length pre) i :: l).
Proof.
  intros Hwf Hs.
  pose proof (Buffer_length_nonneg pre) as Hp.
  pose proof (Buffer_length_nonneg (operand i)) as Ho.
  pose proof (Buffer_length_nonneg tail) as Ht.
  assert (Hlen : Buffer_length (pre ++ (instrByte i :: operand i) ++ tail)
                 = Buffer_length pre + 1 + Buffer_length (operand i) + Buffer_length tail).
  { rewrite !Buffer_length_app. change (instrByte i :: operand i)
      with ([instrByte i] ++ operand i). rewrite Buffer_length_app.
    change (Buffer_length [instrByte i]) with 1. lia. }
  apply Scan_step with (b := Byte.to_N (instrByte i))
                       (pc1 := Buffer_length pre + Buffer_length (operand i)).
  - lia.
  - rewrite <- (Z.add_0_r (Buffer_length pre)), Buffer_get_shift by lia. reflexivity.
  - rewrite decodeAt_byte, Hlen. unfold entryAt. unfold wellFormed, operandLength in Hwf.
    destruct (pushSizeOf (Byte.to_N (instrByte i))) as [n|] eqn:En.
    + apply pushSizeOf_range in En.
      assert (Hn : Buffer_length (operand i) = n) by (unfold Buffer_length; lia).
      destruct (Z.ltb_spec (Buffer_length pre + n)
                  (Buffer_length pre + 1 + Buffer_length (operand i) + Buffer_length tail));
        [|lia].
      rewrite <- Hn. f_equal. f_equal. f_equal.
      change (pre ++ (instrByte i :: operand i) ++ tail)
        with (pre ++ [instrByte i] ++ operand i ++ tail).
      rewrite app_assoc.
      replace (Buffer_length pre + 1) with (Buffer_length (pre ++ [instrByte i]))
        by (rewrite Buffer_length_app; reflexivity).
      replace (Buffer_length pre + Buffer_length (operand i) + 1)
        with (Buffer_length (pre ++ [instrByte i]) + Buffer_length (operand i))
        by (rewrite Buffer_length_app; change (Buffer_length [instrByte i]) with 1; lia).
      apply Buffer_slice_mid.
    + assert (Hn : Buffer_length (operand i) = 0) by (unfold Buffer_length; lia).
      rewrite Hn, Z.add_0_r. reflexivity.
  - replace (Buffer_length pre + Buffer_length (operand i) + 1)
      with (Buffer_length pre + 1 + Buffer_length (operand i)) by lia.
    exact Hs.
Qed.

(** One round on a push whose declared operand runs past the end. *)
Lemma Scan_truncated (pre : Buffer) (b : Byte.byte) (tail : Buffer) (n : Z)
      (l : list EvmOpcode) :
  pushSizeOf (Byte.to_N b) = Some n ->
  Buffer_length tail < n ->
  Scan (pre ++ b :: tail) (Buffer_length pre + 1) l ->
  Scan (pre ++ b :: tail) (Buffer_length pre)
       (mkOpcode (getOpcodeInfo (Byte.to_N b)) (Byte.to_N b) (Buffer_length pre) None :: l).
Proof.
  intros En Ht Hs.
  pose proof (Buffer_length_nonneg pre) as Hp.
  pose proof (Buffer_length_nonneg tail) as Hq.
  assert (Hlen : Buffer_length (pre ++ b :: tail) = Buffer_length pre + 1 + Buffer_length tail).
  { rewrite Buffer_length_app. change (b :: tail) with ([b] ++ tail).
    rewrite Buffer_length_app. change (Buffer_length [b]) with 1. lia. }
  apply Scan_step with (b := Byte.to_N b) (pc1 := Buffer_length pre).
  - lia.
  - rewrite <- (Z.add_0_r (Buffer_length pre)), Buffer_get_shift by lia. reflexivity.
  - rewrite decodeAt_byte, En, Hlen.
    destruct (Z.ltb_spec (Buffer_length pre + n)
                (Buffer_length pre + 1 + Buffer_length tail)); [lia | reflexivity].
  - exact Hs.
Qed.

Lemma Scan_at (code : Buffer) (q q' : Z) (l : list EvmOpcode) :
  Scan code q l -> q = q' -> Scan code q' l.
Proof. now intros H <-. Qed.

Lemma Buffer_length_cons (b : Byte.byte) (rest : Buffer) :
  Buffer_length (b :: rest) = 1 + Buffer_length rest.
Proof. unfold Buffer_length. cbn [List.length]. lia. Qed.

Lemma assemble_cons (i : Instruction) (rest : list Instruction) :
  assemble (i :: rest) = (instrByte i :: operand i) ++ assemble rest.
Proof. reflexivity. Qed.

Lemma Scan_assemble (instrs : list Instruction) : forall (pre tail : Buffer) (l : list EvmOpcode),
  Forall wellFormed instrs ->
  Scan (pre ++ assemble instrs ++ tail)
       (Buffer_length pre + Buffer_length (assemble instrs)) l ->
  Scan (pre ++ assemble instrs ++ tail) (Buffer_length pre)
       (entriesOf (Buffer_length pre) instrs ++ l).
Proof.
  induction instrs as [|i rest IH]; intros pre tail l Hwf Hs.
  - apply (Scan_at _ _ _ _ Hs). cbn. lia.
  - inversion Hwf as [|? ? Hi Hrest]; subst.
    rewrite assemble_cons in *.
    remember (instrByte i :: operand i) as io eqn:Hio.
    assert (Hlen : Buffer_length io = 1 + Buffer_length (operand i))
      by (subst io; apply Buffer_length_cons).
    change (entriesOf (Buffer_length pre) (i :: rest) ++ l)
      with (entryAt (Buffer_length pre) i
            :: (entriesOf (Buffer_length pre + 1 + Z.of_nat (List.length (operand i))) rest
                ++ l)).
    rewrite <- app_assoc in *. subst io.
    apply Scan_instruction; [exact Hi|].
    specialize (IH (pre ++ instrByte i :: operand i) tail l Hrest).
    rewrite <- app_assoc in IH.
    assert (Hpre : Buffer_length (pre ++ instrByte i :: operand i)
                   = Buffer_length pre + 1 + Z.of_nat (List.length (operand i)))
      by (rewrite Buffer_length_app, Hlen; unfold Buffer_length; lia).
    rewrite Hpre in IH.
    refine (Scan_at _ _ _ _ (IH _) _); [|unfold Buffer_length; lia].
    apply (Scan_at _ _ _ _ Hs). rewrite Buffer_length_app, Hlen. unfold Buffer_length. lia.
Qed.

Lemma length_entriesOf (instrs : list Instruction) : forall p,
  List.length (entriesOf p instrs) = List.length instrs.
Proof. induction instrs as [|i rest IH]; intros p; cbn; [reflexivity | now rewrite IH]. Qed.

(** The scan of instructions followed by one more instruction and any
    bytes: the entries of the instructions, the entry of that instruction,
    then the entries of a scan of the bytes alone, moved to where the
    bytes are. *)
Lemma getOpcodes_instruction (instrs : list Instruction) (i : Instruction) (rest : Buffer) :
  Forall wellFormed instrs -> wellFormed i ->
  exists ops following,
    getOpcodes (new (assemble instrs ++ (instrByte i :: operand i) ++ rest)) =
      Some (JS.Ok ops, mkEVM (assemble instrs ++ (instrByte i :: operand i) ++ rest) ops) /\
    getOpcodes (new rest) = Some (JS.Ok following, mkEVM rest following) /\
    Scan rest 0 following /\
    ops = entriesOf 0 instrs
          ++ entryAt (Buffer_length (assemble instrs)) i
          :: List.map (shift (Buffer_length (assemble instrs) + 1
                              + Buffer_length (operand i))) following.
Proof.
  intros Hwf Hi.
  destruct (getOpcodes_new (assemble instrs ++ (instrByte i :: operand i) ++ rest))
    as (ops & Hget & Hs).
  destruct (getOpcodes_new rest) as (following & Hget' & Hs').
  exists ops, following. split; [exact Hget|]. split; [exact Hget'|]. split; [exact Hs'|].
  apply (Scan_deterministic _ _ _ Hs).
  apply (Scan_assemble instrs [] _ _ Hwf). cbn [app Buffer_length List.length Z.of_nat Z.add].
  apply Scan_instruction; [exact Hi|].
  pose proof (Scan_shift rest 0 following Hs' ltac:(lia)
                (assemble instrs ++ instrByte i :: operand i)) as H.
  rewrite <- app_assoc in H. cbn [app] in H.
  replace (Buffer_length (assemble instrs ++ instrByte i :: operand i))
    with (Buffer_length (assemble instrs) + 1 + Buffer_length (operand i)) in H.
  - now rewrite Z.add_0_r in H.
  - rewrite Buffer_length_app. change (instrByte i :: operand i)
      with ([instrByte i] ++ operand i). rewrite Buffer_length_app.
    change (Buffer_length [instrByte i]) with 1. lia.
Qed.

(** The same when the last instruction is a push short of its operand. *)
Lemma getOpcodes_truncated_instruction (instrs : list Instruction) (b : Byte.byte)
      (n : Z) (tail : Buffer) :
  Forall wellFormed instrs ->
  pushSizeOf (Byte.to_N b) = Some n ->
  Buffer_length tail < n ->
  exists ops following,
    getOpcodes (new (assemble instrs ++ b :: tail)) =
      Some (JS.Ok ops, mkEVM (assemble instrs ++ b :: tail) ops) /\
    getOpcodes (new tail) = Some (JS.Ok following, mkEVM tail following) /\
    Scan tail 0 following /\
    ops = entriesOf 0 instrs
          ++ mkOpcode (getOpcodeInfo (Byte.to_N b)) (Byte.to_N b)
               (Buffer_length (assemble instrs)) None
          :: List.map (shift (Buffer_length (assemble instrs) + 1)) following.
Proof.
  intros Hwf En Ht.
  destruct (getOpcodes_new (assemble instrs ++ b :: tail)) as (ops & Hget & Hs).
  destruct (getOpcodes_new tail) as (following & Hget' & Hs').
  exists ops, following. split; [exact Hget|]. split; [exact Hget'|]. split; [exact Hs'|].
  apply (Scan_deterministic _ _ _ Hs).
  apply (Scan_assemble instrs [] _ _ Hwf). cbn [app Buffer_length List.length Z.of_nat Z.add].
  apply (Scan_truncated _ _ _ n _ En Ht).
  pose proof (Scan_shift tail 0 following Hs' ltac:(lia) (assemble instrs ++ [b])) as H.
  rewrite <- app_assoc in H. cbn [app] in H.
  replace (Buffer_length (assemble instrs ++ [b]))
    with (Buffer_length (assemble instrs) + 1) in H
    by (rewrite Buffer_length_app; reflexivity).
  now rewrite Z.add_0_r in H.
Qed.

(** ** The scanner's claims *)

(** C1. In every bytecode made of whole instructions followed by a PUSH4
    (opcode 0x63) with its four operand bytes and then any bytes, the scan
    returns and records that PUSH4, at its offset, with exactly the four
    bytes that follow the opcode as its immediate; the entries before it
    are those of the instructions, and the entries after it are those of
    a scan of the remaining bytes, the first of them at the offset of the
    PUSH4 plus 5 (there is none exactly when no byte remains). More
    generally, in the scan of any bytecode, every entry that is a PUSH4
    whose four operand bytes lie inside the buffer carries the four bytes
    at offsets pc+1 .. pc+4, and the next opcode is decoded at pc+5. *)
Theorem getOpcodes_push4_immediate :
  (forall (instrs : list Instruction) (b1 b2 b3 b4 : Byte.byte) (rest : Buffer),
     Forall wellFormed instrs ->
     exists ops following,
       getOpcodes (new (assemble instrs ++ [Byte.x63; b1; b2; b3; b4] ++ rest)) =
         Some (JS.Ok ops,
               mkEVM (assemble instrs ++ [Byte.x63; b1; b2; b3; b4] ++ rest) ops) /\
       getOpcodes (new rest) = Some (JS.Ok following, mkEVM rest following) /\
       ops = entriesOf 0 instrs
             ++ mkOpcode "PUSH4" 0x63 (Buffer_length (assemble instrs))
                  (Some [b1; b2; b3; b4])
             :: List.map (shift (Buffer_length (assemble instrs) + 5)) following /\
       nth_error ops (List.length instrs) =
         Some (mkOpcode "PUSH4" 0x63 (Buffer_length (assemble instrs))
                 (Some [b1; b2; b3; b4])) /\
       match nth_error ops (S (List.length instrs)) with
       | Some next => pc next = Buffer_length (assemble instrs) + 5
       | None => rest = []
       end) /\
  (forall code : Buffer,
     exists ops,
       getOpcodes (new code) = Some (JS.Ok ops, mkEVM code ops) /\
       forall (i : nat) (op : EvmOpcode),
         nth_error ops i = Some op ->
         opcode op = 0x63%N ->
         pc op + 4 < Buffer_length code ->
         Buffer_get code (pc op) = Some 0x63%N /\
         (exists d, pushData op = Some d /\
                    List.length d = 4%nat /\
                    forall k : nat, (k < 4)%nat ->
                      nth_error d k = nth_error code (Z.to_nat (pc op + 1 + Z.of_nat k))) /\
         match nth_error ops (S i) with
         | Some next => pc next = pc op + 5
         | None => pc op + 5 = Buffer_length code
         end).
Proof.
  split.
  - intros instrs b1 b2 b3 b4 rest Hwf.
    assert (Hi : wellFormed (mkInstruction Byte.x63 [b1; b2; b3; b4])) by reflexivity.
    destruct (getOpcodes_instruction instrs _ rest Hwf Hi)
      as (ops & following & Hget & Hget' & Hs' & Hops).
    cbn [instrByte operand] in Hget, Hops.
    change (Buffer_length [b1; b2; b3; b4]) with 4 in Hops.
    change (entryAt (Buffer_length (assemble instrs)) (mkInstruction Byte.x63 [b1; b2; b3; b4]))
      with (mkOpcode "PUSH4" 0x63 (Buffer_length (assemble instrs)) (Some [b1; b2; b3; b4]))
      in Hops.
    replace (Buffer_length (assemble instrs) + 1 + 4)
      with (Buffer_length (assemble instrs) + 5) in Hops by lia.
    exists ops, following.
    split; [exact Hget|]. split; [exact Hget'|]. split; [exact Hops|].
    rewrite Hops. split.
    + rewrite nth_error_app2 by (rewrite length_entriesOf; lia).
      rewrite length_entriesOf, Nat.sub_diag. reflexivity.
    + rewrite nth_error_app2 by (rewrite length_entriesOf; lia).
      rewrite length_entriesOf.
      replace (S (List.length instrs) - List.length instrs)%nat with 1%nat by lia.
      cbn [nth_error]. apply Scan_head in Hs'.
      destruct following as [|f l]; cbn [List.map nth_error].
      * destruct rest; [reflexivity|]. rewrite Buffer_length_cons in Hs'.
        pose proof (Buffer_length_nonneg rest). lia.
      * unfold shift. cbn [pc]. lia.
  - intros code.
    destruct (getOpcodes_new code) as (ops & Hget & Hs).
    exists ops. split; [exact Hget|].
    intros i op Hi Hop Hin.
    destruct (scan_entry code ops i op Hs Hi) as (Hr & Hb & Hcase).
    rewrite Hop in Hb, Hcase.
    change (pushSizeOf 99) with (Some 4) in Hcase. cbv beta iota in Hcase.
    destruct (Z.ltb_spec (pc op + 4) (Buffer_length code)) as [_|]; [|lia].
    destruct Hcase as (Hd & Hnext).
    destruct (Buffer_slice_spec code (pc op + 1) (pc op + 4 + 1)) as (Hlen & Hnth); [lia|lia|].
    split; [exact Hb|]. split.
    + eexists. split; [exact Hd|]. split; [lia|].
      intros k Hk. apply Hnth. lia.
    + destruct (nth_error ops (S i)); lia.
Qed.

(** The theorem at 60 80 63 01 02 03 04 00: a PUSH1 with its operand,
    the PUSH4 at offset 2 with its four bytes, and a STOP after it. *)
Lemma getOpcodes_push4_immediate_witness :
  let code := [Byte.x60; Byte.x80; Byte.x63; Byte.x01; Byte.x02; Byte.x03; Byte.x04;
               Byte.x00] in
  let op := mkOpcode "PUSH4" 0x63 2 (Some [Byte.x01; Byte.x02; Byte.x03; Byte.x04]) in
  (exists ops,
     getOpcodes (new code) = Some (JS.Ok ops, mkEVM code ops) /\
     nth_error ops 1 = Some op /\
     match nth_error ops 2 with
     | Some next => pc next = 2 + 5
     | None => [Byte.x00] = []
     end) /\
  Buffer_get code (pc op) = Some 0x63%N /\
  (exists d, pushData op = Some d /\
             List.length d = 4%nat /\
             forall k : nat, (k < 4)%nat ->
               nth_error d k = nth_error code (Z.to_nat (pc op + 1 + Z.of_nat k))) /\
  match nth_error [mkOpcode "PUSH1" 0x60 0 (Some [Byte.x80]); op; mkOpcode "STOP" 0 7 None] 2
  with
  | Some next => pc next = pc op + 5
  | None => pc op + 5 = Buffer_length code
  end.
Proof.
  intros code op. split.
  - destruct (proj1 getOpcodes_push4_immediate
                [mkInstruction Byte.x60 [Byte.x80]]
                Byte.x01 Byte.x02 Byte.x03 Byte.x04 [Byte.x00])
      as (ops & following & Hget & _ & _ & Hnth & Hnext).
    + repeat constructor.
    + exists ops. split; [exact Hget|]. split; [exact Hnth | exact Hnext].
  - destruct (proj2 getOpcodes_push4_immediate code) as (ops' & Hget & H).
    assert (ops' = [mkOpcode "PUSH1" 0x60 0 (Some [Byte.x80]); op;
                    mkOpcode "STOP" 0 7 None]) as ->
      by (vm_compute in Hget; injection Hget as Hops _; subst ops'; reflexivity).
    apply (H 1%nat op); [reflexivity | reflexivity | vm_compute; reflexivity].
Defined.

(** A scan from the hex text: PUSH4 with its selector, then STOP. *)
Example getOpcodes_of_hex :
  getOpcodes (constructor "0x630102030400") =
    Some (JS.Ok [mkOpcode "PUSH4" 0x63 0 (Some [Byte.x01; Byte.x02; Byte.x03; Byte.x04]);
                 mkOpcode "STOP" 0 5 None],
          mkEVM [Byte.x63; Byte.x01; Byte.x02; Byte.x03; Byte.x04; Byte.x00]
                [mkOpcode "PUSH4" 0x63 0 (Some [Byte.x01; Byte.x02; Byte.x03; Byte.x04]);
                 mkOpcode "STOP" 0 5 None]).
Proof. reflexivity. Qed.

(** C2, as stated, fails: in 63 01 02 03 the PUSH4 at offset 0 declares
    four operand bytes and three are left; the scanner emits it with no
    immediate and then decodes 01, 02 and 03 as ADD, MUL and SUB. *)
Lemma truncated_push_operand_is_decoded :
  getOpcodes (new [Byte.x63; Byte.x01; Byte.x02; Byte.x03]) =
    Some (JS.Ok [mkOpcode "PUSH4" 0x63 0 None; mkOpcode "ADD" 1 1 None;
                 mkOpcode "MUL" 2 2 None; mkOpcode "SUB" 3 3 None],
          mkEVM [Byte.x63; Byte.x01; Byte.x02; Byte.x03]
                [mkOpcode "PUSH4" 0x63 0 None; mkOpcode "ADD" 1 1 None;
                 mkOpcode "MUL" 2 2 None; mkOpcode "SUB" 3 3 None]) /\
  ~ ScanEndsAtTruncatedPush [Byte.x63; Byte.x01; Byte.x02; Byte.x03].
Proof.
  split; [reflexivity|].
  intros H.
  specialize (H _ _ 0%nat (mkOpcode "PUSH4" 0x63 0 None) 4 eq_refl eq_refl eq_refl).
  cbn in H. specialize (H ltac:(lia)). discriminate H.
Qed.

(** The operand bytes of a truncated push can even yield a selector:
    in 7f 63 01 02 03 04 the PUSH32 is truncated and the PUSH4 inside its
    declared operand is decoded with the immediate 01 02 03 04. *)
Example truncated_push32_hides_push4 :
  getOpcodes (new [Byte.x7f; Byte.x63; Byte.x01; Byte.x02; Byte.x03; Byte.x04]) =
    Some (JS.Ok [mkOpcode "PUSH32" 0x7F 0 None;
                 mkOpcode "PUSH4" 0x63 1 (Some [Byte.x01; Byte.x02; Byte.x03; Byte.x04])],
          mkEVM [Byte.x7f; Byte.x63; Byte.x01; Byte.x02; Byte.x03; Byte.x04]
                [mkOpcode "PUSH32" 0x7F 0 None;
                 mkOpcode "PUSH4" 0x63 1 (Some [Byte.x01; Byte.x02; Byte.x03; Byte.x04])]).
Proof. reflexivity. Qed.

(** C2, amended. In every bytecode made of whole instructions followed
    by a push whose declared operand runs past the end of the buffer, the
    scan returns and records that push, at its offset, with no immediate;
    the entries before it are those of the instructions; and the bytes
    that were declared as its operand are decoded as further instructions,
    exactly as a scan of those bytes alone decodes them, the first at the
    offset of the push plus 1 (no entry follows only when no byte does),
    their spans adding up to the number of those bytes. In the scan of any
    bytecode the spans of the entries add up to the buffer length, so the
    scan ends when the program counter reaches it; every entry sits inside
    the buffer, where the scanner read its opcode; an immediate, when
    emitted, is the full operand of a push whose last operand byte is
    inside the buffer; and a push whose declared operand runs past the end
    gets no immediate, after which decoding goes on at the very next
    offset pc+1. *)
Theorem getOpcodes_truncated_push :
  (forall (instrs : list Instruction) (b : Byte.byte) (n : Z) (tail : Buffer),
     Forall wellFormed instrs ->
     pushSizeOf (Byte.to_N b) = Some n ->
     Buffer_length tail < n ->
     exists ops following,
       getOpcodes (new (assemble instrs ++ b :: tail)) =
         Some (JS.Ok ops, mkEVM (assemble instrs ++ b :: tail) ops) /\
       getOpcodes (new tail) = Some (JS.Ok following, mkEVM tail following) /\
       ops = entriesOf 0 instrs
             ++ mkOpcode (getOpcodeInfo (Byte.to_N b)) (Byte.to_N b)
                  (Buffer_length (assemble instrs)) None
             :: List.map (shift (Buffer_length (assemble instrs) + 1)) following /\
       nth_error ops (List.length instrs) =
         Some (mkOpcode (getOpcodeInfo (Byte.to_N b)) (Byte.to_N b)
                 (Buffer_length (assemble instrs)) None) /\
       match nth_error ops (S (List.length instrs)) with
       | Some next => pc next = Buffer_length (assemble instrs) + 1
       | None => tail = []
       end /\
       totalSpan following = Buffer_length tail) /\
  (forall code : Buffer,
     exists ops,
       getOpcodes (new code) = Some (JS.Ok ops, mkEVM code ops) /\
       totalSpan ops = Buffer_length code /\
       forall (i : nat) (op : EvmOpcode),
         nth_error ops i = Some op ->
         0 <= pc op < Buffer_length code /\
         Buffer_get code (pc op) = Some (opcode op) /\
         (forall d, pushData op = Some d ->
            exists n, pushSizeOf (opcode op) = Some n /\
                      pc op + n < Buffer_length code /\
                      d = Buffer_slice code (pc op + 1) (pc op + n + 1) /\
                      Z.of_nat (List.length d) = n) /\
         (forall n, pushSizeOf (opcode op) = Some n ->
            Buffer_length code <= pc op + n ->
            pushData op = None /\
            match nth_error ops (S i) with
            | Some next => pc next = pc op + 1
            | None => pc op + 1 = Buffer_length code
            end)).
Proof.
  split.
  - intros instrs b n tail Hwf En Ht.
    destruct (getOpcodes_truncated_instruction instrs b n tail Hwf En Ht)
      as (ops & following & Hget & Hget' & Hs' & Hops).
    exists ops, following.
    split; [exact Hget|]. split; [exact Hget'|]. split; [exact Hops|].
    rewrite Hops. split; [|split].
    + rewrite nth_error_app2 by (rewrite length_entriesOf; lia).
      rewrite length_entriesOf, Nat.sub_diag. reflexivity.
    + rewrite nth_error_app2 by (rewrite length_entriesOf; lia).
      rewrite length_entriesOf.
      replace (S (List.length instrs) - List.length instrs)%nat with 1%nat by lia.
      cbn [nth_error]. pose proof (Scan_head _ _ _ Hs') as Hh.
      destruct following as [|f l]; cbn [List.map nth_error].
      * destruct tail; [reflexivity|]. rewrite Buffer_length_cons in Hh.
        pose proof (Buffer_length_nonneg tail). lia.
      * unfold shift. cbn [pc]. lia.
    + pose proof (Scan_totalSpan tail 0 following Hs') as H.
      pose proof (Buffer_length_nonneg tail). lia.
  - intros code.
    destruct (getOpcodes_new code) as (ops & Hget & Hs).
    exists ops. split; [exact Hget|]. split.
    { pose proof (Scan_totalSpan code 0 ops Hs) as H.
      pose proof (Buffer_length_nonneg code). lia. }
    intros i op Hi.
    destruct (scan_entry code ops i op Hs Hi) as (Hr & Hb & Hcase).
    split; [exact Hr|]. split; [exact Hb|]. split.
    + intros d Hd.
      destruct (pushSizeOf (opcode op)) as [n|] eqn:En.
      * pose proof (pushSizeOf_range _ _ En) as Hn.
        destruct (Z.ltb_spec (pc op + n) (Buffer_length code)) as [Hlt|Hge].
        -- destruct Hcase as (Hd' & _). rewrite Hd' in Hd. injection Hd as <-.
           exists n. repeat split; try assumption.
           destruct (Buffer_slice_spec code (pc op + 1) (pc op + n + 1)) as (Hlen & _); lia.
        -- destruct Hcase as (Hd' & _). congruence.
      * destruct Hcase as (Hd' & _). congruence.
    + intros n En Hge. rewrite En in Hcase.
      destruct (Z.ltb_spec (pc op + n) (Buffer_length code)) as [Hlt|_]; [lia|].
      destruct Hcase as (Hd & Hnext). split; [exact Hd|].
      destruct (nth_error ops (S i)); lia.
Qed.

(** The theorem at 60 80 63 01 02 03: after a PUSH1 with its operand, the
    PUSH4 at offset 2 has three bytes left; they are decoded as ADD, MUL
    and SUB. *)
Lemma getOpcodes_truncated_push_witness :
  let code := [Byte.x60; Byte.x80; Byte.x63; Byte.x01; Byte.x02; Byte.x03] in
  let op := mkOpcode "PUSH4" 0x63 2 None in
  (exists ops,
     getOpcodes (new code) = Some (JS.Ok ops, mkEVM code ops) /\
     ops = [mkOpcode "PUSH1" 0x60 0 (Some [Byte.x80]); op]
           ++ List.map (shift 3)
                [mkOpcode "ADD" 1 0 None; mkOpcode "MUL" 2 1 None; mkOpcode "SUB" 3 2 None] /\
     nth_error ops 1 = Some op /\
     match nth_error ops 2 with
     | Some next => pc next = 2 + 1
     | None => [Byte.x01; Byte.x02; Byte.x03] = []
     end) /\
  pushData op = None /\
  match nth_error
          [mkOpcode "PUSH1" 0x60 0 (Some [Byte.x80]); op; mkOpcode "ADD" 1 3 None;
           mkOpcode "MUL" 2 4 None; mkOpcode "SUB" 3 5 None] 2
  with
  | Some next => pc next = pc op + 1
  | None => pc op + 1 = Buffer_length code
  end.
Proof.
  intros code op. split.
  - destruct (proj1 getOpcodes_truncated_push
                [mkInstruction Byte.x60 [Byte.x80]] Byte.x63 4
                [Byte.x01; Byte.x02; Byte.x03])
      as (ops & following & Hget & Hget' & Hops & Hnth & Hnext & _).
    + repeat constructor.
    + reflexivity.
    + vm_compute. reflexivity.
    + assert (following =
              [mkOpcode "ADD" 1 0 None; mkOpcode "MUL" 2 1 None; mkOpcode "SUB" 3 2 None])
        as Hf by (vm_compute in Hget'; injection Hget' as Hf _; subst following; reflexivity).
      exists ops. split; [exact Hget|]. split; [|split; [exact Hnth | exact Hnext]].
      rewrite Hops, Hf. reflexivity.
  - destruct (proj2 getOpcodes_truncated_push code) as (ops' & Hget & _ & H).
    assert (ops' = [mkOpcode "PUSH1" 0x60 0 (Some [Byte.x80]); op; mkOpcode "ADD" 1 3 None;
                    mkOpcode "MUL" 2 4 None; mkOpcode "SUB" 3 5 None]) as ->
      by (vm_compute in Hget; injection Hget as Hops _; subst ops'; reflexivity).
    destruct (H 1%nat op eq_refl) as (_ & _ & _ & Htrunc).
    apply (Htrunc 4); [reflexivity | vm_compute; discriminate].
Defined.

(** [getOpcodes] on an object whose array is not empty: the array, as it
    is, and the object unchanged. *)
Lemma getOpcodes_cached (this : t) :
  opcodes this <> [] -> getOpcodes this = Some (JS.Ok (opcodes this), this).
Proof.
  intros H. unfold getOpcodes.
  destruct (opcodes this); [congruence|]. reflexivity.
Qed.

Lemma Scan_nonempty (code : Buffer) (ops : list EvmOpcode) :
  code <> [] -> Scan code 0 ops -> ops <> [].
Proof.
  intros Hc Hs. apply Scan_head in Hs. destruct ops; [|discriminate].
  unfold Buffer_length in Hs. destruct code; [congruence|]. cbn in Hs. lia.
Qed.

(** C10. For non-empty bytecode the first [getOpcodes] of a fresh object
    returns a non-empty list and stores it; the second call returns that
    same list and leaves the object, hence the stored list, as the first
    call left it: nothing is parsed or appended again. *)
Theorem getOpcodes_idempotent (code : Buffer) :
  code <> [] ->
  exists ops,
    ops <> [] /\
    getOpcodes (new code) = Some (JS.Ok ops, mkEVM code ops) /\
    getOpcodes (mkEVM code ops) = Some (JS.Ok ops, mkEVM code ops).
Proof.
  intros Hc. destruct (getOpcodes_new code) as (ops & Hget & Hs).
  pose proof (Scan_nonempty code ops Hc Hs) as Hne.
  exists ops. split; [exact Hne|]. split; [exact Hget|].
  apply (getOpcodes_cached (mkEVM code ops)). exact Hne.
Qed.

Lemma getOpcodes_idempotent_witness :
  exists ops,
    ops <> [] /\
    getOpcodes (new [Byte.x63; Byte.x01; Byte.x02; Byte.x03; Byte.x04; Byte.x00]) =
      Some (JS.Ok ops, mkEVM [Byte.x63; Byte.x01; Byte.x02; Byte.x03; Byte.x04; Byte.x00] ops) /\
    getOpcodes (mkEVM [Byte.x63; Byte.x01; Byte.x02; Byte.x03; Byte.x04; Byte.x00] ops) =
      Some (JS.Ok ops, mkEVM [Byte.x63; Byte.x01; Byte.x02; Byte.x03; Byte.x04; Byte.x00] ops).
Proof.
  apply (getOpcodes_idempotent [Byte.x63; Byte.x01; Byte.x02; Byte.x03; Byte.x04; Byte.x00]).
  discriminate.
Defined.


(** ** Further properties of the scanner *)

(** An entry, in full: where it comes from and what it carries. *)
Lemma scan_entry_fields (code : Buffer) (ops : list EvmOpcode) (i : nat) (op : EvmOpcode) :
  Scan code 0 ops ->
  nth_error ops i = Some op ->
  name op = getOpcodeInfo (opcode op) /\
  pushData op =
    match pushSizeOf (opcode op) with
    | Some n =>
        if pc op + n <? Buffer_length code
        then Some (Buffer_slice code (pc op + 1) (pc op + n + 1))
        else None
    | None => None
    end.
Proof.
  intros Hs Hi.
  destruct (Scan_nth code ops 0 i op Hs ltac:(lia) Hi) as (b & pc1 & Hr & Hn & Hd & _).
  pose proof (decodeAt_advances _ _ _ _ _ Hd) as (_ & _ & Hop).
  rewrite decodeAt_byte in Hd. rewrite Hop.
  destruct (pushSizeOf (Byte.to_N b)) as [n|].
  - destruct (pc op + n <? Buffer_length code); injection Hd as Hop' _;
      split; rewrite <- Hop'; reflexivity.
  - injection Hd as Hop' _. split; rewrite <- Hop'; reflexivity.
Qed.

(** X1. The entries of a scan tile the buffer: the first entry sits at
    offset 0, each next entry starts right after the previous entry's
    opcode byte and immediate, the last one ends at the end of the buffer,
    and so the spans add up to the buffer length: no byte is decoded twice
    and none is skipped. *)
Theorem getOpcodes_tiles (code : Buffer) :
  exists ops,
    getOpcodes (new code) = Some (JS.Ok ops, mkEVM code ops) /\
    totalSpan ops = Buffer_length code /\
    (forall op, nth_error ops 0 = Some op -> pc op = 0) /\
    (forall (i : nat) (op next : EvmOpcode),
       nth_error ops i = Some op -> nth_error ops (S i) = Some next ->
       pc next = pc op + span op) /\
    (forall (i : nat) (op : EvmOpcode),
       nth_error ops i = Some op -> nth_error ops (S i) = None ->
       pc op + span op = Buffer_length code).
Proof.
  destruct (getOpcodes_new code) as (ops & Hget & Hs).
  exists ops. split; [exact Hget|]. split; [|split; [|split]].
  - pose proof (Scan_totalSpan code 0 ops Hs) as H.
    unfold Buffer_length in *. lia.
  - intros op H0. pose proof (Scan_head code 0 ops Hs) as Hh.
    destruct ops as [|o l]; [discriminate|]. cbn in H0. injection H0 as <-. apply Hh.
  - intros i op next Hi Hnext.
    destruct (scan_entry code ops i op Hs Hi) as (Hr & _ & Hcase).
    rewrite Hnext in Hcase. unfold span.
    destruct (pushSizeOf (opcode op)) as [n|] eqn:En.
    + pose proof (pushSizeOf_range _ _ En) as Hn.
      destruct (Z.ltb_spec (pc op + n) (Buffer_length code)) as [Hlt|Hge];
        destruct Hcase as (-> & Hpc); [|lia].
      destruct (Buffer_slice_spec code (pc op + 1) (pc op + n + 1)) as (Hlen & _); lia.
    + destruct Hcase as (-> & Hpc). lia.
  - intros i op Hi Hnext.
    destruct (scan_entry code ops i op Hs Hi) as (Hr & _ & Hcase).
    rewrite Hnext in Hcase. unfold span.
    destruct (pushSizeOf (opcode op)) as [n|] eqn:En.
    + pose proof (pushSizeOf_range _ _ En) as Hn.
      destruct (Z.ltb_spec (pc op + n) (Buffer_length code)) as [Hlt|Hge];
        destruct Hcase as (-> & Hpc); [|lia].
      destruct (Buffer_slice_spec code (pc op + 1) (pc op + n + 1)) as (Hlen & _); lia.
    + destruct Hcase as (-> & Hpc). lia.
Qed.

(** X2. Every entry of a scan is determined by the buffer and its own
    offset: its opcode is the byte at that offset, its name is the
    mnemonic of that byte, and it carries an immediate exactly when the
    byte is a PUSH1..PUSH32 (0x60 + n - 1) whose n operand bytes all lie
    inside the buffer, the immediate being those n bytes. *)
Theorem getOpcodes_entries (code : Buffer) :
  exists ops,
    getOpcodes (new code) = Some (JS.Ok ops, mkEVM code ops) /\
    forall (i : nat) (op : EvmOpcode),
      nth_error ops i = Some op ->
      Buffer_get code (pc op) = Some (opcode op) /\
      name op = getOpcodeInfo (opcode op) /\
      match pushData op with
      | Some d =>
          exists n, (0x60 <= opcode op <= 0x7F)%N /\ n = Z.of_N (opcode op) - 0x5F /\
                    pc op + n < Buffer_length code /\
                    Z.of_nat (List.length d) = n /\
                    forall k : nat, Z.of_nat k < n ->
                      nth_error d k = nth_error code (Z.to_nat (pc op + 1 + Z.of_nat k))
      | None =>
          (opcode op < 0x60)%N \/ (0x7F < opcode op)%N \/
          Buffer_length code <= pc op + (Z.of_N (opcode op) - 0x5F)
      end.
Proof.
  destruct (getOpcodes_new code) as (ops & Hget & Hs).
  exists ops. split; [exact Hget|].
  intros i op Hi.
  destruct (scan_entry code ops i op Hs Hi) as (Hr & Hb & _).
  destruct (scan_entry_fields code ops i op Hs Hi) as (Hname & Hdata).
  split; [exact Hb|]. split; [exact Hname|].
  rewrite Hdata. unfold pushSizeOf.
  destruct ((96 <=? opcode op)%N && (opcode op <=? 127)%N) eqn:E.
  - apply andb_prop in E as [E1 E2]. apply N.leb_le in E1. apply N.leb_le in E2.
    destruct (Z.ltb_spec (pc op + (Z.of_N (opcode op) - 95)) (Buffer_length code)) as [Hlt|Hge].
    + exists (Z.of_N (opcode op) - 95).
      destruct (Buffer_slice_spec code (pc op + 1) (pc op + (Z.of_N (opcode op) - 95) + 1))
        as (Hlen & Hnth); [lia|lia|].
      repeat split; try lia. intros k Hk. apply Hnth. lia.
    + right; right. exact Hge.
  - apply andb_false_iff in E as [E|E]; [apply N.leb_gt in E | apply N.leb_gt in E].
    + left. exact E.
    + right; left. exact E.
Qed.

Lemma opcodeOfName_name (b : Byte.byte) :
  opcodeOfName (getOpcodeInfo (Byte.to_N b)) = Some b.
Proof. destruct b; vm_compute; reflexivity. Qed.

(** X3. The mnemonic identifies the opcode: no two byte values have the
    same name, a byte outside the table is named "0x" followed by its two
    upper-case hex digits, and the names that start with "PUSH" are exactly
    those of the bytes 0x60 to 0x7F. *)
Theorem getOpcodeInfo_injective (b1 b2 : Byte.byte) :
  (getOpcodeInfo (Byte.to_N b1) = getOpcodeInfo (Byte.to_N b2) -> b1 = b2) /\
  (opcodeMap (Byte.to_N b1) = None ->
   getOpcodeInfo (Byte.to_N b1) =
     String "0" (String "x"
       (String (JS.hexDigit true (Byte.to_N b1 / 16))
          (String (JS.hexDigit true (Byte.to_N b1 mod 16)) EmptyString)))) /\
  (JS.startsWith (getOpcodeInfo (Byte.to_N b1)) "PUSH" = true <->
   (0x60 <= Byte.to_N b1 <= 0x7F)%N).
Proof.
  split; [|split].
  - intros H. pose proof (opcodeOfName_name b1) as H1.
    rewrite H, opcodeOfName_name in H1. congruence.
  - destruct b1; vm_compute; intros H; (reflexivity || discriminate H).
  - destruct b1; vm_compute; split; intros H;
      try reflexivity; try discriminate H;
      try (split; intros H'; discriminate H');
      try (destruct H as [H1 H2]; first [now elim H1 | now elim H2]).
Qed.


Lemma Buffer_from_hex_byte (b : Byte.byte) (rest : string) :
  Buffer_from_hex
    (String (JS.hexDigit false (Byte.to_N b / 16))
       (String (JS.hexDigit false (Byte.to_N b mod 16)) rest)) =
  b :: Buffer_from_hex rest.
Proof. destruct b; reflexivity. Qed.

Lemma Buffer_from_hex_app (bytes : Buffer) (tail : string) :
  Buffer_from_hex (Buffer_to_hex bytes ++ tail)%string = bytes ++ Buffer_from_hex tail.
Proof.
  induction bytes as [|b l IH]; [reflexivity|].
  cbn [Buffer_to_hex fold_right]. fold (Buffer_to_hex l).
  cbn [String.append]. rewrite Buffer_from_hex_byte, IH. reflexivity.
Qed.

Lemma Buffer_to_hex_no_prefix (bytes : Buffer) :
  JS.startsWith (Buffer_to_hex bytes) "0x" = false.
Proof.
  destruct bytes as [|b l]; [reflexivity|].
  cbn [Buffer_to_hex fold_right]. unfold JS.startsWith.
  rewrite !JSFacts.prefix_cons. destruct b; reflexivity.
Qed.

Lemma constructor_prefixed (text : string) :
  constructor ("0x" ++ text) = new (Buffer_from_hex text).
Proof.
  unfold constructor, JS.startsWith. rewrite JSFacts.prefix_append.
  replace (JS.slice ("0x" ++ text) 2 None) with text
    by (symmetry; apply (JSFacts.slice_append_r "0x" text)).
  reflexivity.
Qed.

(** X4. The constructor decodes the hex text of a buffer back to that
    buffer, with or without the "0x" prefix, and leaves the list of
    opcodes empty; it never fails on malformed text: what follows the first
    character that is not a hex digit is ignored, and so is a last odd
    digit. *)
Theorem constructor_hex (bytes : Buffer) :
  constructor ("0x" ++ Buffer_to_hex bytes) = new bytes /\
  constructor (Buffer_to_hex bytes) = new bytes /\
  (forall (c : ascii) (rest : string),
     hexNibble c = None ->
     constructor ("0x" ++ Buffer_to_hex bytes ++ String c rest) = new bytes) /\
  (forall c : ascii,
     constructor ("0x" ++ Buffer_to_hex bytes ++ String c "") = new bytes).
Proof.
  assert (Buffer_from_hex (Buffer_to_hex bytes) = bytes) as Hround.
  { rewrite <- (JSFacts.append_nil_r (Buffer_to_hex bytes)), Buffer_from_hex_app.
    apply app_nil_r. }
  split; [|split; [|split]].
  - now rewrite constructor_prefixed, Hround.
  - unfold constructor. now rewrite Buffer_to_hex_no_prefix, Hround.
  - intros c rest Hc. rewrite constructor_prefixed, Buffer_from_hex_app.
    assert (Buffer_from_hex (String c rest) = []) as ->.
    { destruct rest; cbn; [reflexivity | now rewrite Hc]. }
    now rewrite app_nil_r.
  - intros c. rewrite constructor_prefixed, Buffer_from_hex_app.
    cbn [Buffer_from_hex]. now rewrite app_nil_r.
Qed.

Example constructor_examples :
  code (constructor "0x6080604052") = [Byte.x60; Byte.x80; Byte.x60; Byte.x40; Byte.x52] /\
  code (constructor "6080604052") = [Byte.x60; Byte.x80; Byte.x60; Byte.x40; Byte.x52] /\
  code (constructor "0x60806g4052") = [Byte.x60; Byte.x80] /\
  code (constructor "0x608") = [Byte.x60] /\
  code (constructor "0x") = [].
Proof. repeat split; reflexivity. Qed.


(** The tiling at 60 01 00: PUSH1 with its operand, then STOP. *)
Lemma getOpcodes_tiles_witness :
  let code := [Byte.x60; Byte.x01; Byte.x00] in
  let push := mkOpcode "PUSH1" 0x60 0 (Some [Byte.x01]) in
  let stop := mkOpcode "STOP" 0 2 None in
  pc push = 0 /\ pc stop = pc push + span push /\
  pc stop + span stop = Buffer_length code.
Proof.
  intros code push stop.
  destruct (getOpcodes_tiles code) as (ops & Hget & _ & Hfirst & Hnext & Hlast).
  assert (ops = [push; stop]) as ->
    by (vm_compute in Hget; injection Hget as Hops _; subst ops; reflexivity).
  split; [apply Hfirst; reflexivity|].
  split; [apply (Hnext 0%nat); reflexivity | apply (Hlast 1%nat); reflexivity].
Defined.

(** The PUSH1 entry of the scan of 60 01 00. *)
Lemma getOpcodes_entries_witness :
  let code := [Byte.x60; Byte.x01; Byte.x00] in
  let op := mkOpcode "PUSH1" 0x60 0 (Some [Byte.x01]) in
  Buffer_get code (pc op) = Some (opcode op) /\
  name op = getOpcodeInfo (opcode op) /\
  exists n, (0x60 <= opcode op <= 0x7F)%N /\ n = Z.of_N (opcode op) - 0x5F /\
            pc op + n < Buffer_length code /\
            Z.of_nat (List.length [Byte.x01]) = n /\
            forall k : nat, Z.of_nat k < n ->
              nth_error [Byte.x01] k = nth_error code (Z.to_nat (pc op + 1 + Z.of_nat k)).
Proof.
  intros code op.
  destruct (getOpcodes_entries code) as (ops & Hget & H).
  assert (ops = [op; mkOpcode "STOP" 0 2 None]) as ->
    by (vm_compute in Hget; injection Hget as Hops _; subst ops; reflexivity).
  apply (H 0%nat op). reflexivity.
Defined.

(** The byte 0x0C has no mnemonic, and only PUSH4 is named "PUSH4". *)
Lemma getOpcodeInfo_injective_witness :
  getOpcodeInfo (Byte.to_N Byte.x0c) = "0x0C" /\ Byte.x63 = Byte.x63.
Proof.
  split.
  - apply (proj1 (proj2 (getOpcodeInfo_injective Byte.x0c Byte.x0c))). reflexivity.
  - apply (proj1 (getOpcodeInfo_injective Byte.x63 Byte.x63)). reflexivity.
Defined.

(** The text "0x63zz00" decodes to the single byte 63. *)
Lemma constructor_hex_witness :
  constructor ("0x" ++ Buffer_to_hex [Byte.x63] ++ String "z" "z00") = new [Byte.x63].
Proof.
  apply (proj1 (proj2 (proj2 (constructor_hex [Byte.x63]))) "z"%char "z00").
  reflexivity.
Defined.

End EVMFacts.

(* ===================================================================== *)
(** * Properties of the callable classification *)
(* ===================================================================== *)

Module ContractUtilsFacts.
Import ContractUtilsProps.
Import ContractUtils.

(** C8, as stated, fails on the empty signature text: it is present, does
    not end with "()", and is classified callable. *)
Lemma empty_signature_is_callable :
  isCallableSignature (Some "") = true /\ ~ CallableIffAbsentOrNoParams (Some "").
Proof.
  split; [reflexivity|].
  intros [H _]. destruct (H eq_refl) as [H0 | [body H0]]; [discriminate|].
  injection H0 as H0. apply (f_equal String.length) in H0.
  rewrite JSFacts.length_append in H0. cbn in H0. lia.
Qed.

(** C8, amended. A selector is classified callable exactly when its
    signature is absent, is the empty text, or ends with "()"; and the
    function name is the text before the first "(" when the signature has
    one, the whole signature otherwise. *)
Theorem classification_spec (signature : option string) (name rest s : string) :
  (isCallableSignature signature = true <->
     (signature = None \/ signature = Some "" \/
      exists body, signature = Some (body ++ "()"))) /\
  (~ In "("%char (list_ascii_of_string name) ->
     extractFunctionName (name ++ "(" ++ rest) = name) /\
  (~ In "("%char (list_ascii_of_string s) -> extractFunctionName s = s).
Proof.
  split; [|split].
  - unfold isCallableSignature, falsy. destruct signature as [sig|].
    + destruct (String.eqb_spec sig "") as [->|Hne].
      * split; [intros _; right; left; reflexivity | reflexivity].
      * rewrite JSFacts.endsWith_spec. split.
        -- intros [body ->]. right; right. now exists body.
        -- intros [H | [H | [body H]]]; [discriminate | congruence |].
           injection H as ->. now exists body.
    + split; [intros _; left; reflexivity | reflexivity].
  - intros Hn. unfold extractFunctionName.
    change (name ++ "(" ++ rest) with (name ++ String "(" rest).
    rewrite JSFacts.includes_char_present, JSFacts.split_first by exact Hn.
    reflexivity.
  - intros Hn. unfold extractFunctionName.
    now rewrite JSFacts.includes_char_absent.
Qed.

Lemma classification_spec_witness :
  extractFunctionName ("balanceOf" ++ "(" ++ "address)") = "balanceOf" /\
  extractFunctionName "0x06fdde03" = "0x06fdde03".
Proof.
  destruct (classification_spec None "balanceOf" "address)" "0x06fdde03")
    as (_ & Hname & Hwhole).
  split; [apply Hname | apply Hwhole]; cbn; intuition discriminate.
Defined.

Example classify_examples :
  isCallableSignature None = true /\
  isCallableSignature (Some "totalSupply()") = true /\
  isCallableSignature (Some "transfer(address,uint256)") = false /\
  extractFunctionName "transfer(address,uint256)" = "transfer" /\
  extractFunctionName "0x12345678" = "0x12345678".
Proof. repeat split; reflexivity. Qed.


(** X5. The function name extracted from a signature contains no "(", is
    the beginning of the signature, and is left unchanged by a second
    extraction. *)
Theorem extractFunctionName_name (signature : string) :
  ~ In "("%char (list_ascii_of_string (extractFunctionName signature)) /\
  (exists rest, signature = extractFunctionName signature ++ rest) /\
  extractFunctionName (extractFunctionName signature) = extractFunctionName signature.
Proof.
  assert (Hfix : forall h, ~ In "("%char (list_ascii_of_string h) ->
                           extractFunctionName h = h).
  { intros h Hn. unfold extractFunctionName.
    rewrite (JSFacts.includes_char_absent "(" h Hn). reflexivity. }
  destruct (JS.includes signature "(") eqn:E.
  - destruct (JSFacts.split_head "(" signature) as (h & t & rest & Hs & Hn & Hr).
    assert (Hx : extractFunctionName signature = h).
    { unfold extractFunctionName. now rewrite E, Hs. }
    rewrite !Hx. split; [exact Hn|]. split; [now exists rest|]. now apply Hfix.
  - assert (Hn := JSFacts.includes_char_false _ _ E).
    rewrite !(Hfix signature Hn). split; [exact Hn|]. split; [|reflexivity].
    exists "". now rewrite JSFacts.append_nil_r.
Qed.

End ContractUtilsFacts.

(* ===================================================================== *)
(** * Properties of the revert-reason normalization *)
(* ===================================================================== *)

Module RevertFacts.
Import Revert.

(** C3, as stated, fails on its first example: the text is cut at the
    first "0x", so the reason after the hex payload is lost, and what is
    left (the prefix alone) normalizes to the default literal. *)
Lemma reason_after_hex_is_dropped :
  normalizeRevertReason "execution reverted: 0xdeadbeef Some reason" = "execution reverted" /\
  normalizeRevertReason "execution reverted: 0xdeadbeef Some reason" <> "Some reason".
Proof. split; [reflexivity | discriminate]. Qed.

(** Everything from the first "0x" on is ignored. *)
Lemma normalize_cut_at_hex (a r : string) :
  JS.indexOf a "0x" = -1 ->
  normalizeRevertReason (a ++ "0x" ++ r) = normalizeRevertReason a.
Proof.
  intros Ha. unfold normalizeRevertReason at 1.
  assert (String.eqb (a ++ "0x" ++ r) "" = false) as ->.
  { apply String.eqb_neq. destruct a; discriminate. }
  rewrite (JSFacts.indexOf_0x_append a r Ha).
  pose proof (JSFacts.len_nonneg a) as Hl.
  destruct (Z.eqb_spec (JS.len a) (-1)) as [|_]; [lia|]. cbn [negb].
  rewrite JSFacts.slice_append_l.
  unfold normalizeRevertReason. rewrite Ha. cbn [Z.eqb negb].
  destruct (String.eqb_spec a "") as [->|_]; reflexivity.
Qed.

Lemma colonOrSpace_whitespace (c : ascii) :
  colonOrSpace c = false -> JS.isWhiteSpace c = false.
Proof. unfold colonOrSpace. intros H. now apply orb_false_iff in H. Qed.

(** The redundant prefix is stripped and the reason that follows is
    kept, for a reason with no "0x" in it that neither starts nor ends
    with a colon or white space. *)
Lemma normalize_strips_prefix (c0 cl : ascii) (tl body : string) :
  let reason := String c0 tl in
  reason = body ++ String cl "" ->
  colonOrSpace c0 = false ->
  colonOrSpace cl = false ->
  JS.indexOf reason "0x" = -1 ->
  normalizeRevertReason ("execution reverted: " ++ reason) =
    if JS.len reason <=? 10 then "execution reverted: " ++ reason else reason.
Proof.
  intros reason Hlast Hc0 Hcl Hhex.
  pose proof (colonOrSpace_whitespace _ Hc0) as Hw0.
  pose proof (colonOrSpace_whitespace _ Hcl) as Hwl.
  unfold normalizeRevertReason.
  change (String.eqb ("execution reverted: " ++ reason) "") with false. cbv iota.
  assert (JS.indexOf ("execution reverted: " ++ reason) "0x" = -1) as ->.
  { unfold JS.indexOf in *. rewrite JSFacts.indexOf_from_0x_skip.
    - apply (JSFacts.indexOf_from_shift "0x" reason 0 _); [lia | | exact Hhex].
      pose proof (JSFacts.len_nonneg "execution reverted: "). lia.
    - cbn. intuition discriminate. }
  change (negb (-1 =? -1)) with false. cbv iota.
  assert (forall p : string, JS.trim (String "e" p ++ reason) = String "e" p ++ reason) as Htrim_e.
  { intros p. unfold JS.trim.
    change (String "e" p ++ reason) with (String "e" (p ++ reason)).
    rewrite JSFacts.dropWhile_head by reflexivity.
    change (String "e" (p ++ reason)) with (String "e" p ++ reason).
    rewrite Hlast, <- JSFacts.append_assoc.
    now apply JSFacts.dropWhileEnd_last. }
  rewrite (Htrim_e "xecution reverted: ").
  assert (JS.startsWith (JS.toLowerCase ("execution reverted: " ++ reason))
            "execution reverted" = true) as ->.
  { unfold JS.startsWith, JS.toLowerCase. rewrite JSFacts.map_append.
    change (JS.map JS.lowerChar "execution reverted: ")
      with ("execution reverted" ++ ": ").
    rewrite JSFacts.append_assoc. apply JSFacts.prefix_append. }
  change ("execution reverted: " ++ reason) with ("execution reverted" ++ (": " ++ reason)).
  rewrite JSFacts.slice_append_r.
  assert (JS.trim (": " ++ reason) = ": " ++ reason) as ->.
  { unfold JS.trim.
    change (": " ++ reason) with (String ":" (" " ++ reason)).
    rewrite JSFacts.dropWhile_head by reflexivity.
    change (String ":" (" " ++ reason)) with (": " ++ reason).
    rewrite Hlast, <- JSFacts.append_assoc.
    now apply JSFacts.dropWhileEnd_last. }
  assert (JS.dropWhile colonOrSpace (": " ++ reason) = reason) as ->.
  { change (": " ++ reason) with (String ":" (String " " reason)).
    cbn [JS.dropWhile].
    change (colonOrSpace ":") with true. change (colonOrSpace " ") with true. cbv iota.
    now apply JSFacts.dropWhile_head. }
  assert (JS.dropWhileEnd colonOrSpace reason = reason) as ->.
  { rewrite Hlast. now apply JSFacts.dropWhileEnd_last. }
  reflexivity.
Qed.

(** C3, amended. The text is cut at the first "0x": the hex payload and
    whatever follows it are dropped, so "execution reverted: 0xdeadbeef
    Some reason" gives the default "execution reverted"; the empty text
    gives "execution reverted"; "ab" gives "execution reverted: ab". In
    general the result depends only on the text before the first "0x",
    and the redundant prefix is stripped from a reason, which is kept (and
    wrapped again when it has at most 10 characters). *)
Theorem normalizeRevertReason_spec :
  normalizeRevertReason "execution reverted: 0xdeadbeef Some reason" = "execution reverted" /\
  normalizeRevertReason "" = "execution reverted" /\
  normalizeRevertReason "ab" = "execution reverted: ab" /\
  (forall a r : string,
     JS.indexOf a "0x" = -1 ->
     normalizeRevertReason (a ++ "0x" ++ r) = normalizeRevertReason a) /\
  (forall (c0 cl : ascii) (tl body : string),
     String c0 tl = body ++ String cl "" ->
     colonOrSpace c0 = false ->
     colonOrSpace cl = false ->
     JS.indexOf (String c0 tl) "0x" = -1 ->
     normalizeRevertReason ("execution reverted: " ++ String c0 tl) =
       if JS.len (String c0 tl) <=? 10
       then "execution reverted: " ++ String c0 tl else String c0 tl).
Proof.
  split; [reflexivity|]. split; [reflexivity|]. split; [reflexivity|]. split.
  - exact normalize_cut_at_hex.
  - exact normalize_strips_prefix.
Qed.

Lemma normalizeRevertReason_spec_witness :
  normalizeRevertReason ("insufficient balance " ++ "0x" ++ "08c379a0 retry") =
    normalizeRevertReason "insufficient balance " /\
  normalizeRevertReason ("execution reverted: " ++ "ERC20: paused") =
    (if JS.len "ERC20: paused" <=? 10
     then "execution reverted: " ++ "ERC20: paused" else "ERC20: paused").
Proof.
  destruct normalizeRevertReason_spec as (_ & _ & _ & Hcut & Hprefix).
  split.
  - apply Hcut. reflexivity.
  - apply (Hprefix "E"%char "d"%char "RC20: paused" "ERC20: pause"); reflexivity.
Defined.

Example normalize_examples :
  normalizeRevertReason "execution reverted: Ownable: caller is not the owner"
    = "Ownable: caller is not the owner" /\
  normalizeRevertReason "Execution Reverted" = "execution reverted" /\
  normalizeRevertReason "out of gas" = "execution reverted: out of gas" /\
  normalizeRevertReason "0xdeadbeef" = "execution reverted".
Proof. repeat split; reflexivity. Qed.


(** The reason text: a run of characters of the input with no "0x" in
    it, from which the result is built. *)
Lemma normalize_text (input : string) :
  exists text,
    JSProps.piece text input /\ JSProps.containsHex text = false /\
    normalizeRevertReason input =
      if String.eqb input "" then "execution reverted"
      else if String.eqb text "" then "execution reverted"
      else if JS.len text <=? 10 then ("execution reverted: " ++ text)%string
      else text.
Proof.
  unfold normalizeRevertReason. cbv zeta.
  pose proof (JSFacts.cut_at_hex input) as H0. cbv zeta in H0. destruct H0 as [Hp0 Hc0].
  set (t0 := if negb (_ =? -1) then _ else _) in *.
  set (t1 := JS.trim t0).
  set (t2 := if JS.startsWith _ _ then _ else t1).
  set (t3 := JS.trim t2).
  set (t4 := JS.dropWhile colonOrSpace t3).
  set (t5 := JS.dropWhileEnd colonOrSpace t4).
  assert (Hp : JSProps.piece t5 t0).
  { eapply JSFacts.piece_trans; [apply JSFacts.piece_dropWhileEnd|].
    eapply JSFacts.piece_trans; [apply JSFacts.piece_dropWhile|].
    eapply JSFacts.piece_trans; [apply JSFacts.piece_trim|].
    eapply JSFacts.piece_trans; [|apply JSFacts.piece_trim].
    fold t1. unfold t2. destruct (JS.startsWith _ _);
      [apply JSFacts.piece_slice | apply JSFacts.piece_refl]. }
  exists t5. split; [eapply JSFacts.piece_trans; eassumption|].
  split; [eapply JSFacts.piece_containsHex; eassumption | reflexivity].
Qed.

(** The normalized reason is longer than ten characters and has no "0x"
    in it. *)
Lemma normalize_bounds (input : string) :
  10 < JS.len (normalizeRevertReason input) /\
  JS.indexOf (normalizeRevertReason input) "0x" = -1.
Proof.
  destruct (normalize_text input) as (text & _ & Hc & ->).
  destruct (String.eqb input ""); [split; reflexivity|].
  destruct (String.eqb text ""); [split; reflexivity|].
  destruct (Z.leb_spec (JS.len text) 10) as [L|L].
  - split.
    + rewrite JSFacts.len_append. pose proof (JSFacts.len_nonneg text).
      change (JS.len "execution reverted: ") with 20. lia.
    + unfold JS.indexOf.
      rewrite JSFacts.indexOf_from_0x_skip by exact JSFacts.no_zero_digit_in_prefix.
      apply JSFacts.indexOf_from_containsHex; [|exact Hc].
      change (JS.len "execution reverted: ") with 20. lia.
  - split; [lia|].
    apply (JSFacts.indexOf_from_containsHex text 0); [lia | exact Hc].
Qed.

(** X6. Whatever the error text, the normalized reason is longer than ten
    characters and contains no "0x"; it is either the bare literal
    "execution reverted", or a non-empty run of characters of the error
    text, prefixed with "execution reverted: " exactly when that run has at
    most ten characters. *)
Theorem normalizeRevertReason_shape (input : string) :
  10 < JS.len (normalizeRevertReason input) /\
  JS.indexOf (normalizeRevertReason input) "0x" = -1 /\
  (normalizeRevertReason input = "execution reverted" \/
   exists text, JSProps.piece text input /\ text <> ""%string /\
     ((JS.len text <= 10 /\
       normalizeRevertReason input = ("execution reverted: " ++ text)%string) \/
      (10 < JS.len text /\ normalizeRevertReason input = text))).
Proof.
  split; [apply normalize_bounds|]. split; [apply normalize_bounds|].
  destruct (normalize_text input) as (text & Hp & _ & ->).
  destruct (String.eqb input ""); [left; reflexivity|].
  destruct (String.eqb_spec text "") as [E|E]; [left; reflexivity|].
  right. exists text. split; [exact Hp|]. split; [exact E|].
  destruct (Z.leb_spec (JS.len text) 10) as [L|L].
  - left. split; [exact L | reflexivity].
  - right. split; [exact L | reflexivity].
Qed.

End RevertFacts.

(* ===================================================================== *)
(** * Properties of the response decoder *)
(* ===================================================================== *)

Module DecodeFacts.
Import DecodeProps.
Import JS Decode.
Local Open Scope list_scope.

Lemma parsePairs_ok (n : nat) : forall s : string,
  String.length s = (2 * n)%nat -> Viem.allHex s = true ->
  exists bytes, Viem.parsePairs s = Ok bytes /\ List.length bytes = n.
Proof.
  induction n as [|n IH]; intros s Hlen Hhex.
  - destruct s; [|discriminate]. exists []. split; reflexivity.
  - destruct s as [|l [|r rest]]; try (cbn in Hlen; lia).
    cbn in Hhex. cbn [Viem.parsePairs].
    destruct (Viem.charCodeToBase16 l) as [nl|]; [|discriminate].
    destruct (Viem.charCodeToBase16 r) as [nr|]; [|discriminate].
    destruct (IH rest) as (t & Ht & Hl); [cbn in Hlen; lia | exact Hhex |].
    rewrite Ht. cbn. eexists. split; [reflexivity|]. cbn. now rewrite Hl.
Qed.

(** viem on one well-formed 32-byte word: both decodings succeed. *)
Lemma viem_word (digits : string) :
  String.length digits = 64%nat -> Viem.allHex digits = true ->
  exists bytes,
    Viem.parsePairs digits = Ok bytes /\ List.length bytes = 32%nat /\
    Viem.decodeUint256 ("0x" ++ digits) = Ok (Viem.bytesToBigInt bytes) /\
    Viem.decodeAddress ("0x" ++ digits) =
      Ok (Viem.checksumAddress (Viem.bytesToHex (skipn 12 bytes))).
Proof.
  intros Hlen Hhex.
  destruct (parsePairs_ok 32 digits Hlen Hhex) as (bytes & Hp & Hl).
  exists bytes. split; [exact Hp|]. split; [exact Hl|].
  assert (Viem.decodePrelude ("0x" ++ digits) = Ok bytes) as Hpre.
  { unfold Viem.decodePrelude, Viem.hexToBytes.
    replace (slice ("0x" ++ digits) 2 None) with digits
      by (symmetry; apply (JSFacts.slice_append_r "0x" digits)).
    rewrite Hlen.
    change (Nat.odd 64) with false. cbv iota. rewrite Hp. cbn [bind].
    rewrite Hl. change (32 =? 0)%nat with false. cbv iota.
    unfold Viem.size, startsWith. rewrite JSFacts.prefix_append.
    rewrite JSFacts.len_append. unfold len. rewrite Hlen. reflexivity. }
  assert (Viem.readWord bytes 0 = Ok bytes) as Hread.
  { unfold Viem.readWord. rewrite Hl. cbn [Nat.add Nat.leb skipn].
    rewrite <- Hl, firstn_all. reflexivity. }
  unfold Viem.decodeUint256, Viem.decodeAddress.
  rewrite Hpre. cbn [bind]. rewrite Hread. split; reflexivity.
Qed.

(** One 32-byte word, any decoder: the value returned, by cases on the
    two decodings. *)
Lemma decodeResp_word_cases (abi : AbiDecoder) (data : string) :
  len data = 66 ->
  decodeResp abi data =
    Ok (match decodeUint256 abi data with
        | Ok n =>
            if looksLikeAddress n then
              match decodeAddress abi data with
              | Ok address => address
              | Throw _ => toString10 n
              end
            else toString10 n
        | Throw _ =>
            match decodeAddress abi data with
            | Ok address => address
            | Throw _ => "execution reverted"%string
            end
        end).
Proof.
  intros Hlen. unfold decodeResp. rewrite Hlen.
  destruct data; [discriminate|].
  cbn [String.eqb orb Z.leb Z.compare Pos.compare Pos.compare_cont Z.eqb Pos.eqb].
  unfold decodeWord, looksLikeAddress.
  destruct (decodeUint256 abi _) as [n|e]; cbn [bind try_catch].
  - destruct ((n =? 57005)%N || _).
    + destruct (decodeAddress abi _); reflexivity.
    + reflexivity.
  - destruct (decodeAddress abi _); reflexivity.
Qed.

(** C4, as stated, fails at 50 digits: the word encoding 10^49 decodes
    to an integer of 50 decimal digits, which is not strictly between 35
    and 50, yet [decodeResp] returns the address read from its low 20
    bytes and not the decimal string. *)
Lemma fifty_digit_word_decodes_as_address :
  Viem.decodeUint256 word_1e49 = Ok (10 ^ 49)%N /\
  len (toString10 (10 ^ 49)) = 50 /\
  looksLikeAddress_stated (10 ^ 49) = false /\
  decodeResp (Viem.decoder noStringDecoder) word_1e49 =
    Ok "0xD79F82328EA3Da61E066eBb2F88A000000000000"%string /\
  decodeResp (Viem.decoder noStringDecoder) word_1e49 <> Ok (toString10 (10 ^ 49)).
Proof.
  split; [vm_compute; reflexivity|]. split; [vm_compute; reflexivity|].
  split; [vm_compute; reflexivity|]. split; [vm_compute; reflexivity|].
  vm_compute. discriminate.
Qed.

(** C4, amended. For a 66-character input [decodeResp] first decodes an
    integer; exactly when the integer is 57005 or its decimal text has
    strictly between 35 and 51 characters (36 to 50 digits) it decodes the
    word as an address and returns the address if that succeeds, the
    decimal text otherwise; when the integer decoding throws it returns
    the address if that decodes, else "execution reverted". With viem's
    decoding both succeed on every word of 64 hex digits, so the result is
    the checksummed low 20 bytes or the decimal text; the word encoding
    57005 gives "0x000000000000000000000000000000000000dEaD", not "57005". *)
Theorem decodeResp_word :
  (forall (abi : AbiDecoder) (data : string),
     len data = 66 ->
     decodeResp abi data =
       Ok (match decodeUint256 abi data with
           | Ok n =>
               if (n =? 57005)%N
                  || ((35 <? len (toString10 n)) && (len (toString10 n) <? 51))
               then match decodeAddress abi data with
                    | Ok address => address
                    | Throw _ => toString10 n
                    end
               else toString10 n
           | Throw _ =>
               match decodeAddress abi data with
               | Ok address => address
               | Throw _ => "execution reverted"%string
               end
           end)) /\
  (forall (decodeString : string -> Result string) (digits : string),
     String.length digits = 64%nat -> Viem.allHex digits = true ->
     exists bytes,
       Viem.parsePairs digits = Ok bytes /\ List.length bytes = 32%nat /\
       decodeResp (Viem.decoder decodeString) ("0x" ++ digits) =
         Ok (let n := Viem.bytesToBigInt bytes in
             if (n =? 57005)%N
                || ((35 <? len (toString10 n)) && (len (toString10 n) <? 51))
             then Viem.checksumAddress (Viem.bytesToHex (skipn 12 bytes))
             else toString10 n)) /\
  (forall decodeString : string -> Result string,
     decodeResp (Viem.decoder decodeString) word_57005 =
       Ok "0x000000000000000000000000000000000000dEaD"%string) /\
  "0x000000000000000000000000000000000000dEaD"%string <> "57005"%string.
Proof.
  split; [exact decodeResp_word_cases|]. split; [|split].
  - intros ds digits Hlen Hhex.
    destruct (viem_word digits Hlen Hhex) as (bytes & Hp & Hl & Hu & Ha).
    exists bytes. split; [exact Hp|]. split; [exact Hl|].
    rewrite decodeResp_word_cases.
    + cbn [Viem.decoder decodeUint256 decodeAddress]. rewrite Hu, Ha. reflexivity.
    + rewrite JSFacts.len_append. unfold len. rewrite Hlen. reflexivity.
  - intros ds. rewrite decodeResp_word_cases by reflexivity.
    cbn [Viem.decoder decodeUint256 decodeAddress].
    vm_compute. reflexivity.
  - discriminate.
Qed.

Lemma decodeResp_word_witness :
  exists bytes,
    Viem.parsePairs "000000000000000000000000000000000000000000000000000000000000dead"
      = Ok bytes /\
    List.length bytes = 32%nat /\
    decodeResp (Viem.decoder noStringDecoder) word_57005 =
      Ok (let n := Viem.bytesToBigInt bytes in
          if (n =? 57005)%N
             || ((35 <? len (toString10 n)) && (len (toString10 n) <? 51))
          then Viem.checksumAddress (Viem.bytesToHex (skipn 12 bytes))
          else toString10 n).
Proof.
  apply (proj1 (proj2 decodeResp_word) noStringDecoder
           "000000000000000000000000000000000000000000000000000000000000dead");
    reflexivity.
Defined.

(** C5. [decodeResp] returns for every input and every behaviour of the
    decoder, throwing included: the value is "execution reverted",
    "could not decode the response", or what one of the decodings
    returned; and an input of at most 2 characters gives "execution
    reverted". *)
Theorem decodeResp_total (abi : AbiDecoder) (data : string) :
  exists s,
    decodeResp abi data = Ok s /\
    (s = "execution reverted"%string \/
     s = "could not decode the response"%string \/
     (exists n, decodeUint256 abi data = Ok n /\ s = toString10 n) \/
     decodeAddress abi data = Ok s \/
     (exists p, decodeUint256Pair abi data = Ok p /\ s = toString10 (fst p)) \/
     decodeString abi data = Ok s \/
     decodeString abi ("0x" ++ slice data 10 None)%string = Ok s) /\
    (len data <= 2 -> s = "execution reverted"%string).
Proof.
  unfold decodeResp.
  destruct (String.eqb data "" || (len data <=? 2)) eqn:Eshort.
  { eexists. split; [reflexivity|]. split; [now left | reflexivity]. }
  apply orb_false_iff in Eshort as [_ Hlen]. apply Z.leb_gt in Hlen.
  assert (forall s : string, len data <= 2 -> s = "execution reverted"%string) as Hno
    by (intros; lia).
  destruct (len data =? 66).
  { unfold decodeWord.
    destruct (decodeUint256 abi data) as [n|e] eqn:Eu; cbn [bind try_catch].
    - destruct ((n =? 57005)%N || _).
      + destruct (decodeAddress abi data) as [a|e] eqn:Ea; cbn [try_catch];
          eexists; (split; [reflexivity|]); (split; [|apply Hno]).
        * do 3 right. left. reflexivity.
        * do 2 right. left. exists n. split; reflexivity.
      + eexists. split; [reflexivity|]. split; [|apply Hno].
        do 2 right. left. exists n. split; reflexivity.
    - destruct (decodeAddress abi data) as [a|e'] eqn:Ea; cbn [try_catch];
        eexists; (split; [reflexivity|]); (split; [|apply Hno]).
      + do 3 right. left. reflexivity.
      + left. reflexivity. }
  destruct (len data =? 130).
  { destruct (decodeUint256Pair abi data) as [p|e] eqn:Ep; cbn [bind try_catch];
      eexists; (split; [reflexivity|]); (split; [|apply Hno]).
    - do 4 right. left. exists p. split; reflexivity.
    - left. reflexivity. }
  destruct (len data =? 194).
  { destruct (decodeString abi data) as [r|e] eqn:Es; cbn [try_catch];
      eexists; (split; [reflexivity|]); (split; [|apply Hno]).
    - do 5 right. left. reflexivity.
    - left. reflexivity. }
  destruct (194 <? len data).
  { eexists. split; [reflexivity|]. split; [|apply Hno]. right. left. reflexivity. }
  destruct (len data <=? 10).
  { eexists. split; [reflexivity|]. split; [|apply Hno]. left. reflexivity. }
  destruct (decodeString abi _) as [r|e] eqn:Es; cbn [try_catch];
    eexists; (split; [reflexivity|]); (split; [|apply Hno]).
  - do 6 right. reflexivity.
  - left. reflexivity.
Qed.

Lemma decodeResp_total_witness :
  exists s,
    decodeResp (Viem.decoder noStringDecoder) "0x" = Ok s /\ s = "execution reverted"%string.
Proof.
  destruct (decodeResp_total (Viem.decoder noStringDecoder) "0x") as (s & Hs & _ & Hshort).
  exists s. split; [exact Hs|]. apply Hshort. vm_compute. discriminate.
Defined.

Example decodeResp_examples :
  decodeResp (Viem.decoder noStringDecoder) "0x" = Ok "execution reverted"%string /\
  decodeResp (Viem.decoder noStringDecoder) "" = Ok "execution reverted"%string /\
  decodeResp (Viem.decoder noStringDecoder)
    "0x000000000000000000000000000000000000000000000000000000000000002a"
    = Ok "42"%string /\
  decodeResp (Viem.decoder noStringDecoder)
    "0x00000000000000000000000000000000000000000000000000000000000000zz"
    = Ok "execution reverted"%string /\
  decodeResp (Viem.decoder noStringDecoder)
    "0x000000000000000000000000a180Fe01B906A1bE37BE6c534a3300785b20d947"
    = Ok "0xa180Fe01B906A1bE37BE6c534a3300785b20d947"%string.
Proof. repeat split; vm_compute; reflexivity. Qed.

(** Keccak-256 of the empty input, and two EIP-55 test addresses. *)
Example keccak_vectors :
  Viem.bytesToHex (Viem.keccak256 []) =
    "0xc5d2460186f7233c927e7db2dcc703c0e500b653ca82273b7bfad8045d85a470"%string /\
  Viem.checksumAddress "0x5aaeb6053f3e94c9b9a09f33669435e7ef1beaed" =
    "0x5aAeb6053F3E94C9b9A09f33669435E7Ef1BeAed"%string /\
  Viem.checksumAddress "0xfb6916095ca1df60bb79ce92ce3ea74c37c5d359" =
    "0xfB6916095ca1df60bB79Ce92cE3Ea74c37c5d359"%string.
Proof. repeat split; vm_compute; reflexivity. Qed.


(** [decodeResp] never throws. *)
Lemma decodeResp_returns (abi : AbiDecoder) (data : string) :
  exists s, decodeResp abi data = Ok s.
Proof.
  unfold decodeResp, decodeWord, try_catch, bind.
  repeat match goal with
    | |- context [match ?x with _ => _ end] => destruct x
    end; eexists; reflexivity.
Qed.

End DecodeFacts.

(* ===================================================================== *)
(** * Properties of the proxy resolution *)
(* ===================================================================== *)

Module ProxyFacts.
Import ProxyProps.
Import JS Proxy.
Local Open Scope list_scope.




Lemma resolveViaBeacon_result (client : PublicClient) (address : string)
      (log log' : list Request) (r : ProxyInfo) :
  resolveViaBeacon client address log = (Ok r, log') ->
  r = emptyResult address \/ validated client address r.
Proof.
  unfold resolveViaBeacon, bindA, await, lift, ret.
  repeat match goal with
    | |- context [match ?x with _ => _ end] => destruct x eqn:?
    end;
    intros H; inversion H; subst; clear H; try (left; reflexivity); try discriminate.
  right. unfold validated. cbn. repeat split; assumption.
Qed.


Lemma detect_result (client : PublicClient) (address : string)
      (log log' : list Request) (r : ProxyInfo) :
  detectProxyImplementation client address log = (Ok r, log') ->
  r = emptyResult address \/ validated client address r.
Proof.
  unfold detectProxyImplementation, bindA, await, lift, ret.
  destruct (getStorageAt client address IMPLEMENTATION_SLOT) as [slot|e]; [|discriminate].
  destruct (slotToAddress slot) as [[impl|]|e]; [| |discriminate].
  - destruct (getCode client impl) as [[code|]|e] eqn:Ecode; [| |discriminate].
    + destruct (nonEmptyHex (Some code)) eqn:Ene.
      * intros H. inversion H; subst. right. unfold validated. cbn. auto.
      * apply resolveViaBeacon_result.
    + apply resolveViaBeacon_result.
  - apply resolveViaBeacon_result.
Qed.










Example detect_on_chainWithoutCode :
  detectProxyImplementation chainWithoutCode target [] =
    (Ok (mkInfo false target "0x0000000000000000000000000000000000000000" "0x"),
     [GetStorageAt target IMPLEMENTATION_SLOT;
      GetCode "0x00000000000000000000000000000000000000A1";
      GetStorageAt target BEACON_SLOT]).
Proof. vm_compute. reflexivity. Qed.


(** ** Addresses *)

Lemma hex_upperChar (c : ascii) :
  Viem.charCodeToBase16 (upperChar c) = None <-> Viem.charCodeToBase16 c = None.
Proof.
  destruct c as [[] [] [] [] [] [] [] []]; vm_compute;
    split; intros H; (reflexivity || discriminate H).
Qed.

Lemma hex_lowerChar (c : ascii) :
  Viem.charCodeToBase16 (lowerChar c) = None <-> Viem.charCodeToBase16 c = None.
Proof.
  destruct c as [[] [] [] [] [] [] [] []]; vm_compute;
    split; intros H; (reflexivity || discriminate H).
Qed.

Lemma allHex_cons (f : ascii -> ascii) (c : ascii) (a b : string) :
  (Viem.charCodeToBase16 (f c) = None <-> Viem.charCodeToBase16 c = None) ->
  Viem.allHex a = Viem.allHex b ->
  Viem.allHex (String (f c) a) = Viem.allHex (String c b).
Proof.
  intros [H1 H2] E. cbn.
  destruct (Viem.charCodeToBase16 (f c)) eqn:E1, (Viem.charCodeToBase16 c) eqn:E2;
    try reflexivity; try exact E.
  - specialize (H2 eq_refl). discriminate H2.
  - specialize (H1 eq_refl). discriminate H1.
Qed.

Lemma allHex_toLowerCase (s : string) : Viem.allHex (toLowerCase s) = Viem.allHex s.
Proof.
  induction s as [|c s IH]; [reflexivity|].
  apply (allHex_cons lowerChar); [apply hex_lowerChar | exact IH].
Qed.

Lemma allHex_toUpperCase (s : string) : Viem.allHex (toUpperCase s) = Viem.allHex s.
Proof.
  induction s as [|c s IH]; [reflexivity|].
  apply (allHex_cons upperChar); [apply hex_upperChar | exact IH].
Qed.

Lemma applyChecksum_length (h : string) (hash : list N) : forall k,
  String.length (Viem.applyChecksum h hash k) = String.length h.
Proof. induction h as [|c h IH]; intros k; cbn; [reflexivity | now rewrite IH]. Qed.

Lemma applyChecksum_allHex (h : string) (hash : list N) : forall k,
  Viem.allHex (Viem.applyChecksum h hash k) = Viem.allHex h.
Proof.
  induction h as [|c h IH]; intros k; [reflexivity|].
  cbn [Viem.applyChecksum]. cbv zeta.
  destruct (8 <=? _)%N.
  - apply (allHex_cons upperChar); [apply hex_upperChar | apply IH].
  - apply (allHex_cons (fun c => c)); [tauto | apply IH].
Qed.

Lemma applyChecksum_lower (h : string) (hash : list N) : forall k,
  toLowerCase (Viem.applyChecksum h hash k) = toLowerCase h.
Proof.
  induction h as [|c h IH]; intros k; [reflexivity|].
  cbn [Viem.applyChecksum]. cbv zeta. unfold toLowerCase in *. cbn [map].
  rewrite IH. destruct (8 <=? _)%N; [now rewrite JSFacts.lowerChar_upperChar | reflexivity].
Qed.

Lemma checksumAddress_digits (d : string) :
  Viem.checksumAddress ("0x" ++ d) =
    ("0x" ++ Viem.applyChecksum (toLowerCase d)
               (Viem.keccak256 (Viem.stringToBytes (toLowerCase d))) 0)%string.
Proof.
  unfold Viem.checksumAddress. cbv zeta.
  replace (slice ("0x" ++ d) 2 None) with d
    by (symmetry; apply (JSFacts.slice_append_r "0x" d)).
  reflexivity.
Qed.

(** The checksummed form differs from the address in letter case only. *)
Lemma checksumAddress_shape (d : string) :
  exists x, Viem.checksumAddress ("0x" ++ d) = ("0x" ++ x)%string /\
            String.length x = String.length d /\
            Viem.allHex x = Viem.allHex d /\
            toLowerCase x = toLowerCase d.
Proof.
  rewrite checksumAddress_digits. eexists. split; [reflexivity|]. split; [|split].
  - rewrite applyChecksum_length. apply (JSFacts.length_map lowerChar).
  - now rewrite applyChecksum_allHex, allHex_toLowerCase.
  - now rewrite applyChecksum_lower, JSFacts.toLowerCase_idempotent.
Qed.

Lemma checksumAddress_lower (d1 d2 : string) :
  toLowerCase d1 = toLowerCase d2 ->
  Viem.checksumAddress ("0x" ++ d1) = Viem.checksumAddress ("0x" ++ d2).
Proof. intros H. now rewrite !checksumAddress_digits, H. Qed.

Lemma isAddress_digits (d : string) :
  isAddress ("0x" ++ d) = (String.length d =? 40)%nat && Viem.allHex d.
Proof.
  unfold isAddress, startsWith.
  rewrite JSFacts.prefix_append, JSFacts.len_append.
  replace (slice ("0x" ++ d) 2 None) with d
    by (symmetry; apply (JSFacts.slice_append_r "0x" d)).
  cbn [andb]. f_equal. unfold len.
  change (Z.of_nat (String.length "0x")) with 2.
  destruct (Z.eqb_spec (2 + Z.of_nat (String.length d)) 42),
           (Nat.eqb_spec (String.length d) 40); (reflexivity || lia).
Qed.

Lemma isAddress_inv (a : string) :
  isAddress a = true ->
  exists d, a = ("0x" ++ d)%string /\ String.length d = 40%nat /\ Viem.allHex d = true.
Proof.
  intros H. pose proof H as H'. unfold isAddress in H'.
  apply andb_prop in H' as [H' _]. apply andb_prop in H' as [H' _].
  destruct (JSFacts.prefix_0x_inv a H') as (d & ->).
  rewrite isAddress_digits in H. apply andb_prop in H as [Hl Hh].
  apply Nat.eqb_eq in Hl. now exists d.
Qed.

Lemma isAddress_checksumAddress (d : string) :
  isAddress (Viem.checksumAddress ("0x" ++ d)) = isAddress ("0x" ++ d).
Proof.
  destruct (checksumAddress_shape d) as (x & -> & Hl & Hh & _).
  now rewrite !isAddress_digits, Hl, Hh.
Qed.

Lemma zeros_are_zeros :
  Forall (fun c => c = "0"%char)
    (list_ascii_of_string "0000000000000000000000000000000000000000").
Proof. cbn. repeat constructor. Qed.

(** The checksummed form of an address other than the zero address is not
    the zero address. *)
Lemma checksumAddress_nonzero (d : string) :
  ("0x" ++ d)%string <> zeroAddress -> Viem.checksumAddress ("0x" ++ d) <> zeroAddress.
Proof.
  intros Hne Hz. apply Hne.
  destruct (checksumAddress_shape d) as (x & Hx & _ & _ & Hlow).
  rewrite Hx in Hz. unfold zeroAddress in *. cbn in Hz. injection Hz as Hz. subst x.
  cbn. f_equal. f_equal.
  apply JSFacts.toLowerCase_zeros; [apply zeros_are_zeros|]. now rewrite <- Hlow.
Qed.

(** X7. What [slotToAddress] does with a storage value. It yields null for a
    missing or empty value, for "0x", and for a value whose last forty
    characters are all "0". It throws exactly when those last characters are
    fewer than forty or are not all hex digits. Otherwise it yields an
    address that passes [isAddress], differs from those forty characters in
    letter case only, and is never the zero address. *)
Theorem slotToAddress_cases :
  slotToAddress None = Ok None /\
  slotToAddress (Some ""%string) = Ok None /\
  slotToAddress (Some "0x"%string) = Ok None /\
  forall v : string,
    v <> ""%string -> v <> "0x"%string ->
    let last := slice v (-40) None in
    if String.eqb last "0000000000000000000000000000000000000000"
    then slotToAddress (Some v) = Ok None
    else if (String.length last =? 40)%nat && Viem.allHex last
    then exists a,
           slotToAddress (Some v) = Ok (Some a) /\
           a = Viem.checksumAddress ("0x" ++ last) /\
           isAddress a = true /\ a <> zeroAddress /\
           toLowerCase a = ("0x" ++ toLowerCase last)%string
    else exists e, slotToAddress (Some v) = Throw e.
Proof.
  split; [reflexivity|]. split; [reflexivity|]. split; [reflexivity|].
  intros v Hv Hv'. cbv zeta.
  unfold slotToAddress, nonEmptyHex.
  destruct (String.eqb_spec v "") as [|_]; [contradiction|].
  destruct (String.eqb_spec v "0x") as [|_]; [contradiction|].
  cbn [negb andb]. cbv zeta.
  set (s := slice v (-40) None).
  change (String.eqb ("0x" ++ s) "0x0000000000000000000000000000000000000000")
    with (String.eqb s "0000000000000000000000000000000000000000").
  destruct (String.eqb_spec s "0000000000000000000000000000000000000000") as [E|E];
    [reflexivity|].
  unfold getAddress. rewrite isAddress_digits.
  destruct ((String.length s =? 40)%nat && Viem.allHex s) eqn:Ea; cbn [bind].
  - eexists. split; [reflexivity|]. split; [reflexivity|]. split; [|split].
    + now rewrite isAddress_checksumAddress, isAddress_digits.
    + apply checksumAddress_nonzero. unfold zeroAddress. cbn. congruence.
    + destruct (checksumAddress_shape s) as (x & -> & _ & _ & Hlow).
      unfold toLowerCase in *. rewrite JSFacts.map_append. now rewrite Hlow.
  - eexists. reflexivity.
Qed.

(** The theorem at a word that holds the address 0x…a1. *)
Lemma slotToAddress_cases_witness :
  exists a,
    slotToAddress (Some someWord) = Ok (Some a) /\
    a = Viem.checksumAddress ("0x" ++ "00000000000000000000000000000000000000a1") /\
    isAddress a = true /\ a <> zeroAddress /\
    toLowerCase a = ("0x" ++ toLowerCase "00000000000000000000000000000000000000a1")%string.
Proof.
  pose proof (proj2 (proj2 (proj2 slotToAddress_cases)) someWord) as H.
  specialize (H ltac:(discriminate) ltac:(discriminate)).
  exact H.
Defined.

Lemma slotToAddress_some (value : option string) (a : string) :
  slotToAddress value = Ok (Some a) -> isAddress a = true /\ a <> zeroAddress.
Proof.
  destruct value as [v|]; [|discriminate].
  unfold slotToAddress. destruct (negb _); [discriminate|]. cbv zeta.
  destruct (String.eqb_spec ("0x" ++ slice v (-40) None)
              "0x0000000000000000000000000000000000000000") as [E|E]; [discriminate|].
  unfold getAddress. destruct (isAddress _) eqn:Ea; [|discriminate].
  cbn [bind]. intros H. injection H as <-. split.
  - exact (eq_trans (isAddress_checksumAddress (slice v (-40) None)) Ea).
  - exact (checksumAddress_nonzero (slice v (-40) None) E).
Qed.

Ltac allowed_requests :=
  repeat match goal with
    | |- Forall _ [] => constructor
    | |- Forall _ (_ :: _) => constructor
    | |- allowed _ _ => cbn [allowed]
    | |- _ /\ _ => split
    | |- ?x = ?x => reflexivity
    | |- _ = _ \/ _ = _ => (left; reflexivity) || (right; reflexivity)
    | H : slotToAddress _ = Ok (Some ?a) |- isAddress ?a = true =>
        exact (proj1 (slotToAddress_some _ _ H))
    end.

Lemma resolveViaBeacon_requests (client : PublicClient) (address : string)
      (log : list Request) :
  exists reqs,
    snd (resolveViaBeacon client address log) =
      log ++ GetStorageAt address BEACON_SLOT :: reqs /\
    (List.length reqs <= 2)%nat /\ (callCount reqs <= 1)%nat /\
    Forall (allowed address) reqs.
Proof.
  unfold resolveViaBeacon, bindA, await, lift, ret.
  repeat match goal with
    | |- context [match ?x with _ => _ end] => destruct x eqn:?
    end; cbn [snd];
    rewrite <- ?app_assoc; cbn [app]; eexists;
    (split; [reflexivity|]); (split; [cbn; lia|]); (split; [cbn; lia|]);
    allowed_requests.
Qed.

(** The log of a resolution: the read of the implementation slot, then
    at most four more requests. *)
Lemma detect_log (client : PublicClient) (address : string) (log : list Request) :
  exists reqs,
    snd (detectProxyImplementation client address log) =
      log ++ GetStorageAt address IMPLEMENTATION_SLOT :: reqs /\
    (List.length reqs <= 4)%nat.
Proof.
  unfold detectProxyImplementation, resolveViaBeacon, bindA, await, lift, ret.
  repeat match goal with
    | |- context [match ?x with _ => _ end] => destruct x
    end; cbn [snd];
    rewrite <- ?app_assoc; cbn [app]; eexists; (split; [reflexivity | cbn; lia]).
Qed.

Lemma resolveViaBeacon_nonzero (client : PublicClient) (address : string)
      (log log' : list Request) (r : ProxyInfo) :
  resolveViaBeacon client address log = (Ok r, log') ->
  isProxy r = true ->
  isAddress (implementation r) = true /\ implementation r <> zeroAddress.
Proof.
  unfold resolveViaBeacon, bindA, await, lift, ret.
  repeat match goal with
    | |- context [match ?x with _ => _ end] => destruct x eqn:?
    end;
    intros H; inversion H; subst; clear H; cbn; try discriminate.
  intros _. eapply slotToAddress_some; eassumption.
Qed.

Lemma detect_nonzero (client : PublicClient) (address : string)
      (log log' : list Request) (r : ProxyInfo) :
  detectProxyImplementation client address log = (Ok r, log') ->
  isProxy r = true ->
  isAddress (implementation r) = true /\ implementation r <> zeroAddress.
Proof.
  unfold detectProxyImplementation, bindA, await, lift, ret.
  destruct (getStorageAt client address IMPLEMENTATION_SLOT) as [slot|e]; [|discriminate].
  destruct (slotToAddress slot) as [[impl|]|e] eqn:Eslot; [| |discriminate].
  - destruct (getCode client impl) as [[code|]|e] eqn:Ecode; [| |discriminate].
    + destruct (nonEmptyHex (Some code)) eqn:Ene.
      * intros H _. inversion H; subst. cbn. eapply slotToAddress_some; eassumption.
      * apply resolveViaBeacon_nonzero.
    + apply resolveViaBeacon_nonzero.
  - apply resolveViaBeacon_nonzero.
Qed.


(** X8. The requests of one proxy resolution, whether it returns or
    throws: it begins by reading the implementation slot of the address
    asked about, sends at most five requests in all, of which at most one
    is a call; it reads storage of that address only and only at the two
    EIP-1967 slots, calls nothing but [implementation()], and looks up code
    or calls only at well-formed addresses. *)
Theorem detectProxyImplementation_requests (client : PublicClient) (address : string)
        (log : list Request) :
  exists reqs,
    snd (detectProxyImplementation client address log) =
      log ++ GetStorageAt address IMPLEMENTATION_SLOT :: reqs /\
    (List.length reqs <= 4)%nat /\ (callCount reqs <= 1)%nat /\
    Forall (allowed address) reqs.
Proof.
  unfold detectProxyImplementation, bindA, await, lift, ret.
  destruct (getStorageAt client address IMPLEMENTATION_SLOT) as [slot|e];
    [|exists []; cbn; repeat split; auto].
  destruct (slotToAddress slot) as [[impl|]|e] eqn:Eslot;
    [| |exists []; cbn; repeat split; auto].
  - assert (Hvia :
      exists reqs,
        snd (resolveViaBeacon client address
               ((log ++ [GetStorageAt address IMPLEMENTATION_SLOT]) ++ [GetCode impl])) =
          log ++ GetStorageAt address IMPLEMENTATION_SLOT :: reqs /\
        (List.length reqs <= 4)%nat /\ (callCount reqs <= 1)%nat /\
        Forall (allowed address) reqs).
    { destruct (resolveViaBeacon_requests client address
                  ((log ++ [GetStorageAt address IMPLEMENTATION_SLOT]) ++ [GetCode impl]))
        as (reqs & -> & Hl & Hc & Hall).
      exists (GetCode impl :: GetStorageAt address BEACON_SLOT :: reqs).
      rewrite <- !app_assoc. cbn [app]. split; [reflexivity|].
      split; [cbn; lia|]. split; [exact Hc|].
      constructor; [exact (proj1 (slotToAddress_some _ _ Eslot))|].
      constructor; [|exact Hall]. cbn. auto. }
    destruct (getCode client impl) as [[code|]|e].
    + destruct (nonEmptyHex (Some code)); [|exact Hvia].
      exists [GetCode impl]. cbn [snd]. rewrite <- app_assoc. cbn [app].
      split; [reflexivity|]. split; [cbn; lia|]. split; [cbn; lia|].
      constructor; [exact (proj1 (slotToAddress_some _ _ Eslot)) | constructor].
    + exact Hvia.
    + exists [GetCode impl]. cbn [snd]. rewrite <- app_assoc. cbn [app].
      split; [reflexivity|]. split; [cbn; lia|]. split; [cbn; lia|].
      constructor; [exact (proj1 (slotToAddress_some _ _ Eslot)) | constructor].
  - destruct (resolveViaBeacon_requests client address
                (log ++ [GetStorageAt address IMPLEMENTATION_SLOT]))
      as (reqs & -> & Hl & Hc & Hall).
    exists (GetStorageAt address BEACON_SLOT :: reqs).
    rewrite <- app_assoc. cbn [app]. split; [reflexivity|].
    split; [cbn; lia|]. split; [exact Hc|].
    constructor; [|exact Hall]. cbn. auto.
Qed.

End ProxyFacts.

(* ===================================================================== *)
(** * Properties of the address validator *)
(* ===================================================================== *)

Module AddressValidatorFacts.
Import JS Proxy AddressValidator.
Local Open Scope list_scope.

Lemma validate_digits (d : string) :
  validateEVMAddress ("0x" ++ d) =
    if (String.length d =? 40)%nat && Viem.allHex d
    then Some (Viem.checksumAddress ("0x" ++ d)) else None.
Proof.
  unfold validateEVMAddress, getAddress.
  rewrite ProxyFacts.isAddress_digits.
  now destruct ((String.length d =? 40)%nat && Viem.allHex d).
Qed.

(** X9. [validateEVMAddress] yields null exactly on the texts that are not
    "0x" followed by forty hex digits. On any other text it yields an
    address that is itself of that form, differs from the text in letter
    case only, and is a fixed point of the validation; and the result does
    not depend on the letter case of the forty digits. *)
Theorem validateEVMAddress_spec (text : string) :
  match validateEVMAddress text with
  | None => isAddress text = false
  | Some a =>
      isAddress text = true /\ isAddress a = true /\
      toLowerCase a = toLowerCase text /\
      validateEVMAddress a = Some a /\
      validateEVMAddress (toLowerCase text) = Some a /\
      (forall d, text = ("0x" ++ d)%string ->
                 validateEVMAddress ("0x" ++ toUpperCase d) = Some a)
  end.
Proof.
  destruct (isAddress text) eqn:E.
  - destruct (ProxyFacts.isAddress_inv text E) as (d & -> & Hl & Hh).
    rewrite validate_digits, Hl, Hh. cbn [Nat.eqb andb].
    change ((40 =? 40)%nat) with true. cbn [andb].
    destruct (ProxyFacts.checksumAddress_shape d) as (x & Hx & Hxl & Hxh & Hlow).
    split; [reflexivity|]. split; [|split; [|split; [|split]]].
    + now rewrite ProxyFacts.isAddress_checksumAddress.
    + rewrite Hx. unfold toLowerCase in *. rewrite !JSFacts.map_append. now rewrite Hlow.
    + rewrite Hx at 1. rewrite validate_digits, Hxl, Hxh, Hl, Hh.
      change ((40 =? 40)%nat) with true. cbn [andb]. f_equal.
      now apply ProxyFacts.checksumAddress_lower.
    + unfold toLowerCase at 1. rewrite JSFacts.map_append.
      change (map lowerChar "0x") with "0x"%string.
      fold (toLowerCase d).
      rewrite validate_digits, ProxyFacts.allHex_toLowerCase, Hh.
      unfold toLowerCase at 1. rewrite JSFacts.length_map, Hl.
      change ((40 =? 40)%nat) with true. cbn [andb]. f_equal.
      apply ProxyFacts.checksumAddress_lower. apply JSFacts.toLowerCase_idempotent.
    + intros d' Hd. cbn in Hd. injection Hd as <-.
      rewrite validate_digits, ProxyFacts.allHex_toUpperCase, Hh.
      unfold toUpperCase at 1. rewrite JSFacts.length_map, Hl.
      change ((40 =? 40)%nat) with true. cbn [andb]. f_equal.
      apply ProxyFacts.checksumAddress_lower. apply JSFacts.toLowerCase_upper.
  - unfold validateEVMAddress. rewrite E. reflexivity.
Qed.

Example validateEVMAddress_examples :
  validateEVMAddress "0x5c952063c7fc8610ffdb798152d69f0b9550762b" =
    Some "0x5c952063c7fc8610FFDB798152D69F0B9550762b"%string /\
  validateEVMAddress "0X5c952063c7fc8610ffdb798152d69f0b9550762b" = None /\
  validateEVMAddress "0x5c952063c7fc8610ffdb798152d69f0b9550762" = None /\
  validateEVMAddress "5c952063c7fc8610ffdb798152d69f0b9550762b" = None.
Proof. vm_compute. repeat split; reflexivity. Qed.


(** The theorem at an address in lower case, validated again with its
    digits in upper case. *)
Lemma validateEVMAddress_spec_witness :
  validateEVMAddress ("0x" ++ toUpperCase "5c952063c7fc8610ffdb798152d69f0b9550762b") =
    Some "0x5c952063c7fc8610FFDB798152D69F0B9550762b"%string.
Proof.
  pose proof (validateEVMAddress_spec "0x5c952063c7fc8610ffdb798152d69f0b9550762b") as H.
  assert (validateEVMAddress "0x5c952063c7fc8610ffdb798152d69f0b9550762b" =
          Some "0x5c952063c7fc8610FFDB798152D69F0B9550762b"%string) as E
    by (vm_compute; reflexivity).
  rewrite E in H. destruct H as (_ & _ & _ & _ & _ & H).
  apply (H "5c952063c7fc8610ffdb798152d69f0b9550762b"). reflexivity.
Defined.

End AddressValidatorFacts.

(* ===================================================================== *)
(** * Properties of the network checker *)
(* ===================================================================== *)

Module NetworkCheckerFacts.
Import ProxyProps.
Import JS Proxy.
Local Open Scope list_scope.

(** X10. What [checkContractInNetwork] reports when it returns. Its first
    request is the code lookup at the address, followed by at most five
    more. isContract tells whether that code is non-empty; when it is
    empty nothing else is requested. When isProxy is reported, isContract
    is too, and the implementation is a well-formed address other than the
    zero address whose code, as the client reports it, is the non-empty
    bytecode returned. When isProxy is not reported, the implementation is
    the zero address and the bytecode "0x". *)
Theorem checkContractInNetwork_spec (client : PublicClient) (address : string)
        (log log' : list Request) (r : NetworkChecker.ContractInfo) :
  NetworkChecker.checkContractInNetwork client address log = (Ok r, log') ->
  exists code reqs,
    getCode client address = Ok code /\
    log' = log ++ GetCode address :: reqs /\
    (List.length reqs <= 5)%nat /\
    NetworkChecker.isContract r = nonEmptyHex code /\
    (NetworkChecker.isContract r = false -> reqs = []) /\
    if NetworkChecker.isProxy r
    then NetworkChecker.isContract r = true /\
         isAddress (NetworkChecker.implementation r) = true /\
         NetworkChecker.implementation r <> zeroAddress /\
         getCode client (NetworkChecker.implementation r)
           = Ok (Some (NetworkChecker.implementationBytecode r)) /\
         nonEmptyHex (Some (NetworkChecker.implementationBytecode r)) = true
    else NetworkChecker.implementation r = zeroAddress /\
         NetworkChecker.implementationBytecode r = "0x"%string.
Proof.
  unfold NetworkChecker.checkContractInNetwork, bindA, await, ret.
  destruct (getCode client address) as [code|e]; [|discriminate].
  destruct (nonEmptyHex code) eqn:En; cbn [negb].
  - destruct (detectProxyImplementation client address (log ++ [GetCode address]))
      as [[info|e] l2] eqn:Ed; [|discriminate].
    intros H. inversion H; subst; clear H. cbn.
    destruct (ProxyFacts.detect_log client address (log ++ [GetCode address]))
      as (reqs & Hlog & Hlen).
    rewrite Ed in Hlog. cbn [snd] in Hlog. rewrite <- app_assoc in Hlog. cbn [app] in Hlog.
    exists code, (GetStorageAt address IMPLEMENTATION_SLOT :: reqs).
    split; [reflexivity|]. split; [exact Hlog|]. split; [cbn; lia|].
    split; [now rewrite En|]. split; [discriminate|].
    destruct (isProxy info) eqn:Ep; [|split; reflexivity].
    destruct (ProxyFacts.detect_nonzero _ _ _ _ _ Ed Ep) as [Ha Hz].
    destruct (ProxyFacts.detect_result _ _ _ _ _ Ed) as [->|(_ & _ & Hc & Hne)];
      [discriminate Ep|].
    repeat split; assumption.
  - intros H. inversion H; subst; clear H. cbn.
    exists code, []. rewrite En. repeat split; auto. cbn. lia.
Qed.

Lemma checkContractInNetwork_spec_witness :
  exists code reqs,
    getCode chainWithProxy target = Ok code /\
    [GetCode target; GetStorageAt target IMPLEMENTATION_SLOT;
     GetCode "0x00000000000000000000000000000000000000A1"]
      = [] ++ GetCode target :: reqs /\
    (List.length reqs <= 5)%nat /\
    true = nonEmptyHex code /\
    (true = false -> reqs = []) /\
    (true = true /\
     isAddress "0x00000000000000000000000000000000000000A1" = true /\
     "0x00000000000000000000000000000000000000A1"%string <> zeroAddress /\
     getCode chainWithProxy "0x00000000000000000000000000000000000000A1"
       = Ok (Some "0x6080"%string) /\
     nonEmptyHex (Some "0x6080"%string) = true).
Proof.
  apply (checkContractInNetwork_spec chainWithProxy target []
           [GetCode target; GetStorageAt target IMPLEMENTATION_SLOT;
            GetCode "0x00000000000000000000000000000000000000A1"]
           (NetworkChecker.mkContractInfo true true
              "0x00000000000000000000000000000000000000A1" "0x6080")).
  vm_compute. reflexivity.
Defined.

End NetworkCheckerFacts.

(* ===================================================================== *)
(** * Properties of the response decoder over viem's decoding *)
(* ===================================================================== *)

Module ViemDecodeFacts.
Import DecodeProps.
Import JS Decode.
Local Open Scope list_scope.

(** ** The number of decimal digits *)

Lemma length_string_of_uint (d : Decimal.uint) :
  String.length (DecimalString.NilEmpty.string_of_uint d) = Decimal.nb_digits d.
Proof. induction d; cbn; congruence. Qed.

Lemma of_uint_acc_bounds (d : Decimal.uint) : forall acc : positive,
  (Npos acc * 10 ^ N.of_nat (Decimal.nb_digits d) <= Npos (Pos.of_uint_acc d acc)
   < (Npos acc + 1) * 10 ^ N.of_nat (Decimal.nb_digits d))%N.
Proof.
  induction d; intros acc; cbn [Pos.of_uint_acc Decimal.nb_digits];
    [cbn; lia | ..];
    rewrite Nat2N.inj_succ, N.pow_succ_r';
    match goal with
    | |- context [Pos.of_uint_acc d ?a] => specialize (IHd a)
    end;
    set (P := (10 ^ N.of_nat (Decimal.nb_digits d))%N) in *;
    assert (P <> 0)%N by (apply N.pow_nonzero; lia);
    nia.
Qed.

(** The decimal writing of a positive number does not start with 0. *)
Lemma to_uint_head (p : positive) :
  match Pos.to_uint p with
  | Decimal.Nil | Decimal.D0 _ => False
  | _ => True
  end.
Proof.
  pose proof (DecimalPos.Unsigned.to_uint_nonzero p) as Hnz.
  pose proof (DecimalN.Unsigned.to_of (Pos.to_uint p)) as Hn.
  change (N.of_uint (Pos.to_uint p)) with (Pos.of_uint (Pos.to_uint p)) in Hn.
  rewrite DecimalPos.Unsigned.of_to in Hn. cbn [N.to_uint] in Hn.
  destruct (Pos.to_uint p) as [|d| | | | | | | | |] eqn:E; try exact I.
  - discriminate Hn.
  - destruct d as [| | | | | | | | | |]; [now apply Hnz | ..];
      match type of Hn with
      | Decimal.D0 ?u = _ =>
          pose proof (DecimalFacts.nb_digits_unorm u ltac:(discriminate)) as Hle;
          change (Decimal.unorm (Decimal.D0 u)) with (Decimal.unorm u) in Hn;
          rewrite <- Hn in Hle; cbn in Hle; lia
      end.
Qed.

(** A positive integer whose decimal text has L characters lies between
    10^(L-1) and 10^L. *)
Lemma toString10_digits (n : N) :
  (0 < n)%N ->
  (10 ^ (N.of_nat (String.length (toString10 n)) - 1) <= n
   < 10 ^ N.of_nat (String.length (toString10 n)))%N.
Proof.
  destruct n as [|p]; [lia|]. intros _.
  unfold toString10. rewrite length_string_of_uint. cbn [N.to_uint].
  pose proof (to_uint_head p) as Hh.
  pose proof (DecimalPos.Unsigned.of_to p) as Hv.
  destruct (Pos.to_uint p) as [|d|d|d|d|d|d|d|d|d|d]; try contradiction;
    cbn [Pos.of_uint] in Hv; injection Hv as Hv;
    cbn [Decimal.nb_digits]; rewrite Nat2N.inj_succ, N.sub_1_r, N.pred_succ, N.pow_succ_r';
    match type of Hv with
    | Pos.of_uint_acc d ?a = _ => pose proof (of_uint_acc_bounds d a) as Hb
    end;
    rewrite Hv in Hb;
    set (P := (10 ^ N.of_nat (Decimal.nb_digits d))%N) in *; lia.
Qed.

(** The length test of the address heuristic, as a range of integers. *)
Lemma looksLikeAddress_range (n : N) :
  looksLikeAddress n =
    (n =? 57005)%N || ((10 ^ 35 <=? n)%N && (n <? 10 ^ 50)%N).
Proof.
  unfold looksLikeAddress. f_equal.
  destruct (N.eq_dec n 0) as [->|Hn]; [vm_compute; reflexivity|].
  pose proof (toString10_digits n ltac:(lia)) as [Hlo Hhi].
  unfold len. set (L := String.length (toString10 n)) in *.
  assert (Hmono : forall b c : N, (b <= c)%N -> (10 ^ b <= 10 ^ c)%N)
    by (intros b c Hbc; apply N.pow_le_mono_r; [discriminate | exact Hbc]).
  assert (H1 : 35 < Z.of_nat L <-> (10 ^ 35 <= n)%N).
  { split; intros H.
    - apply N.le_trans with (m := (10 ^ (N.of_nat L - 1))%N); [|exact Hlo].
      apply Hmono. lia.
    - destruct (Z.lt_ge_cases 35 (Z.of_nat L)) as [Hlt|Hge]; [exact Hlt|]. exfalso.
      assert (10 ^ N.of_nat L <= 10 ^ 35)%N by (apply Hmono; lia). lia. }
  assert (H2 : Z.of_nat L < 51 <-> (n < 10 ^ 50)%N).
  { split; intros H.
    - apply N.lt_le_trans with (m := (10 ^ N.of_nat L)%N); [exact Hhi|].
      apply Hmono. lia.
    - destruct (Z.lt_ge_cases (Z.of_nat L) 51) as [Hlt|Hge]; [exact Hlt|]. exfalso.
      assert (10 ^ 50 <= 10 ^ (N.of_nat L - 1))%N by (apply Hmono; lia). lia. }
  destruct (Z.ltb_spec 35 (Z.of_nat L)), (Z.ltb_spec (Z.of_nat L) 51),
           (N.leb_spec (10 ^ 35) n), (N.ltb_spec n (10 ^ 50));
    cbn [andb]; try reflexivity; exfalso;
    generalize dependent (10 ^ 35)%N; generalize dependent (10 ^ 50)%N; intros; lia.
Qed.

(** ** The bytes of a hex text *)

Lemma hex_value (c : ascii) (n : N) :
  Viem.charCodeToBase16 c = Some n -> (n < 16)%N /\ hexDigit false n = lowerChar c.
Proof.
  destruct c as [[] [] [] [] [] [] [] []]; vm_compute; intros H;
    (discriminate H || (injection H as <-; split; reflexivity)).
Qed.

Lemma parsePairs_cons (l r : ascii) (rest : string) (bytes : list N) :
  Viem.parsePairs (String l (String r rest)) = Ok bytes ->
  exists nl nr t,
    Viem.charCodeToBase16 l = Some nl /\ Viem.charCodeToBase16 r = Some nr /\
    Viem.parsePairs rest = Ok t /\ bytes = (nl * 16 + nr)%N :: t.
Proof.
  cbn [Viem.parsePairs].
  destruct (Viem.charCodeToBase16 l) as [nl|]; [|discriminate].
  destruct (Viem.charCodeToBase16 r) as [nr|]; [|discriminate].
  destruct (Viem.parsePairs rest) as [t|e]; [|discriminate].
  cbn [bind]. intros H. injection H as <-. now exists nl, nr, t.
Qed.

(** Writing the parsed bytes in hex gives the text back, in lower case. *)
Lemma bytesToHex_parsePairs (n : nat) : forall (s : string) (bytes : list N),
  (String.length s <= n)%nat ->
  Viem.parsePairs s = Ok bytes ->
  Viem.bytesToHex bytes = ("0x" ++ toLowerCase s)%string.
Proof.
  induction n as [|n IH]; intros s bytes Hn Hp.
  - destruct s; [|cbn in Hn; lia]. cbn in Hp. injection Hp as <-. reflexivity.
  - destruct s as [|l [|r rest]].
    + cbn in Hp. injection Hp as <-. reflexivity.
    + discriminate Hp.
    + destruct (parsePairs_cons l r rest bytes Hp) as (nl & nr & t & El & Er & Et & ->).
      destruct (hex_value l nl El) as [Hl Hcl]. destruct (hex_value r nr Er) as [Hr Hcr].
      specialize (IH rest t ltac:(cbn in Hn; lia) Et).
      unfold Viem.bytesToHex in *. cbn [fold_right].
      injection IH as IH. rewrite IH.
      assert ((nl * 16 + nr) / 16 = nl)%N as ->
        by (symmetry; apply (N.div_unique _ 16 nl nr); lia).
      assert ((nl * 16 + nr) mod 16 = nr)%N as ->
        by (symmetry; apply (N.mod_unique _ 16 nl nr); lia).
      rewrite Hcl, Hcr. reflexivity.
Qed.

(** The bytes from the [k]-th on are the bytes of the text from its
    [2k]-th character on. *)
Lemma parsePairs_skip (k : nat) : forall (s : string) (bytes : list N),
  Viem.parsePairs s = Ok bytes ->
  Viem.parsePairs (String.substring (2 * k) (String.length s - 2 * k) s)
    = Ok (skipn k bytes).
Proof.
  induction k as [|k IH]; intros s bytes Hp.
  - cbn [Nat.mul skipn]. rewrite Nat.sub_0_r, JSFacts.substring_0_all. exact Hp.
  - destruct s as [|l [|r rest]].
    + cbn in Hp. injection Hp as <-. reflexivity.
    + discriminate Hp.
    + destruct (parsePairs_cons l r rest bytes Hp) as (nl & nr & t & _ & _ & Et & ->).
      replace (2 * S k)%nat with (S (S (2 * k))) by lia.
      cbn [String.substring String.length Nat.sub skipn].
      now apply IH.
Qed.

Lemma word_address (digits : string) (bytes : list N) :
  String.length digits = 64%nat ->
  Viem.parsePairs digits = Ok bytes ->
  Viem.checksumAddress (Viem.bytesToHex (skipn 12 bytes)) =
    Viem.checksumAddress ("0x" ++ String.substring 24 40 digits).
Proof.
  intros Hlen Hp.
  pose proof (parsePairs_skip 12 digits bytes Hp) as Hs.
  rewrite Hlen in Hs. change (2 * 12)%nat with 24%nat in Hs.
  change (64 - 24)%nat with 40%nat in Hs.
  rewrite (bytesToHex_parsePairs _ _ _ (Nat.le_refl _) Hs).
  apply ProxyFacts.checksumAddress_lower. apply JSFacts.toLowerCase_idempotent.
Qed.

(** viem on two well-formed 32-byte words. *)
Lemma viem_pair (digits : string) :
  String.length digits = 128%nat -> Viem.allHex digits = true ->
  exists bytes,
    Viem.parsePairs digits = Ok bytes /\ List.length bytes = 64%nat /\
    Viem.decodeUint256Pair ("0x" ++ digits) =
      Ok (Viem.bytesToBigInt (firstn 32 bytes),
          Viem.bytesToBigInt (firstn 32 (skipn 32 bytes))).
Proof.
  intros Hlen Hhex.
  destruct (DecodeFacts.parsePairs_ok 64 digits Hlen Hhex) as (bytes & Hp & Hl).
  exists bytes. split; [exact Hp|]. split; [exact Hl|].
  assert (Viem.decodePrelude ("0x" ++ digits) = Ok bytes) as Hpre.
  { unfold Viem.decodePrelude, Viem.hexToBytes.
    replace (slice ("0x" ++ digits) 2 None) with digits
      by (symmetry; apply (JSFacts.slice_append_r "0x" digits)).
    rewrite Hlen.
    change (Nat.odd 128) with false. cbv iota. rewrite Hp. cbn [bind].
    rewrite Hl. change (64 =? 0)%nat with false. cbv iota.
    unfold Viem.size, startsWith. rewrite JSFacts.prefix_append.
    rewrite JSFacts.len_append. unfold len. rewrite Hlen. reflexivity. }
  unfold Viem.decodeUint256Pair, Viem.readWord.
  rewrite Hpre. cbn [bind]. rewrite Hl.
  change (0 + 32 <=? 64)%nat with true. change (32 + 32 <=? 64)%nat with true.
  cbv iota. cbn [bind skipn]. reflexivity.
Qed.

(** X16. With viem's decoding, a response of one 32-byte word is shown as
    an address exactly when the integer it encodes is 57005 or lies from
    10^35 up to, but not including, 10^50; the address shown is the
    checksummed form of the last forty hex digits of the word; any other
    word is shown as the decimal text of the integer. *)
Theorem decodeResp_word_range (decodeString : string -> Result string) (digits : string) :
  String.length digits = 64%nat -> Viem.allHex digits = true ->
  exists bytes,
    Viem.parsePairs digits = Ok bytes /\
    decodeResp (Viem.decoder decodeString) ("0x" ++ digits) =
      Ok (if (Viem.bytesToBigInt bytes =? 57005)%N
             || ((10 ^ 35 <=? Viem.bytesToBigInt bytes)%N
                 && (Viem.bytesToBigInt bytes <? 10 ^ 50)%N)
          then Viem.checksumAddress ("0x" ++ String.substring 24 40 digits)
          else toString10 (Viem.bytesToBigInt bytes)).
Proof.
  intros Hlen Hhex.
  destruct (DecodeFacts.viem_word digits Hlen Hhex) as (bytes & Hp & Hl & Hu & Ha).
  exists bytes. split; [exact Hp|].
  rewrite DecodeFacts.decodeResp_word_cases
    by (rewrite JSFacts.len_append; unfold len; rewrite Hlen; reflexivity).
  cbn [Viem.decoder decodeUint256 decodeAddress]. rewrite Hu, Ha.
  rewrite looksLikeAddress_range, (word_address digits bytes Hlen Hp). reflexivity.
Qed.

Lemma decodeResp_word_range_witness :
  exists bytes,
    Viem.parsePairs "000000000000000000000000000000000013426172c74d822b878fe800000000"
      = Ok bytes /\
    decodeResp (Viem.decoder noStringDecoder)
      ("0x" ++ "000000000000000000000000000000000013426172c74d822b878fe800000000") =
      Ok (if (Viem.bytesToBigInt bytes =? 57005)%N
             || ((10 ^ 35 <=? Viem.bytesToBigInt bytes)%N
                 && (Viem.bytesToBigInt bytes <? 10 ^ 50)%N)
          then Viem.checksumAddress
                 ("0x" ++ String.substring 24 40
                    "000000000000000000000000000000000013426172c74d822b878fe800000000")
          else toString10 (Viem.bytesToBigInt bytes)).
Proof.
  apply (decodeResp_word_range noStringDecoder
           "000000000000000000000000000000000013426172c74d822b878fe800000000");
    reflexivity.
Defined.

(** X17. With viem's decoding, a response of two 32-byte words is shown
    as the decimal text of the integer the first word encodes, whatever
    that integer and whatever the second word. *)
Theorem decodeResp_pair (decodeString : string -> Result string) (digits : string) :
  String.length digits = 128%nat -> Viem.allHex digits = true ->
  exists bytes,
    Viem.parsePairs digits = Ok bytes /\
    decodeResp (Viem.decoder decodeString) ("0x" ++ digits) =
      Ok (toString10 (Viem.bytesToBigInt (firstn 32 bytes))).
Proof.
  intros Hlen Hhex.
  destruct (viem_pair digits Hlen Hhex) as (bytes & Hp & _ & Hpair).
  exists bytes. split; [exact Hp|].
  unfold decodeResp.
  assert (len ("0x" ++ digits) = 130) as Hl
    by (rewrite JSFacts.len_append; unfold len; rewrite Hlen; reflexivity).
  rewrite Hl.
  change (String.eqb ("0x" ++ digits) "") with false.
  change (130 <=? 2) with false. change (130 =? 66) with false.
  change (130 =? 130) with true. cbv iota. cbn [orb].
  cbn [Viem.decoder decodeUint256Pair]. rewrite Hpair. reflexivity.
Qed.

Lemma decodeResp_pair_witness :
  exists bytes,
    Viem.parsePairs
      ("000000000000000000000000a180fe01b906a1be37be6c534a3300785b20d947"
       ++ "000000000000000000000000000000000000000000000000000000000000002a") = Ok bytes /\
    decodeResp (Viem.decoder noStringDecoder)
      ("0x" ++ ("000000000000000000000000a180fe01b906a1be37be6c534a3300785b20d947"
                ++ "000000000000000000000000000000000000000000000000000000000000002a")) =
      Ok (toString10 (Viem.bytesToBigInt (firstn 32 bytes))).
Proof.
  apply (decodeResp_pair noStringDecoder
           ("000000000000000000000000a180fe01b906a1be37be6c534a3300785b20d947"
            ++ "000000000000000000000000000000000000000000000000000000000000002a"));
    reflexivity.
Defined.

(** The four integers at the ends of the range: 10^35 - 1, 10^35,
    10^50 - 1 and 10^50. *)
Example decodeResp_range_examples :
  decodeResp (Viem.decoder noStringDecoder)
    "0x000000000000000000000000000000000013426172c74d822b878fe7ffffffff"
    = Ok "99999999999999999999999999999999999"%string /\
  decodeResp (Viem.decoder noStringDecoder)
    "0x000000000000000000000000000000000013426172c74d822b878fe800000000"
    = Ok "0x000000000013426172C74d822B878FE800000000"%string /\
  decodeResp (Viem.decoder noStringDecoder)
    "0x0000000000000000000000446c3b15f9926687d2c40534fdb563ffffffffffff"
    = Ok "0x6c3B15F9926687d2C40534fdb563FfFFfffFFFFF"%string /\
  decodeResp (Viem.decoder noStringDecoder)
    "0x0000000000000000000000446c3b15f9926687d2c40534fdb564000000000000"
    = Ok "100000000000000000000000000000000000000000000000000"%string.
Proof. repeat split; vm_compute; reflexivity. Qed.

End ViemDecodeFacts.

(* ===================================================================== *)
(** * Facts about objects used as maps *)
(* ===================================================================== *)

Module ObjectFacts.
Import Resolver JSObject.
Local Open Scope list_scope.

Lemma keys_setProperty_in {V} (obj : list (string * V)) (key : string) (v : V) :
  In key (keys obj) -> keys (setProperty obj key v) = keys obj.
Proof.
  induction obj as [|[k w] rest IH]; intros H; [contradiction|].
  cbn. destruct (String.eqb_spec k key) as [->|Hne]; [reflexivity|].
  cbn. f_equal. apply IH. destruct H as [H|H]; [contradiction | exact H].
Qed.

Lemma setProperty_new {V} (obj : list (string * V)) (key : string) (v : V) :
  ~ In key (keys obj) -> setProperty obj key v = obj ++ [(key, v)].
Proof.
  induction obj as [|[k w] rest IH]; intros H; [reflexivity|].
  cbn. destruct (String.eqb_spec k key) as [->|Hne].
  - exfalso. apply H. now left.
  - f_equal. apply IH. intros Hin. apply H. now right.
Qed.

Lemma keys_setProperty {V} (obj : list (string * V)) (key : string) (v : V) :
  forall k, In k (keys (setProperty obj key v)) <-> k = key \/ In k (keys obj).
Proof.
  intros k. destruct (in_dec string_dec key (keys obj)) as [Hin|Hnin].
  - rewrite keys_setProperty_in by exact Hin. split; [auto|].
    intros [->|H]; assumption.
  - rewrite setProperty_new by exact Hnin. unfold keys. rewrite map_app, in_app_iff.
    cbn. split; [intros [H|[H|[]]]; auto | intros [H|H]; auto].
Qed.

Lemma NoDup_setProperty {V} (obj : list (string * V)) (key : string) (v : V) :
  NoDup (keys obj) -> NoDup (keys (setProperty obj key v)).
Proof.
  intros H. destruct (in_dec string_dec key (keys obj)) as [Hin|Hnin].
  - now rewrite keys_setProperty_in.
  - rewrite setProperty_new by exact Hnin. unfold keys in *. rewrite map_app. cbn.
    apply NoDup_app; [exact H | repeat constructor; intros [] | ].
    intros x Hx [<-|[]]. contradiction.
Qed.

Lemma getProperty_setProperty_same {V} (obj : list (string * V)) (key : string) (v : V) :
  getProperty (setProperty obj key v) key = Some v.
Proof.
  induction obj as [|[k w] rest IH]; cbn.
  - now rewrite String.eqb_refl.
  - destruct (String.eqb k key) eqn:E; cbn; rewrite E; [reflexivity | exact IH].
Qed.

Lemma getProperty_setProperty_other {V} (obj : list (string * V)) (key k' : string) (v : V) :
  k' <> key -> getProperty (setProperty obj key v) k' = getProperty obj k'.
Proof.
  intros Hne. induction obj as [|[k w] rest IH]; cbn.
  - destruct (String.eqb_spec key k'); [congruence | reflexivity].
  - destruct (String.eqb_spec k key) as [->|Hk]; cbn.
    + destruct (String.eqb_spec key k'); [congruence | reflexivity].
    + destruct (String.eqb k k'); [reflexivity | exact IH].
Qed.

Lemma getProperty_keys {V} (obj : list (string * V)) (key : string) :
  In key (keys obj) <-> exists v, getProperty obj key = Some v.
Proof.
  induction obj as [|[k w] rest IH]; cbn.
  - split; [contradiction | intros (v & H); discriminate].
  - destruct (String.eqb_spec k key) as [->|Hne].
    + split; [eauto | auto].
    + rewrite <- IH. split; [intros [H|H]; [contradiction | exact H] | auto].
Qed.


Lemma length_keys {V} (obj : list (string * V)) : List.length (keys obj) = List.length obj.
Proof. apply length_map. Qed.

Lemma nth_error_keys {V} (obj : list (string * V)) (i : nat) :
  nth_error (keys obj) i = option_map fst (nth_error obj i).
Proof. apply nth_error_map. Qed.

Lemma nth_error_in_keys {V} (obj : list (string * V)) (i : nat) (k : string) (v : V) :
  nth_error obj i = Some (k, v) -> In k (keys obj).
Proof.
  intros H. apply nth_error_In in H. apply (in_map fst) in H. exact H.
Qed.

(** With no repeated key, the entry at a position is the one its key
    looks up. *)
Lemma getProperty_nth {V} (obj : list (string * V)) : forall i k v,
  NoDup (keys obj) -> nth_error obj i = Some (k, v) -> getProperty obj k = Some v.
Proof.
  induction obj as [|[k0 w] rest IH]; intros i k v Hnd Hi; [destruct i; discriminate|].
  cbn in Hnd. inversion Hnd as [|? ? Hnotin Hnd']; subst.
  destruct i as [|i]; cbn in Hi |- *.
  - injection Hi as -> ->. now rewrite String.eqb_refl.
  - destruct (String.eqb_spec k0 k) as [->|Hne].
    + exfalso. apply Hnotin. eapply nth_error_in_keys. exact Hi.
    + eapply IH; eassumption.
Qed.

(** Setting an existing key replaces the entry at its position and
    leaves the others where they are. *)
Lemma setProperty_nth {V} (obj : list (string * V)) : forall i k w v,
  NoDup (keys obj) -> nth_error obj i = Some (k, w) ->
  nth_error (setProperty obj k v) i = Some (k, v) /\
  forall j, j <> i -> nth_error (setProperty obj k v) j = nth_error obj j.
Proof.
  induction obj as [|[k0 w0] rest IH]; intros i k w v Hnd Hi; [destruct i; discriminate|].
  cbn in Hnd. inversion Hnd as [|? ? Hnotin Hnd']; subst.
  destruct i as [|i]; cbn in Hi.
  - injection Hi as -> ->. cbn. rewrite String.eqb_refl. split; [reflexivity|].
    intros [|j] Hj; [congruence | reflexivity].
  - cbn. destruct (String.eqb_spec k0 k) as [->|Hne].
    + exfalso. apply Hnotin. eapply nth_error_in_keys. exact Hi.
    + destruct (IH i k w v Hnd' Hi) as [Hat Helse]. split; [exact Hat|].
      intros [|j] Hj; [reflexivity|]. cbn. apply Helse. congruence.
Qed.

End ObjectFacts.

(* ===================================================================== *)
(** * Properties of the signature resolution *)
(* ===================================================================== *)

Module ResolverFacts.
Import ResolverProps.
Import JS Resolver.
Local Open Scope list_scope.

Lemma openchain_run (services : Services) (selector : string) (log : LookupLog) :
  openchain services selector log =
    (Ok (openchainName services selector), log ++ [(OpenChain, selector)]).
Proof.
  unfold openchain, tryA, bindA, await, ret, lift, openchainName.
  destruct (openchainApi services selector) as [[[|first rest]|]|e]; reflexivity.
Qed.

Lemma fourByte_run (services : Services) (selector : string) (log : LookupLog) :
  fourByte services selector log =
    (Ok (fourByteName services selector), log ++ [(FourByte, selector)]).
Proof.
  unfold fourByte, tryA, bindA, await, ret, lift, fourByteName.
  destruct (fourByteApi services selector) as [[[|first rest]|]|e]; reflexivity.
Qed.

(** One resolution returns and appends its lookups to the log. *)
Lemma resolveSelector_run (services : Services) (selector : string) (log : LookupLog) :
  resolveSelector services selector log =
    (Ok (resolution services selector), log ++ lookups services selector).
Proof.
  unfold resolveSelector, bindA, resolution, lookups, openchainFinds.
  rewrite openchain_run.
  destruct (negb (String.eqb (openchainName services selector) selector)) eqn:En.
  - unfold ret. rewrite En. reflexivity.
  - unfold bindA. rewrite fourByte_run, <- app_assoc. cbn [app].
    destruct (negb (String.eqb (fourByteName services selector) selector)) eqn:En4;
      unfold ret; rewrite ?En4; reflexivity.
Qed.

(** The loop sends the lookups of every selector of the list, repeated
    ones included, in order. *)
Lemma resolveSelectors_run (services : Services) (selectors : list string) :
  forall (obj : list (string * option string)) (log : LookupLog),
  exists obj',
    resolveSelectors services selectors obj log =
      (Ok obj', log ++ flat_map (lookups services) selectors).
Proof.
  induction selectors as [|selector rest IH]; intros obj log; cbn [resolveSelectors flat_map].
  - exists obj. unfold ret. now rewrite app_nil_r.
  - unfold bindA. rewrite resolveSelector_run.
    destruct (IH (setProperty obj selector (resolution services selector))
                 (log ++ lookups services selector)) as (obj' & H).
    exists obj'. rewrite H, <- app_assoc. reflexivity.
Qed.

Lemma setProperty_twice {V} (obj : list (string * V)) (key : string) (v : V) :
  setProperty (setProperty obj key v) key v = setProperty obj key v.
Proof.
  induction obj as [|[k w] rest IH]; cbn.
  - now rewrite String.eqb_refl.
  - destruct (String.eqb k key) eqn:E; cbn; rewrite E; [reflexivity | now rewrite IH].
Qed.

(** C9, as stated, fails: no cache is consulted. With services that know
    no name for "0x06fdde03", calling [openchain] twice sends two requests,
    and resolving the selector a second time sends both lookups again. *)
Lemma second_resolution_looks_up_again :
  snd (bindA (openchain nothingFound "0x06fdde03")
             (fun _ => openchain nothingFound "0x06fdde03") []) =
    [(OpenChain, "0x06fdde03"%string); (OpenChain, "0x06fdde03"%string)] /\
  snd (resolveSelector nothingFound "0x06fdde03" []) =
    [(OpenChain, "0x06fdde03"%string); (FourByte, "0x06fdde03"%string)] /\
  snd (resolveTwice nothingFound nothingFound "0x06fdde03" []) =
    [(OpenChain, "0x06fdde03"%string); (FourByte, "0x06fdde03"%string);
     (OpenChain, "0x06fdde03"%string); (FourByte, "0x06fdde03"%string)] /\
  ~ SecondResolutionIsCached nothingFound "0x06fdde03".
Proof.
  split; [reflexivity|]. split; [reflexivity|]. split; [reflexivity|].
  unfold SecondResolutionIsCached. cbn. discriminate.
Qed.

Lemma openChain_lookups (services : Services) (selectors : list string) :
  filter isOpenChain (flat_map (lookups services) selectors)
    = List.map (pair OpenChain) selectors.
Proof.
  induction selectors as [|selector rest IH]; [reflexivity|].
  cbn [flat_map List.map]. rewrite filter_app, IH. unfold lookups.
  destruct (openchainFinds services selector); reflexivity.
Qed.

(** C9, amended. The resolution keeps no cache, whatever the services
    answer. Two calls of [openchain], or of [fourByte], for one selector
    send two requests. A second resolution of a selector sends the
    OpenChain lookup again and, unless OpenChain returns a name this time,
    the 4byte lookup again: the call log of resolving it twice is the log
    of resolving it once followed by at least one more call. The loop
    itself never skips an element: it sends one OpenChain lookup per
    element of its list, in order. *)
Theorem resolution_is_not_cached (first second : Services) (selector : string)
        (log : LookupLog) :
  snd (bindA (openchain first selector) (fun _ => openchain second selector) log) =
    log ++ [(OpenChain, selector); (OpenChain, selector)] /\
  snd (bindA (fourByte first selector) (fun _ => fourByte second selector) log) =
    log ++ [(FourByte, selector); (FourByte, selector)] /\
  snd (resolveTwice first second selector log) =
    snd (resolveSelector first selector log)
    ++ (OpenChain, selector)
       :: (if negb (String.eqb (openchainName second selector) selector)
           then [] else [(FourByte, selector)]) /\
  (List.length (snd (resolveSelector first selector log))
   < List.length (snd (resolveTwice first second selector log)))%nat /\
  (forall (selectors : list string) (obj : list (string * option string)),
     exists obj' sent,
       resolveSelectors first selectors obj log = (Ok obj', log ++ sent) /\
       filter isOpenChain sent = List.map (pair OpenChain) selectors).
Proof.
  assert (Htwice : snd (resolveTwice first second selector log) =
                   snd (resolveSelector first selector log) ++ lookups second selector).
  { unfold resolveTwice, bindA. rewrite !resolveSelector_run. reflexivity. }
  split; [|split; [|split; [|split]]].
  - unfold bindA. rewrite !openchain_run, <- app_assoc. reflexivity.
  - unfold bindA. rewrite !fourByte_run, <- app_assoc. reflexivity.
  - exact Htwice.
  - rewrite Htwice, length_app. unfold lookups. cbn [List.length]. lia.
  - intros selectors obj.
    destruct (resolveSelectors_run first selectors obj log) as (obj' & H).
    exists obj', (flat_map (lookups first) selectors).
    split; [exact H | apply openChain_lookups].
Qed.

(** ** The map of resolved selectors *)

Lemma resolveSelectors_resolveAll (services : Services) (selectors : list string) :
  forall (obj : list (string * option string)) (log : LookupLog),
    resolveSelectors services selectors obj log =
      (Ok (resolveAll services selectors obj),
       log ++ flat_map (lookups services) selectors).
Proof.
  induction selectors as [|selector rest IH]; intros obj log;
    cbn [resolveSelectors flat_map resolveAll fold_left].
  - unfold ret. now rewrite app_nil_r.
  - unfold bindA. rewrite resolveSelector_run, IH, <- app_assoc. reflexivity.
Qed.

Lemma resolveAll_keys (services : Services) (selectors : list string) :
  forall obj k,
    In k (JSObject.keys (resolveAll services selectors obj)) <->
    In k (JSObject.keys obj) \/ In k selectors.
Proof.
  induction selectors as [|selector rest IH]; intros obj k; cbn [resolveAll fold_left].
  - cbn. tauto.
  - fold (resolveAll services rest
            (setProperty obj selector (resolution services selector))).
    rewrite IH, ObjectFacts.keys_setProperty. cbn. intuition congruence.
Qed.

Lemma resolveAll_NoDup (services : Services) (selectors : list string) :
  forall obj, NoDup (JSObject.keys obj) ->
              NoDup (JSObject.keys (resolveAll services selectors obj)).
Proof.
  induction selectors as [|selector rest IH]; intros obj H; cbn [resolveAll fold_left];
    [exact H|].
  apply IH. now apply ObjectFacts.NoDup_setProperty.
Qed.

Lemma resolveAll_untouched (services : Services) (selectors : list string) :
  forall obj k, ~ In k selectors ->
    JSObject.getProperty (resolveAll services selectors obj) k = JSObject.getProperty obj k.
Proof.
  induction selectors as [|selector rest IH]; intros obj k H; cbn [resolveAll fold_left];
    [reflexivity|].
  fold (resolveAll services rest
          (setProperty obj selector (resolution services selector))).
  rewrite IH by (intros Hin; apply H; now right).
  apply ObjectFacts.getProperty_setProperty_other. intros ->. apply H. now left.
Qed.

Lemma resolveAll_value (services : Services) (selectors : list string) :
  forall obj k, In k selectors ->
    JSObject.getProperty (resolveAll services selectors obj) k
      = Some (resolution services k).
Proof.
  induction selectors as [|selector rest IH]; intros obj k H; [contradiction|].
  cbn [resolveAll fold_left].
  fold (resolveAll services rest
          (setProperty obj selector (resolution services selector))).
  destruct (in_dec string_dec k rest) as [Hin|Hnin]; [now apply IH|].
  destruct H as [->|H]; [|contradiction].
  rewrite resolveAll_untouched by exact Hnin.
  apply ObjectFacts.getProperty_setProperty_same.
Qed.

Lemma resolveAll_fresh (services : Services) (selectors : list string) :
  forall obj,
    NoDup selectors -> (forall k, In k selectors -> ~ In k (JSObject.keys obj)) ->
    JSObject.keys (resolveAll services selectors obj) = JSObject.keys obj ++ selectors.
Proof.
  induction selectors as [|selector rest IH]; intros obj Hnd Hfresh;
    cbn [resolveAll fold_left].
  - now rewrite app_nil_r.
  - fold (resolveAll services rest
            (setProperty obj selector (resolution services selector))).
    inversion Hnd as [|? ? Hnotin Hnd']; subst.
    rewrite IH.
    + rewrite ObjectFacts.setProperty_new by (apply Hfresh; now left).
      unfold JSObject.keys. rewrite map_app, <- app_assoc. reflexivity.
    + exact Hnd'.
    + intros k Hk Hin. apply ObjectFacts.keys_setProperty in Hin as [->|Hin].
      * contradiction.
      * apply (Hfresh k); [now right | exact Hin].
Qed.

Lemma resolution_differs (services : Services) (selector name : string) :
  resolution services selector = Some name -> name <> selector.
Proof.
  unfold resolution, openchainFinds.
  destruct (String.eqb_spec (openchainName services selector) selector) as [E|E]; cbn [negb].
  - destruct (String.eqb_spec (fourByteName services selector) selector) as [E4|E4];
      cbn [negb]; [discriminate|].
    intros H. injection H as <-. exact E4.
  - intros H. injection H as <-. exact E.
Qed.

(** X11. Neither lookup function ever throws, and each sends exactly one
    request: it returns the first entry of the array the service answers
    with, and the selector itself when the request or its JSON fails, when
    the field is missing, or when the array is empty. *)
Theorem lookups_never_throw (services : Services) (selector : string) (log : LookupLog) :
  (exists name,
     openchain services selector log = (Ok name, log ++ [(OpenChain, selector)]) /\
     match openchainApi services selector with
     | Ok (Some (first :: _)) => name = first
     | Ok (Some []) | Ok None | Throw _ => name = selector
     end) /\
  (exists name,
     fourByte services selector log = (Ok name, log ++ [(FourByte, selector)]) /\
     match fourByteApi services selector with
     | Ok (Some (first :: _)) => name = first
     | Ok (Some []) | Ok None | Throw _ => name = selector
     end).
Proof.
  split.
  - exists (openchainName services selector). split; [apply openchain_run|].
    unfold openchainName.
    destruct (openchainApi services selector) as [[[|first rest]|]|e]; reflexivity.
  - exists (fourByteName services selector). split; [apply fourByte_run|].
    unfold fourByteName.
    destruct (fourByteApi services selector) as [[[|first rest]|]|e]; reflexivity.
Qed.

(** X12. The resolution loop never throws, whatever the services answer.
    The map it builds has exactly the selectors of the list as keys, each
    once; every key maps to the signature found by OpenChain, else by
    4byte, else to undefined, and never to the selector itself; and when
    the list has no repeated selector the keys are in the order of the
    list. *)
Theorem resolveSelectors_map (services : Services) (selectors : list string)
        (log : LookupLog) :
  exists obj,
    fst (resolveSelectors services selectors [] log) = Ok obj /\
    NoDup (JSObject.keys obj) /\
    (forall k, In k (JSObject.keys obj) <-> In k selectors) /\
    (forall k, In k selectors ->
       JSObject.getProperty obj k =
         Some (if negb (String.eqb (openchainName services k) k)
               then Some (openchainName services k)
               else if negb (String.eqb (fourByteName services k) k)
                    then Some (fourByteName services k)
                    else None)) /\
    (forall k name, JSObject.getProperty obj k = Some (Some name) -> name <> k) /\
    (NoDup selectors -> JSObject.keys obj = selectors).
Proof.
  exists (resolveAll services selectors []).
  rewrite resolveSelectors_resolveAll. split; [reflexivity|].
  split; [apply resolveAll_NoDup; constructor|].
  split; [intros k; rewrite resolveAll_keys; cbn; tauto|].
  split; [intros k Hk; now apply resolveAll_value|].
  split.
  - intros k name Hget.
    destruct (in_dec string_dec k selectors) as [Hin|Hnin].
    + rewrite resolveAll_value in Hget by exact Hin. injection Hget as Hget.
      now apply (resolution_differs services).
    + rewrite resolveAll_untouched in Hget by exact Hnin. discriminate Hget.
  - intros Hnd. now rewrite resolveAll_fresh.
Qed.


(** The map for two distinct selectors that neither service knows. *)
Lemma resolveSelectors_map_witness :
  exists obj,
    fst (resolveSelectors nothingFound ["0x06fdde03"; "0x95d89b41"]%string [] []) = Ok obj /\
    JSObject.keys obj = ["0x06fdde03"; "0x95d89b41"]%string /\
    JSObject.getProperty obj "0x95d89b41" = Some None.
Proof.
  destruct (resolveSelectors_map nothingFound ["0x06fdde03"; "0x95d89b41"]%string [])
    as (obj & Hrun & _ & _ & Hval & _ & Hord).
  exists obj. split; [exact Hrun|]. split.
  - apply Hord. repeat constructor; cbn; intuition discriminate.
  - exact (Hval "0x95d89b41"%string (or_intror (or_introl eq_refl))).
Defined.

End ResolverFacts.

(* ===================================================================== *)
(** * Properties of the parallel invoker *)
(* ===================================================================== *)

Module GroupcallFacts.
Import GroupcallProps.
Import JS Groupcall.
Local Open Scope list_scope.
Local Open Scope nat_scope.

(** The promise of one call never rejects. *)
Lemma callOne_fulfils (answer : Result (option string)) :
  callOne answer = Ok (outcome answer).
Proof. destruct answer; reflexivity. Qed.

Lemma issue_outcomes (client : Transport) (account : string) (calldata : list MulticallCall) :
  forall i, issue client account i calldata = List.map Ok (outcomes client account i calldata).
Proof.
  induction calldata as [|call rest IH]; intros i; cbn.
  - reflexivity.
  - now rewrite callOne_fulfils, IH.
Qed.

Lemma length_outcomes (client : Transport) (account : string) (calldata : list MulticallCall) :
  forall i, List.length (outcomes client account i calldata) = List.length calldata.
Proof. induction calldata as [|c r IH]; intros i; cbn; [reflexivity | now rewrite IH]. Qed.

Lemma nth_outcomes (client : Transport) (account : string) (calldata : list MulticallCall) :
  forall i k call,
    nth_error calldata k = Some call ->
    nth_error (outcomes client account i calldata) k =
      Some (outcome (client (i + k) account call)).
Proof.
  induction calldata as [|c r IH]; intros i k call Hk.
  - destruct k; discriminate.
  - destruct k as [|k]; cbn in *.
    + injection Hk as ->. now rewrite Nat.add_0_r.
    + rewrite (IH (S i) k call Hk). do 3 f_equal. lia.
Qed.

(** ** The values array of [Promise.all] *)

Lemma length_setIndex {A} (l : list A) : forall k a,
  List.length (setIndex l k a) = List.length l.
Proof. induction l as [|h t IH]; intros [|k] a; cbn; auto. Qed.

Lemma nth_setIndex_same {A} (l : list A) : forall k a,
  k < List.length l -> nth_error (setIndex l k a) k = Some a.
Proof.
  induction l as [|h t IH]; intros [|k] a H; cbn in *; try lia; auto.
  apply IH. lia.
Qed.

Lemma nth_setIndex_other {A} (l : list A) : forall k i a,
  i <> k -> nth_error (setIndex l k a) i = nth_error l i.
Proof.
  induction l as [|h t IH]; intros [|k] [|i] a H; cbn; auto; try congruence.
Qed.

Lemma settleAll_fill {A} (vs : list A) (schedule : list nat) :
  forall values, settleAll (List.map Ok vs) schedule values = Ok (fill vs schedule values).
Proof.
  induction schedule as [|k rest IH]; intros values; cbn; [reflexivity|].
  rewrite nth_error_map. destruct (nth_error vs k); cbn; apply IH.
Qed.

Lemma agrees_setIndex {A} (vs : list A) (values : list (option A)) (k : nat) (v : A) :
  agrees vs values -> nth_error vs k = Some v -> agrees vs (setIndex values k (Some v)).
Proof.
  intros [Hlen Hag] Hk. split; [now rewrite length_setIndex|].
  intros i. destruct (Nat.eq_dec i k) as [->|Hne].
  - right. rewrite nth_setIndex_same, Hk; [reflexivity|].
    rewrite Hlen. apply nth_error_Some. congruence.
  - rewrite nth_setIndex_other by exact Hne. apply Hag.
Qed.

Lemma fill_agrees {A} (vs : list A) (schedule : list nat) : forall values,
  agrees vs values -> agrees vs (fill vs schedule values).
Proof.
  induction schedule as [|k rest IH]; intros values Hag; cbn; [exact Hag|].
  destruct (nth_error vs k) as [v|] eqn:Ek; [|now apply IH].
  apply IH. now apply agrees_setIndex.
Qed.

(** A slot once filled stays filled. *)
Lemma fill_keeps {A} (vs : list A) (schedule : list nat) : forall values i v,
  agrees vs values ->
  nth_error values i = Some (Some v) ->
  nth_error (fill vs schedule values) i = Some (Some v).
Proof.
  induction schedule as [|k rest IH]; intros values i v Hag Hi; cbn; [exact Hi|].
  destruct (nth_error vs k) as [w|] eqn:Ek; [|now apply IH].
  apply IH; [now apply agrees_setIndex|].
  destruct (Nat.eq_dec i k) as [->|Hne].
  - destruct Hag as [Hlen Hag]. destruct (Hag k) as [H|H]; [congruence|].
    rewrite Hi, Ek in H. cbn in H. injection H as ->.
    apply nth_setIndex_same. rewrite Hlen. apply nth_error_Some. congruence.
  - now rewrite nth_setIndex_other.
Qed.

(** A promise that settles fills its slot. *)
Lemma fill_filled {A} (vs : list A) (schedule : list nat) : forall values i v,
  agrees vs values ->
  In i schedule ->
  nth_error vs i = Some v ->
  nth_error (fill vs schedule values) i = Some (Some v).
Proof.
  induction schedule as [|k rest IH]; intros values i v Hag Hin Hv; [contradiction|].
  cbn. destruct Hin as [->|Hin].
  - rewrite Hv. apply fill_keeps; [now apply agrees_setIndex|].
    apply nth_setIndex_same. destruct Hag as [Hlen _]. rewrite Hlen.
    apply nth_error_Some. congruence.
  - destruct (nth_error vs k) as [w|] eqn:Ek; [|now apply IH].
    apply IH; try assumption. now apply agrees_setIndex.
Qed.

Lemma agrees_empty {A} (vs : list A) : agrees vs (repeat None (List.length vs)).
Proof.
  split; [apply repeat_length|].
  intros i. destruct (Nat.lt_ge_cases i (List.length vs)) as [Hlt|Hge].
  - left. now apply nth_error_repeat.
  - right. assert (nth_error vs i = None) as -> by now apply nth_error_None.
    apply nth_error_None. now rewrite repeat_length.
Qed.

Lemma allFilled_map {A} (vs : list A) : allFilled (List.map Some vs) = Some vs.
Proof. induction vs as [|v t IH]; cbn; [reflexivity | now rewrite IH]. Qed.

(** Once every promise has settled, in whatever order, [Promise.all]
    fulfils with the values in the order of the promises. *)
Lemma promiseAll_fulfils {A} (vs : list A) (schedule : list nat) :
  (forall i, i < List.length vs -> In i schedule) ->
  promiseAll (List.map Ok vs) schedule = Fulfilled vs.
Proof.
  intros Hall. unfold promiseAll. rewrite settleAll_fill, length_map.
  assert (fill vs schedule (repeat None (List.length vs)) = List.map Some vs) as ->.
  { apply nth_error_ext. intros i. rewrite nth_error_map.
    pose proof (fill_agrees vs schedule _ (agrees_empty vs)) as [Hlen _].
    destruct (nth_error vs i) as [v|] eqn:Ev.
    - apply fill_filled; [apply agrees_empty | | exact Ev].
      apply Hall. apply nth_error_Some. congruence.
    - apply nth_error_None. rewrite Hlen. now apply nth_error_None. }
  now rewrite allFilled_map.
Qed.



Example groupcall_run :
  groupcall secondReverts "0xa180Fe01B906A1bE37BE6c534a3300785b20d947" threeCalls [2; 0; 1] =
    Fulfilled
      [mkResult true "0x000000000000000000000000000000000000000000000000000000000000002a" "";
       mkResult false "0x" "Ownable: caller is not the owner";
       mkResult true "0x000000000000000000000000000000000000000000000000000000000000002a" ""].
Proof. vm_compute. reflexivity. Qed.

(** While a call is still outstanding the whole is pending. *)
Example groupcall_pending :
  groupcall secondReverts "0xa180Fe01B906A1bE37BE6c534a3300785b20d947" threeCalls [2; 0] =
    Pending.
Proof. vm_compute. reflexivity. Qed.


(** ** Any order of completion *)

Lemma fill_untouched {A} (vs : list A) (schedule : list nat) : forall values i,
  ~ In i schedule -> nth_error (fill vs schedule values) i = nth_error values i.
Proof.
  induction schedule as [|k rest IH]; intros values i H; cbn; [reflexivity|].
  assert (i <> k) by (intros ->; apply H; now left).
  assert (~ In i rest) by (intros Hin; apply H; now right).
  destruct (nth_error vs k); rewrite IH by assumption; [|reflexivity].
  now apply nth_setIndex_other.
Qed.

Lemma allFilled_Some {A} (values : list (option A)) : forall vs,
  allFilled values = Some vs -> values = List.map Some vs.
Proof.
  induction values as [|[v|] t IH]; intros vs H; cbn in H.
  - injection H as <-. reflexivity.
  - destruct (allFilled t) as [ws|]; [|discriminate]. injection H as <-.
    cbn. f_equal. now apply IH.
  - discriminate.
Qed.

Lemma allFilled_None {A} (values : list (option A)) :
  allFilled values = None -> exists i, nth_error values i = Some None.
Proof.
  induction values as [|[v|] t IH]; intros H; cbn in H.
  - discriminate.
  - destruct (allFilled t) as [ws|]; [discriminate|].
    destruct (IH eq_refl) as (i & Hi). now exists (S i).
  - now exists 0.
Qed.

(** The values array holds every promise's value exactly when every
    promise has completed. *)
Lemma promiseAll_settles {A} (vs : list A) (schedule : list nat) :
  match promiseAll (List.map Ok vs) schedule with
  | Rejected _ => False
  | Pending => exists i, i < List.length vs /\ ~ In i schedule
  | Fulfilled results => results = vs /\ forall i, i < List.length vs -> In i schedule
  end.
Proof.
  unfold promiseAll. rewrite settleAll_fill, length_map.
  pose proof (fill_agrees vs schedule _ (agrees_empty vs)) as [Hlen Hag].
  destruct (allFilled (fill vs schedule (repeat None (List.length vs)))) as [ws|] eqn:Ef.
  - apply allFilled_Some in Ef. rewrite Ef in Hlen, Hag. split.
    + apply nth_error_ext. intros i. specialize (Hag i).
      rewrite nth_error_map in Hag.
      destruct (nth_error ws i), (nth_error vs i), Hag as [H|H];
        cbn in H; congruence.
    + intros i Hi. destruct (in_dec Nat.eq_dec i schedule) as [Hin|Hnin]; [exact Hin|].
      exfalso.
      pose proof (fill_untouched vs schedule (repeat None (List.length vs)) i Hnin) as Hu.
      rewrite Ef, nth_error_map, nth_error_repeat in Hu by exact Hi.
      destruct (nth_error ws i); discriminate Hu.
  - destruct (allFilled_None _ Ef) as (i & Hi).
    assert (Hlt : i < List.length vs).
    { rewrite <- Hlen. apply nth_error_Some. congruence. }
    exists i. split; [exact Hlt|]. intros Hin.
    destruct (nth_error vs i) as [v|] eqn:Ev.
    + rewrite (fill_filled vs schedule _ i v (agrees_empty vs) Hin Ev) in Hi. discriminate Hi.
    + apply nth_error_None in Ev. lia.
Qed.

Lemma In_outcomes (client : Transport) (account : string) (calldata : list MulticallCall) :
  forall i r, In r (outcomes client account i calldata) ->
              exists answer, r = outcome answer.
Proof.
  induction calldata as [|call rest IH]; intros i r H; [contradiction|].
  destruct H as [<-|H]; [eexists; reflexivity | eapply IH; exact H].
Qed.

(** X13. [groupcall] never rejects, whatever the calls do and in whatever
    order they complete. It is pending exactly while some call has not
    completed; once all have, it holds one result per call in which a
    success has an empty revert reason and a failure has return data "0x"
    and a revert reason longer than ten characters with no "0x" in it. *)
Theorem groupcall_settles (client : Transport) (account : string)
        (calldata : list MulticallCall) (schedule : list nat) :
  match groupcall client account calldata schedule with
  | Rejected _ => False
  | Pending => exists i, i < List.length calldata /\ ~ In i schedule
  | Fulfilled results =>
      (forall i, i < List.length calldata -> In i schedule) /\
      List.length results = List.length calldata /\
      forall r, In r results ->
        if success r then revertReason r = ""%string
        else returnData r = "0x"%string /\
             (10 < len (revertReason r))%Z /\
             indexOf (revertReason r) "0x" = (-1)%Z
  end.
Proof.
  unfold groupcall. rewrite issue_outcomes.
  pose proof (promiseAll_settles (outcomes client account 0 calldata) schedule) as H.
  rewrite length_outcomes in H.
  destruct (promiseAll _ schedule) as [|results|e]; [exact H | | exact H].
  destruct H as [-> Hall]. split; [exact Hall|].
  split; [apply length_outcomes|].
  intros r Hr. apply In_outcomes in Hr as (answer & ->).
  destruct answer as [data|error]; cbn; [reflexivity|].
  split; [reflexivity|].
  destruct (details error) as [d|].
  - destruct (RevertFacts.normalize_bounds d) as (H1 & H2). now split.
  - split; reflexivity.
Qed.


(** The reverted call among three that complete last, first, second. *)
Lemma groupcall_settles_witness :
  let r := mkResult false "0x" "Ownable: caller is not the owner" in
  returnData r = "0x"%string /\
  (10 < len (revertReason r))%Z /\
  indexOf (revertReason r) "0x" = (-1)%Z.
Proof.
  intros r.
  pose proof (groupcall_settles secondReverts "0xa180Fe01B906A1bE37BE6c534a3300785b20d947"
                threeCalls [2; 0; 1]) as H.
  assert (groupcall secondReverts "0xa180Fe01B906A1bE37BE6c534a3300785b20d947"
            threeCalls [2; 0; 1] =
          Fulfilled
            [mkResult true
               "0x000000000000000000000000000000000000000000000000000000000000002a" "";
             r;
             mkResult true
               "0x000000000000000000000000000000000000000000000000000000000000002a" ""]) as E
    by (vm_compute; reflexivity).
  rewrite E in H. destruct H as (_ & _ & H).
  exact (H r (or_intror (or_introl eq_refl))).
Defined.

End GroupcallFacts.

(* ===================================================================== *)
(** * Properties of the classification and of the recording of results *)
(* ===================================================================== *)

Module AnalyzerFacts.
Import AnalyzerProps GroupcallProps ResolverProps.
Import JS JSObject Analyzer.
Local Open Scope list_scope.
Local Open Scope nat_scope.



Lemma length_setProperty_in {V} (obj : list (string * V)) (k : string) (v : V) :
  In k (keys obj) -> List.length (Resolver.setProperty obj k v) = List.length obj.
Proof.
  intros H. rewrite <- !ObjectFacts.length_keys.
  now rewrite ObjectFacts.keys_setProperty_in.
Qed.

(** The results recorded from position [j] on: keys and earlier entries
    stay, and the entry at [j + i] gets the [i]-th result. *)
Lemma processResults_records (abi : Decode.AbiDecoder) (rs : list Groupcall.CallResult) :
  forall (j : nat) (obj : Functions),
    NoDup (keys obj) -> j + List.length rs <= List.length obj ->
    keys (processResults abi rs j obj) = keys obj /\
    (forall i, i < j -> nth_error (processResults abi rs j obj) i = nth_error obj i) /\
    (forall i r k info,
       nth_error rs i = Some r -> nth_error obj (j + i) = Some (k, info) ->
       exists info',
         nth_error (processResults abi rs j obj) (j + i) = Some (k, info') /\
         updated abi info info' r).
Proof.
  induction rs as [|r rest IH]; intros j obj Hnd Hlen.
  - cbn. split; [reflexivity|]. split; [reflexivity|]. intros [|i]; discriminate.
  - cbn [List.length] in Hlen.
    destruct (nth_error obj j) as [[k info]|] eqn:Ej;
      [|apply nth_error_None in Ej; lia].
    assert (Hin : In k (keys obj)) by (eapply ObjectFacts.nth_error_in_keys; exact Ej).
    assert (Hstep : forall info1,
      updated abi info info1 r ->
      keys (processResults abi rest (S j) (Resolver.setProperty obj k info1)) = keys obj /\
      (forall i, i < j ->
         nth_error (processResults abi rest (S j) (Resolver.setProperty obj k info1)) i
           = nth_error obj i) /\
      (forall i r' k' info',
         nth_error (r :: rest) i = Some r' -> nth_error obj (j + i) = Some (k', info') ->
         exists info'',
           nth_error (processResults abi rest (S j) (Resolver.setProperty obj k info1))
                     (j + i) = Some (k', info'') /\
           updated abi info' info'' r')).
    { intros info1 Hup.
      destruct (ObjectFacts.setProperty_nth obj j k info info1 Hnd Ej) as [Hat Helse].
      assert (Hk1 : keys (Resolver.setProperty obj k info1) = keys obj)
        by now apply ObjectFacts.keys_setProperty_in.
      destruct (IH (S j) (Resolver.setProperty obj k info1)) as (Hkeys & Hlow & Hrec).
      { now rewrite Hk1. }
      { rewrite length_setProperty_in by exact Hin. lia. }
      split; [now rewrite Hkeys|]. split.
      - intros i Hi. rewrite Hlow by lia. apply Helse. lia.
      - intros [|i] r' k' info' Hr Hi.
        + cbn in Hr. injection Hr as <-. rewrite Nat.add_0_r in Hi |- *.
          rewrite Ej in Hi. injection Hi as <- <-.
          exists info1. split; [|exact Hup]. rewrite Hlow by lia. exact Hat.
        + cbn in Hr. replace (j + S i) with (S j + i) in * by lia.
          apply (Hrec i r' k' info' Hr). rewrite Helse by lia. exact Hi. }
    cbn [processResults]. cbv zeta.
    rewrite ObjectFacts.nth_error_keys, Ej. cbn [option_map fst].
    rewrite (ObjectFacts.getProperty_nth obj j k info Hnd Ej).
    destruct (Groupcall.success r) eqn:Es.
    + destruct (DecodeFacts.decodeResp_returns abi (Groupcall.returnData r)) as (d & Hd).
      rewrite Hd. apply Hstep. unfold updated. rewrite Es. cbn.
      repeat split; try reflexivity. exists d. now split.
    + apply Hstep. unfold updated. rewrite Es. cbn. repeat split; reflexivity.
Qed.

Lemma nth_error_calls (address : string) (obj : Functions) (i : nat) (k : string)
      (info : FunctionInfo) :
  nth_error obj i = Some (k, info) ->
  nth_error (calls address obj) i = Some (Groupcall.mkCall address k).
Proof.
  intros H. unfold calls. rewrite nth_error_map, ObjectFacts.nth_error_keys, H. reflexivity.
Qed.

Lemma length_calls (address : string) (obj : Functions) :
  List.length (calls address obj) = List.length obj.
Proof. unfold calls. now rewrite length_map, ObjectFacts.length_keys. Qed.

(** X15. Once every call has completed, in whatever order, each callable
    function holds the outcome of its own call: the entry keeps its
    position, key, signature and function name; if the call to the address
    with that selector as call data returned, the entry has the returned
    bytes as response, their decoding as decoded value and a null revert
    reason; if it failed, the entry has a null response, a null decoded
    value and the normalized reason. *)
Theorem executeCalls_attributes (abi : Decode.AbiDecoder) (client : Groupcall.Transport)
        (address : string) (callableFunctions : Functions) (schedule : list nat) :
  NoDup (keys callableFunctions) ->
  (forall i, i < List.length callableFunctions -> In i schedule) ->
  exists after,
    executeCalls abi client address callableFunctions schedule = Some after /\
    keys after = keys callableFunctions /\
    forall i selector info,
      nth_error callableFunctions i = Some (selector, info) ->
      exists info',
        nth_error after i = Some (selector, info') /\
        getProperty after selector = Some info' /\
        signature info' = signature info /\
        functionName info' = functionName info /\
        match client i senderAddress (Groupcall.mkCall address selector) with
        | Ok data =>
            let returnData := match data with Some d => d | None => "0x"%string end in
            response info' = Value returnData /\
            (exists d, Decode.decodeResp abi returnData = Ok d /\ decoded info' = Value d) /\
            revert info' = Null
        | Throw error =>
            response info' = Null /\ decoded info' = Null /\
            revert info' =
              Value (match details error with
                     | Some d => Revert.normalizeRevertReason d
                     | None => "execution reverted"%string
                     end)
        end.
Proof.
  intros Hnd Hall. unfold executeCalls. cbv zeta.
  rewrite length_calls.
  destruct (Nat.ltb_spec 0 (List.length callableFunctions)) as [Hpos|Hzero].
  - unfold Groupcall.groupcall. rewrite GroupcallFacts.issue_outcomes.
    rewrite GroupcallFacts.promiseAll_fulfils
      by (rewrite GroupcallFacts.length_outcomes, length_calls; exact Hall).
    set (outs := outcomes client senderAddress 0 (calls address callableFunctions)).
    destruct (processResults_records abi outs 0 callableFunctions Hnd) as (Hkeys & _ & Hrec).
    { unfold outs. rewrite GroupcallFacts.length_outcomes, length_calls. lia. }
    eexists. split; [reflexivity|]. split; [exact Hkeys|].
    intros i selector info Hi.
    assert (Hout : nth_error outs i =
                   Some (outcome (client i senderAddress (Groupcall.mkCall address selector)))).
    { unfold outs.
      rewrite (GroupcallFacts.nth_outcomes client senderAddress _ 0 i _
                 (nth_error_calls address _ i selector info Hi)).
      reflexivity. }
    destruct (Hrec i _ selector info Hout Hi) as (info' & Hat & Hsig & Hname & Hup).
    cbn [Nat.add] in Hat.
    exists info'. split; [exact Hat|]. split.
    { eapply ObjectFacts.getProperty_nth; [|exact Hat]. now rewrite Hkeys. }
    split; [exact Hsig|]. split; [exact Hname|].
    destruct (client i senderAddress (Groupcall.mkCall address selector)) as [data|error];
      cbn in Hup; exact Hup.
  - exists callableFunctions. split; [reflexivity|]. split; [reflexivity|].
    intros i selector info Hi. exfalso.
    assert (i < List.length callableFunctions) by (apply nth_error_Some; congruence). lia.
Qed.

Lemma executeCalls_attributes_witness :
  exists after,
    executeCalls (Viem.decoder DecodeProps.noStringDecoder) secondReverts
      ProxyProps.target (fst (classify threeSelectors [] [])) [1; 0] = Some after /\
    keys after = keys (fst (classify threeSelectors [] [])) /\
    forall i selector info,
      nth_error (fst (classify threeSelectors [] [])) i = Some (selector, info) ->
      exists info',
        nth_error after i = Some (selector, info') /\
        getProperty after selector = Some info' /\
        signature info' = signature info /\
        functionName info' = functionName info /\
        match secondReverts i senderAddress (Groupcall.mkCall ProxyProps.target selector) with
        | Ok data =>
            let returnData := match data with Some d => d | None => "0x"%string end in
            response info' = Value returnData /\
            (exists d, Decode.decodeResp (Viem.decoder DecodeProps.noStringDecoder) returnData
                         = Ok d /\ decoded info' = Value d) /\
            revert info' = Null
        | Throw error =>
            response info' = Null /\ decoded info' = Null /\
            revert info' =
              Value (match details error with
                     | Some d => Revert.normalizeRevertReason d
                     | None => "execution reverted"%string
                     end)
        end.
Proof.
  apply (executeCalls_attributes (Viem.decoder DecodeProps.noStringDecoder) secondReverts
           ProxyProps.target (fst (classify threeSelectors [] [])) [1; 0]).
  - vm_compute. repeat constructor; cbn; intuition discriminate.
  - vm_compute. intros [|[|i]] Hi; auto. lia.
Defined.

Example executeCalls_run :
  executeCalls (Viem.decoder DecodeProps.noStringDecoder) secondReverts
    ProxyProps.target (fst (classify threeSelectors [] [])) [1; 0] =
    Some [("0x06fdde03"%string,
           mkFunctionInfo (Some "name()"%string) (Some "name"%string)
             (Value "0x000000000000000000000000000000000000000000000000000000000000002a")
             (Value "42") Null);
          ("0x95d89b41"%string,
           mkFunctionInfo None None Null Null
             (Value "Ownable: caller is not the owner"))].
Proof. vm_compute. reflexivity. Qed.

End AnalyzerFacts.
